(** * PersonalOS local assistant: memory store, security guard, command runner

    A shallow embedding of [integration/agents/runtime/yerel_asistan.py]
    (classes [SecurityManager], [DatabaseManager], [CommandManager]) and the
    properties of its specification that can be settled on it.

    Conventions of the embedding.
    - A Python [str] is a list of Unicode code points ([str := list Z]);
      slicing, [in], [strip] and [replace] act on code points, as in Python.
    - A [datetime.isoformat()] text is represented by the instant it
      denotes, a count of microseconds ([timestamp := Z]).  The comparison
      SQLite performs on two such texts is the comparison of the instants
      ([isoformat_order] below).
    - A table is the list of its rows in rowid order.
    - The wall clock, [uuid.uuid4()], the outcome of a subprocess and the
      health of the storage are inputs of the operation that consults them:
      one argument for each reading the source takes.
    - A statement binds its [str] parameters in the order of the tuple the
      source passes; a parameter that UTF-8 cannot encode makes the
      statement raise before it runs. *)

From Stdlib Require Import ZArith List Bool Lia Ascii String Permutation Sorted.
Import ListNotations.
Local Open Scope Z_scope.

(* ================================================================== *)
(** * Python values *)

Definition str := list Z.
Definition timestamp := Z.

(** Decoding of a UTF-8 source literal into code points. *)
Fixpoint utf8_decode (bs : list Z) : str :=
  match bs with
  | [] => []
  | b0 :: r0 =>
      if b0 <? 128 then b0 :: utf8_decode r0
      else if b0 <? 224 then
        match r0 with
        | b1 :: r1 => ((b0 - 192) * 64 + (b1 - 128)) :: utf8_decode r1
        | _ => []
        end
      else if b0 <? 240 then
        match r0 with
        | b1 :: b2 :: r2 =>
            ((b0 - 224) * 4096 + (b1 - 128) * 64 + (b2 - 128)) :: utf8_decode r2
        | _ => []
        end
      else
        match r0 with
        | b1 :: b2 :: b3 :: r3 =>
            ((b0 - 240) * 262144 + (b1 - 128) * 4096 + (b2 - 128) * 64 + (b3 - 128))
              :: utf8_decode r3
        | _ => []
        end
  end.

(** [u "text"] is the Python literal ["text"]. *)
Definition u (s : string) : str :=
  utf8_decode (map (fun a => Z.of_N (N_of_ascii a)) (list_ascii_of_string s)).

Fixpoint str_eqb (a b : str) : bool :=
  match a, b with
  | [], [] => true
  | x :: a', y :: b' => (x =? y) && str_eqb a' b'
  | _, _ => false
  end.

(** [c in s] for a one-character [c]. *)
Definition char_in (c : Z) (s : str) : bool := existsb (Z.eqb c) s.

(** [str.isspace] on one code point (CPython's [_PyUnicode_IsWhitespace]). *)
Definition isspace (c : Z) : bool :=
  ((9 <=? c) && (c <=? 13)) || ((28 <=? c) && (c <=? 32))
  || (c =? 133) || (c =? 160) || (c =? 5760)
  || ((8192 <=? c) && (c <=? 8202))
  || (c =? 8232) || (c =? 8233) || (c =? 8239) || (c =? 8287) || (c =? 12288).

Fixpoint lstrip (s : str) : str :=
  match s with
  | c :: s' => if isspace c then lstrip s' else s
  | [] => []
  end.

Definition rstrip (s : str) : str := rev (lstrip (rev s)).

(** [s.strip()] *)
Definition strip (s : str) : str := rstrip (lstrip s).

(** [s.replace(c, by)] for a one-character [c]. *)
Definition replace_char (c : Z) (by_ : str) (s : str) : str :=
  flat_map (fun x => if x =? c then by_ else [x]) s.

(** Decimal digits of a natural number, most significant first; the fuel
    bounds the number of digits. *)
Fixpoint digits_fuel (fuel : nat) (n : Z) (acc : str) : str :=
  match fuel with
  | O => acc
  | S f =>
      let acc' := (48 + n mod 10) :: acc in
      if n <? 10 then acc' else digits_fuel f (n / 10) acc'
  end.

(** [str(n)] for an [int]. *)
Definition str_of_int (n : Z) : str :=
  if n <? 0 then 45 :: digits_fuel (S (Z.to_nat (Z.log2 (- n)))) (- n) []
  else digits_fuel (S (Z.to_nat (Z.log2 n))) n [].

(** Raised exceptions, by class; [ValueError] carries [str(e)]. *)
Inductive exn : Type :=
| ValueError (msg : str)
| OverflowError
| UnicodeEncodeError
| IntegrityError
| OperationalError
| TimeoutExpired
| OtherError (msg : str).

Inductive result (A : Type) : Type :=
| Ok (a : A)
| Raise (e : exn).
Arguments Ok {A} a.
Arguments Raise {A} e.

(** Statements in sequence: the first one that raises ends the block. *)
Notation "x <- e ;; k" :=
  (match e with
   | Ok x => k
   | Raise err => Raise err
   end)
  (at level 61, e at next level, right associativity).

(** Number of bytes of the UTF-8 encoding of a string. *)
Definition utf8_length (s : str) : Z :=
  fold_right (fun c n =>
    (if c <? 128 then 1 else if c <? 2048 then 2 else if c <? 65536 then 3 else 4) + n)
    0 s.

(* ================================================================== *)
(** * datetime.isoformat and the comparison of the stored texts *)

Module IsoFormat.

(** A naive [datetime.datetime]. *)
Record datetime : Type := {
  year : Z; month : Z; day : Z; hour : Z; minute : Z; second : Z;
  microsecond : Z }.

Definition well_formed (t : datetime) : Prop :=
  0 <= year t <= 9999 /\ 0 <= month t <= 99 /\ 0 <= day t <= 99
  /\ 0 <= hour t <= 99 /\ 0 <= minute t <= 99 /\ 0 <= second t <= 99
  /\ 0 <= microsecond t <= 999999.

(** The format [%0wd]: [n] in decimal on [width] digits. *)
Fixpoint pad (width : nat) (n : Z) : str :=
  match width with
  | O => []
  | S w => pad w (n / 10) ++ [48 + n mod 10]
  end.

(** [t.isoformat()]: [YYYY-MM-DDTHH:MM:SS], followed by [.ffffff] when the
    microsecond is not 0. *)
Definition isoformat (t : datetime) : str :=
  pad 4 (year t) ++ [45] ++ pad 2 (month t) ++ [45] ++ pad 2 (day t) ++ [84]
    ++ pad 2 (hour t) ++ [58] ++ pad 2 (minute t) ++ [58] ++ pad 2 (second t)
    ++ (if microsecond t =? 0 then [] else [46] ++ pad 6 (microsecond t)).

(** The comparison of two TEXT values under the BINARY collation. *)
Fixpoint text_compare (a b : str) : comparison :=
  match a, b with
  | [], [] => Eq
  | [], _ :: _ => Lt
  | _ :: _, [] => Gt
  | x :: a', y :: b' =>
      match x ?= y with
      | Eq => text_compare a' b'
      | c => c
      end
  end.

(** The comparison of two instants, field by field. *)
Fixpoint fields_compare (a b : list Z) : comparison :=
  match a, b with
  | x :: a', y :: b' =>
      match x ?= y with
      | Eq => fields_compare a' b'
      | c => c
      end
  | _, _ => Eq
  end.

Definition fields (t : datetime) : list Z :=
  [year t; month t; day t; hour t; minute t; second t; microsecond t].

End IsoFormat.

(* ================================================================== *)
(** * SecurityManager *)

Module SecurityManager.

(** [sanitize_sql_like] *)
Definition sanitize_sql_like (sorgu : str) : str :=
  match sorgu with
  | [] => []
  | _ =>
      let sorgu := replace_char 92 [92; 92] sorgu in
      let sorgu := replace_char 37 [92; 37] sorgu in
      let sorgu := replace_char 95 [92; 95] sorgu in
      [37] ++ sorgu ++ [37]
  end.

(** [dangerous_chars], in the order of the source list. *)
Definition dangerous_chars : list Z :=
  u ";" ++ u "&" ++ u "|" ++ u "`" ++ u "$" ++ u "(" ++ u ")" ++ u "{" ++ u "}"
    ++ u "<" ++ u ">" ++ [10].

(** The [for char in dangerous_chars] loop: the first listed character that
    occurs in [cmd]. *)
Fixpoint first_dangerous (chars : list Z) (cmd : str) : option Z :=
  match chars with
  | [] => None
  | char :: rest =>
      if char_in char cmd then Some char else first_dangerous rest cmd
  end.

(** [sanitize_command] *)
Definition sanitize_command (cmd : str) : result str :=
  match first_dangerous dangerous_chars cmd with
  | Some char =>
      Raise (ValueError (u "Komut içinde izin verilmeyen karakter: " ++ [char]))
  | None => Ok (strip cmd)
  end.

(** [validate_input_length]; [max_input_length] is the configured maximum
    and [max_length] the optional argument ([max_length or ...] takes the
    configured maximum when the argument is [None] or [0]). *)
Definition validate_input_length (max_input_length : Z) (text : str)
    (max_length : option Z) : bool :=
  let max_len :=
    match max_length with
    | Some m => if m =? 0 then max_input_length else m
    | None => max_input_length
    end in
  if Z.of_nat (List.length text) >? max_len then false else true.

End SecurityManager.

(* ================================================================== *)
(** * The storage engine

    The fragment of SQLite, and of the [sqlite3] module in front of it,
    that the statements of [DatabaseManager] use: the binding of integer
    and text parameters, the [LIKE] operator, [WHERE], [ORDER BY ... DESC],
    [LIMIT] and [AUTOINCREMENT]. *)

Module Sqlite.

(** ** Binding of parameters

    A bound Python [int] must fit SQLite's 64-bit INTEGER, and a bound
    [str] is encoded as UTF-8, which has no encoding for the surrogate code
    points U+D800 .. U+DFFF; a parameter that cannot be bound makes the
    statement raise before it runs.  The class of the exception is the one
    given here, with one case that the embedding leaves out: when the first
    parameter of a SELECT cannot be bound and the last statement of the
    connection was a SELECT that failed, CPython 3.11 reports the error of
    that statement again.  No property stated on the embedding fixes the
    class of the exception in that case. *)
Definition in_int64 (z : Z) : bool := (- 2 ^ 63 <=? z) && (z <? 2 ^ 63).

Definition bind_int (z : Z) : result Z :=
  if in_int64 z then Ok z else Raise OverflowError.

Definition surrogate (c : Z) : bool := (55296 <=? c) && (c <=? 57343).

Definition encodable (s : str) : bool := forallb (fun c => negb (surrogate c)) s.

Definition bind_text (s : str) : result str :=
  if encodable s then Ok s else Raise UnicodeEncodeError.

(** ** LIKE *)

Inductive like_tok : Type :=
| AnySeq          (* % *)
| AnyOne          (* _ *)
| Lit (c : Z).

(** Reading of a pattern; [esc] is the character of the ESCAPE clause.  An
    escape character that ends the pattern makes it match nothing. *)
Fixpoint like_tokens (esc : option Z) (pat : str) : option (list like_tok) :=
  match pat with
  | [] => Some []
  | c :: rest =>
      if match esc with Some e => c =? e | None => false end then
        match rest with
        | [] => None
        | x :: rest' => option_map (cons (Lit x)) (like_tokens esc rest')
        end
      else if c =? 37 then option_map (cons AnySeq) (like_tokens esc rest)
      else if c =? 95 then option_map (cons AnyOne) (like_tokens esc rest)
      else option_map (cons (Lit c)) (like_tokens esc rest)
  end.

Definition ascii_tolower (c : Z) : Z :=
  if (65 <=? c) && (c <=? 90) then c + 32 else c.

(** Two characters agree when equal, or when both are ASCII and equal up to
    case: LIKE ignores case for ASCII letters only. *)
Definition like_char_eq (c c2 : Z) : bool :=
  (c =? c2) || ((ascii_tolower c =? ascii_tolower c2) && (c <? 128) && (c2 <? 128)).

Fixpoint tok_match (ts : list like_tok) (s : str) : bool :=
  match ts with
  | [] => match s with [] => true | _ => false end
  | AnySeq :: ts' =>
      (fix skip (s : str) : bool :=
         tok_match ts' s || match s with [] => false | _ :: s' => skip s' end) s
  | AnyOne :: ts' =>
      match s with [] => false | _ :: s' => tok_match ts' s' end
  | Lit c :: ts' =>
      match s with [] => false | c2 :: s' => like_char_eq c c2 && tok_match ts' s' end
  end.

(** The comparison of a text with a pattern, both read to their end. *)
Definition like_match (esc : option Z) (pat s : str) : bool :=
  match like_tokens esc pat with
  | Some ts => tok_match ts s
  | None => false
  end.

(** The engine reads the operands of LIKE as C strings: up to their first
    U+0000. *)
Fixpoint c_string (s : str) : str :=
  match s with
  | [] => []
  | c :: s' => if c =? 0 then [] else c :: c_string s'
  end.

(** SQLITE_MAX_LIKE_PATTERN_LENGTH, in bytes of the whole bound pattern. *)
Definition max_like_pattern_length : Z := 50000.

(** [s LIKE pat] and [s LIKE pat ESCAPE esc], evaluated on one row: a
    pattern longer than the limit is an error (LIKE or GLOB pattern too
    complex). *)
Definition like (esc : option Z) (pat s : str) : result bool :=
  if utf8_length pat >? max_like_pattern_length then Raise OperationalError
  else Ok (like_match esc (c_string pat) (c_string s)).

(** [a OR b]: [b] is evaluated when [a] is false. *)
Definition or_else (a b : result bool) : result bool :=
  match a with
  | Ok false => b
  | _ => a
  end.

(** ** WHERE

    The rows for which the condition holds; the condition is evaluated
    row by row, and an error on a row ends the statement. *)
Fixpoint where_ {A : Type} (cond : A -> result bool) (rows : list A) : result (list A) :=
  match rows with
  | [] => Ok []
  | r :: rows' =>
      b <- cond r ;;
      selected <- where_ cond rows' ;;
      Ok (if b then r :: selected else selected)
  end.

(** ** ORDER BY

    [precedes a b] says that row [a] sorts strictly before row [b].  Rows
    that tie keep their scan order. *)
Fixpoint insert_by {A : Type} (precedes : A -> A -> bool) (x : A) (l : list A) : list A :=
  match l with
  | [] => [x]
  | y :: l' => if precedes y x then y :: insert_by precedes x l' else x :: l
  end.

Definition order_by {A : Type} (precedes : A -> A -> bool) (rows : list A) : list A :=
  fold_right (insert_by precedes) [] rows.

(** ORDER BY k DESC *)
Definition desc {A : Type} (k : A -> Z) (a b : A) : bool := k b <? k a.

(** ORDER BY k1 DESC, k2 DESC *)
Definition desc2 {A : Type} (k1 k2 : A -> Z) (a b : A) : bool :=
  (k1 b <? k1 a) || ((k1 b =? k1 a) && (k2 b <? k2 a)).

(** LIMIT n: a negative [n] puts no bound on the number of rows. *)
Definition limit {A : Type} (n : Z) (rows : list A) : list A :=
  if n <? 0 then rows else firstn (Z.to_nat n) rows.

(** AUTOINCREMENT: one more than the largest rowid the table ever held,
    which [sqlite_sequence] records. *)
Definition next_rowid (seq : Z) (rowids : list Z) : Z :=
  Z.max seq (fold_right Z.max 0 rowids) + 1.

End Sqlite.

(* ================================================================== *)
(** * json.dumps on a list of strings (default [ensure_ascii=True]) *)

Module Json.

Definition hex_digit (n : Z) : Z := if n <? 10 then 48 + n else 87 + n.

Definition hex4 (n : Z) : str :=
  [hex_digit (n / 4096 mod 16); hex_digit (n / 256 mod 16);
   hex_digit (n / 16 mod 16); hex_digit (n mod 16)].

Definition escape_char (c : Z) : str :=
  if c =? 92 then [92; 92]
  else if c =? 34 then [92; 34]
  else if c =? 8 then [92; 98]
  else if c =? 12 then [92; 102]
  else if c =? 10 then [92; 110]
  else if c =? 13 then [92; 114]
  else if c =? 9 then [92; 116]
  else if (32 <=? c) && (c <=? 126) then [c]
  else if c <? 65536 then [92; 117] ++ hex4 c
  else
    let n := c - 65536 in
    [92; 117] ++ hex4 (Z.lor 55296 (Z.land (Z.shiftr n 10) 1023))
      ++ [92; 117] ++ hex4 (Z.lor 56320 (Z.land n 1023)).

Definition dumps_str (s : str) : str := [34] ++ flat_map escape_char s ++ [34].

Fixpoint join (sep : str) (l : list str) : str :=
  match l with
  | [] => []
  | [x] => x
  | x :: l' => x ++ sep ++ join sep l'
  end.

Definition dumps_list (l : list str) : str :=
  [91] ++ join (u ", ") (map dumps_str l) ++ [93].

End Json.

(* ================================================================== *)
(** * DatabaseManager *)

Module DatabaseManager.

(** ** The tables of [_init_database] *)

Record kisa_row : Type := {
  k_id : str; k_icerik : str; k_metadata : str; k_erisim_sayisi : Z;
  k_son_erisim : timestamp; k_olusturma : timestamp; k_bitis : timestamp }.

Record uzun_row : Type := {
  u_id : str; u_icerik : str; u_metadata : str; u_etiketler : str; u_onem : Z;
  u_erisim_sayisi : Z; u_son_erisim : timestamp; u_olusturma : timestamp }.

Record beyani_row : Type := {
  b_id : str; b_icerik : str; b_metadata : str; b_kategori : str;
  b_olusturma : timestamp }.

Record episodik_row : Type := {
  e_id : str; e_olay : str; e_metadata : str; e_duygu : str; e_baglam : str;
  e_zaman : timestamp }.

Record oturum_row : Type := {
  o_id : str; o_isim : str; o_proje_yolu : str; o_olusturma : timestamp;
  o_mod : str }.

Record mesaj_row : Type := {
  m_id : Z; m_oturum_id : str; m_rol : str; m_icerik : str; m_zaman : timestamp }.

Record gorev_row : Type := {
  g_id : Z; g_baslik : str; g_aciklama : str; g_oncelik : str; g_durum : str;
  g_olusturma : timestamp; g_tamamlanma : option timestamp }.

Record ogrenilen_row : Type := {
  l_id : Z; l_soru : str; l_yanit : str; l_olusturma : timestamp }.

(** The database file: the eight tables and the [sqlite_sequence] entries of
    the three AUTOINCREMENT tables. *)
Record db : Type := {
  kisa_sureli : list kisa_row;
  uzun_sureli : list uzun_row;
  beyani : list beyani_row;
  episodik : list episodik_row;
  oturumlar : list oturum_row;
  mesajlar : list mesaj_row;
  gorevler : list gorev_row;
  ogrenilen : list ogrenilen_row;
  seq_mesajlar : Z;
  seq_gorevler : Z;
  seq_ogrenilen : Z }.

Definition empty_db : db :=
  {| kisa_sureli := []; uzun_sureli := []; beyani := []; episodik := [];
     oturumlar := []; mesajlar := []; gorevler := []; ogrenilen := [];
     seq_mesajlar := 0; seq_gorevler := 0; seq_ogrenilen := 0 |}.

Definition set_kisa_sureli (l : list kisa_row) (d : db) : db :=
  {| kisa_sureli := l; uzun_sureli := uzun_sureli d; beyani := beyani d;
     episodik := episodik d; oturumlar := oturumlar d; mesajlar := mesajlar d;
     gorevler := gorevler d; ogrenilen := ogrenilen d;
     seq_mesajlar := seq_mesajlar d; seq_gorevler := seq_gorevler d;
     seq_ogrenilen := seq_ogrenilen d |}.

Definition set_uzun_sureli (l : list uzun_row) (d : db) : db :=
  {| kisa_sureli := kisa_sureli d; uzun_sureli := l; beyani := beyani d;
     episodik := episodik d; oturumlar := oturumlar d; mesajlar := mesajlar d;
     gorevler := gorevler d; ogrenilen := ogrenilen d;
     seq_mesajlar := seq_mesajlar d; seq_gorevler := seq_gorevler d;
     seq_ogrenilen := seq_ogrenilen d |}.

Definition set_oturumlar (l : list oturum_row) (d : db) : db :=
  {| kisa_sureli := kisa_sureli d; uzun_sureli := uzun_sureli d; beyani := beyani d;
     episodik := episodik d; oturumlar := l; mesajlar := mesajlar d;
     gorevler := gorevler d; ogrenilen := ogrenilen d;
     seq_mesajlar := seq_mesajlar d; seq_gorevler := seq_gorevler d;
     seq_ogrenilen := seq_ogrenilen d |}.

Definition set_mesajlar (l : list mesaj_row) (seq : Z) (d : db) : db :=
  {| kisa_sureli := kisa_sureli d; uzun_sureli := uzun_sureli d; beyani := beyani d;
     episodik := episodik d; oturumlar := oturumlar d; mesajlar := l;
     gorevler := gorevler d; ogrenilen := ogrenilen d;
     seq_mesajlar := seq; seq_gorevler := seq_gorevler d;
     seq_ogrenilen := seq_ogrenilen d |}.

Definition set_gorevler (l : list gorev_row) (seq : Z) (d : db) : db :=
  {| kisa_sureli := kisa_sureli d; uzun_sureli := uzun_sureli d; beyani := beyani d;
     episodik := episodik d; oturumlar := oturumlar d; mesajlar := mesajlar d;
     gorevler := l; ogrenilen := ogrenilen d;
     seq_mesajlar := seq_mesajlar d; seq_gorevler := seq;
     seq_ogrenilen := seq_ogrenilen d |}.

Definition set_ogrenilen (l : list ogrenilen_row) (seq : Z) (d : db) : db :=
  {| kisa_sureli := kisa_sureli d; uzun_sureli := uzun_sureli d; beyani := beyani d;
     episodik := episodik d; oturumlar := oturumlar d; mesajlar := mesajlar d;
     gorevler := gorevler d; ogrenilen := l;
     seq_mesajlar := seq_mesajlar d; seq_gorevler := seq_gorevler d;
     seq_ogrenilen := seq |}.

(** ** Connection and unit of work *)

(** The per-connection settings the statements depend on. *)
Record connection : Type := { foreign_keys : bool }.

(** [_get_connection]: [sqlite3.connect] and the row factory.  No PRAGMA is
    issued, so foreign-key enforcement stays at the engine's default, off. *)
Definition _get_connection : connection := {| foreign_keys := false |}.

(** [get_cursor]: under the lock, run the body on the connection, commit
    when it returns, roll back and re-raise when it raises.  [fault] is the
    storage failure, if any, that this unit of work meets. *)
Definition get_cursor {A : Type} (fault : option exn)
    (body : connection -> db -> result (A * db)) (d : db) : result A * db :=
  match fault with
  | Some e => (Raise e, d)
  | None =>
      let conn := _get_connection in
      match body conn d with
      | Ok (a, d') => (Ok a, d')
      | Raise e => (Raise e, d)
      end
  end.

(** ** Short-term memory *)

Definition hours (n : Z) : Z := n * 3600 * 1000000.

(** [kisa_ekle]; [now1] and [now2] are the two readings of
    [datetime.datetime.now()], in program order, and [meta_json] is
    [json.dumps(meta or {})]. *)
Definition kisa_ekle (uuid4 : str) (now1 now2 : timestamp) (fault : option exn)
    (icerik meta_json : str) (d : db) : result str * db :=
  let id := uuid4 in
  let now := now1 in
  let expires := now2 + hours 24 in
  match
    get_cursor fault (fun cur d =>
      id <- Sqlite.bind_text id ;;
      icerik <- Sqlite.bind_text icerik ;;
      meta_json <- Sqlite.bind_text meta_json ;;
      if existsb (fun r => str_eqb (k_id r) id) (kisa_sureli d)
      then Raise IntegrityError
      else Ok (tt, set_kisa_sureli
                     (kisa_sureli d ++
                        [{| k_id := id; k_icerik := icerik; k_metadata := meta_json;
                            k_erisim_sayisi := 0; k_son_erisim := now;
                            k_olusturma := now; k_bitis := expires |}]) d)) d
  with
  | (Ok _, d') => (Ok id, d')
  | (Raise e, d') => (Raise e, d')
  end.

(** [kisa_getir] *)
Definition kisa_getir (now : timestamp) (fault : option exn) (limit : Z) (d : db)
    : result (list kisa_row) * db :=
  get_cursor fault (fun cur d =>
    match Sqlite.bind_int limit with
    | Raise e => Raise e
    | Ok limit =>
        Ok (Sqlite.limit limit
              (Sqlite.order_by (Sqlite.desc k_olusturma)
                 (filter (fun r => now <? k_bitis r) (kisa_sureli d))), d)
    end) d.

(** [kisa_temizle] *)
Definition kisa_temizle (now : timestamp) (fault : option exn) (d : db)
    : result Z * db :=
  get_cursor fault (fun cur d =>
    let rowcount :=
      Z.of_nat (List.length (filter (fun r => k_bitis r <? now) (kisa_sureli d))) in
    Ok (rowcount,
        set_kisa_sureli (filter (fun r => negb (k_bitis r <? now)) (kisa_sureli d)) d)) d.

(** ** Long-term memory *)

(** [uzun_ekle]; [meta_json] is [json.dumps(meta or {})]. *)
Definition uzun_ekle (uuid4 : str) (now : timestamp) (fault : option exn)
    (icerik : str) (etiketler : list str) (onem : Z) (meta_json : str) (d : db)
    : result str * db :=
  if negb ((1 <=? onem) && (onem <=? 10)) then
    (Raise (ValueError (u "Önem 1-10 arası olmalı")), d)
  else
    let id := uuid4 in
    match
      get_cursor fault (fun cur d =>
        id <- Sqlite.bind_text id ;;
        icerik <- Sqlite.bind_text icerik ;;
        meta_json <- Sqlite.bind_text meta_json ;;
        etiketler_json <- Sqlite.bind_text (Json.dumps_list etiketler) ;;
        onem <- Sqlite.bind_int onem ;;
        if existsb (fun r => str_eqb (u_id r) id) (uzun_sureli d)
        then Raise IntegrityError
        else if negb ((1 <=? onem) && (onem <=? 10)) then Raise IntegrityError
        else Ok (tt, set_uzun_sureli
                       (uzun_sureli d ++
                          [{| u_id := id; u_icerik := icerik; u_metadata := meta_json;
                              u_etiketler := etiketler_json; u_onem := onem;
                              u_erisim_sayisi := 0; u_son_erisim := now;
                              u_olusturma := now |}]) d)) d
    with
    | (Ok _, d') => (Ok id, d')
    | (Raise e, d') => (Raise e, d')
    end.

(** [uzun_ara] *)
Definition uzun_ara (fault : option exn) (sorgu : str) (d : db)
    : result (list uzun_row) * db :=
  let safe_query := SecurityManager.sanitize_sql_like sorgu in
  get_cursor fault (fun cur d =>
    pattern1 <- Sqlite.bind_text safe_query ;;
    pattern2 <- Sqlite.bind_text safe_query ;;
    rows <- Sqlite.where_
              (fun r => Sqlite.or_else (Sqlite.like (Some 92) pattern1 (u_icerik r))
                                       (Sqlite.like (Some 92) pattern2 (u_etiketler r)))
              (uzun_sureli d) ;;
    Ok (Sqlite.limit 50 (Sqlite.order_by (Sqlite.desc2 u_onem u_olusturma) rows), d)) d.

(** The statement [uzun_getir] executes for one tag; the pattern is
    ['%"tag"%'].  With [LIMIT 0] the engine returns before it reads a
    row. *)
Definition uzun_getir_tag (tag : str) (limit : Z) (d : db) : result (list uzun_row) :=
  pattern <- Sqlite.bind_text ([37; 34] ++ tag ++ [34; 37]) ;;
  limit <- Sqlite.bind_int limit ;;
  if limit =? 0 then Ok []
  else
    rows <- Sqlite.where_ (fun r => Sqlite.like None pattern (u_etiketler r))
              (uzun_sureli d) ;;
    Ok (Sqlite.limit limit (Sqlite.order_by (Sqlite.desc u_onem) rows)).

(** The [for tag in etiketler] loop: the rows of each tag in turn. *)
Fixpoint uzun_getir_tags (etiketler : list str) (limit : Z) (d : db)
    : result (list uzun_row) :=
  match etiketler with
  | [] => Ok []
  | tag :: rest =>
      rows <- uzun_getir_tag tag limit d ;;
      more <- uzun_getir_tags rest limit d ;;
      Ok (rows ++ more)
  end.

(** [uzun_getir]: the rows the generator yields until it is exhausted, in
    the order it yields them; the exception, when the generator raises
    before that. *)
Definition uzun_getir (fault : option exn) (etiketler : list str) (limit : Z) (d : db)
    : result (list uzun_row) * db :=
  get_cursor fault (fun cur d =>
    match etiketler with
    | _ :: _ =>
        rows <- uzun_getir_tags etiketler limit d ;;
        Ok (rows, d)
    | [] =>
        match Sqlite.bind_int limit with
        | Raise e => Raise e
        | Ok limit =>
            Ok (Sqlite.limit limit
                  (Sqlite.order_by (Sqlite.desc2 u_onem u_olusturma) (uzun_sureli d)), d)
        end
    end) d.

(** ** Sessions and messages *)

(** [x or default] for an optional string argument. *)
Definition or_default (x : option str) (default : str) : str :=
  match x with
  | Some (c :: s) => c :: s
  | _ => default
  end.

(** [oturum_olustur]; [cwd] is [os.getcwd()].  Returns the [id] and [isim]
    entries of the dictionary. *)
Definition oturum_olustur (uuid4 : str) (now : timestamp) (cwd : str)
    (fault : option exn) (isim proje : option str) (d : db)
    : result (str * str) * db :=
  let id := firstn 8 uuid4 in
  let isim := or_default isim (u "oturum-" ++ id) in
  let proje := or_default proje cwd in
  match
    get_cursor fault (fun cur d =>
      id <- Sqlite.bind_text id ;;
      isim <- Sqlite.bind_text isim ;;
      proje <- Sqlite.bind_text proje ;;
      if existsb (fun r => str_eqb (o_id r) id) (oturumlar d)
      then Raise IntegrityError
      else Ok (tt, set_oturumlar
                     (oturumlar d ++
                        [{| o_id := id; o_isim := isim; o_proje_yolu := proje;
                            o_olusturma := now; o_mod := u "build" |}]) d)) d
  with
  | (Ok _, d') => (Ok (id, isim), d')
  | (Raise e, d') => (Raise e, d')
  end.

(** [oturum_getir] *)
Definition oturum_getir (fault : option exn) (id : str) (d : db)
    : result (option oturum_row) * db :=
  get_cursor fault (fun cur d =>
    id <- Sqlite.bind_text id ;;
    Ok (find (fun r => str_eqb (o_id r) id) (oturumlar d), d)) d.

Definition rol_check (rol : str) : bool :=
  existsb (str_eqb rol) [u "user"; u "assistant"; u "system"].

(** INSERT INTO mesajlar: the CHECK on [rol], and the FOREIGN KEY on
    [oturum_id] when the connection enforces foreign keys. *)
Definition insert_mesaj (conn : connection) (oid rol icerik : str) (now : timestamp)
    (d : db) : result (unit * db) :=
  if negb (rol_check rol) then Raise IntegrityError
  else if foreign_keys conn
          && negb (existsb (fun r => str_eqb (o_id r) oid) (oturumlar d))
  then Raise IntegrityError
  else
    let id := Sqlite.next_rowid (seq_mesajlar d) (map m_id (mesajlar d)) in
    Ok (tt, set_mesajlar
              (mesajlar d ++
                 [{| m_id := id; m_oturum_id := oid; m_rol := rol;
                     m_icerik := icerik; m_zaman := now |}]) id d).

(** [oturum_mesaj_ekle] *)
Definition oturum_mesaj_ekle (now : timestamp) (fault : option exn)
    (oid rol icerik : str) (d : db) : result unit * db :=
  if negb (existsb (str_eqb rol) [u "user"; u "assistant"; u "system"]) then
    (Raise (ValueError (u "Rol user/assistant/system olmalı")), d)
  else
    get_cursor fault (fun cur d =>
      oid <- Sqlite.bind_text oid ;;
      rol <- Sqlite.bind_text rol ;;
      icerik <- Sqlite.bind_text icerik ;;
      insert_mesaj cur oid rol icerik now d) d.

(** [oturum_mesajlari] *)
Definition oturum_mesajlari (fault : option exn) (oid : str) (limit : Z) (d : db)
    : result (list mesaj_row) * db :=
  get_cursor fault (fun cur d =>
    oid <- Sqlite.bind_text oid ;;
    match Sqlite.bind_int limit with
    | Raise e => Raise e
    | Ok limit =>
        Ok (Sqlite.limit limit
              (Sqlite.order_by (Sqlite.desc m_zaman)
                 (filter (fun r => str_eqb (m_oturum_id r) oid) (mesajlar d))), d)
    end) d.


(** ** Tasks *)

Definition oncelik_check (oncelik : str) : bool :=
  existsb (str_eqb oncelik) [u "düşük"; u "orta"; u "yüksek"; u "acil"].

(** [gorev_ekle]; returns [cur.lastrowid]. *)
Definition gorev_ekle (now : timestamp) (fault : option exn)
    (baslik aciklama oncelik : str) (d : db) : result Z * db :=
  get_cursor fault (fun cur d =>
    baslik <- Sqlite.bind_text baslik ;;
    aciklama <- Sqlite.bind_text aciklama ;;
    oncelik <- Sqlite.bind_text oncelik ;;
    if negb (oncelik_check oncelik) then Raise IntegrityError
    else
      let id := Sqlite.next_rowid (seq_gorevler d) (map g_id (gorevler d)) in
      Ok (id, set_gorevler
                (gorevler d ++
                   [{| g_id := id; g_baslik := baslik; g_aciklama := aciklama;
                       g_oncelik := oncelik; g_durum := u "bekliyor";
                       g_olusturma := now; g_tamamlanma := None |}]) id d)) d.

(** [gorev_listele] *)
Definition gorev_listele (fault : option exn) (durum : option str) (d : db)
    : result (list gorev_row) * db :=
  get_cursor fault (fun cur d =>
    match durum with
    | Some (c :: s) =>
        durum <- Sqlite.bind_text (c :: s) ;;
        Ok (Sqlite.order_by (Sqlite.desc g_olusturma)
              (filter (fun r => str_eqb (g_durum r) durum) (gorevler d)), d)
    | _ => Ok (Sqlite.order_by (Sqlite.desc g_olusturma) (gorevler d), d)
    end) d.

Definition tamamla (now : timestamp) (r : gorev_row) : gorev_row :=
  {| g_id := g_id r; g_baslik := g_baslik r; g_aciklama := g_aciklama r;
     g_oncelik := g_oncelik r; g_durum := u "tamamlandi";
     g_olusturma := g_olusturma r; g_tamamlanma := Some now |}.

(** [gorev_tamamla] *)
Definition gorev_tamamla (now : timestamp) (fault : option exn) (id : Z) (d : db)
    : result unit * db :=
  get_cursor fault (fun cur d =>
    match Sqlite.bind_int id with
    | Raise e => Raise e
    | Ok id =>
        Ok (tt, set_gorevler
                  (map (fun r => if g_id r =? id then tamamla now r else r) (gorevler d))
                  (seq_gorevler d) d)
    end) d.

(** [gorev_sil] *)
Definition gorev_sil (fault : option exn) (id : Z) (d : db) : result unit * db :=
  get_cursor fault (fun cur d =>
    match Sqlite.bind_int id with
    | Raise e => Raise e
    | Ok id =>
        Ok (tt, set_gorevler (filter (fun r => negb (g_id r =? id)) (gorevler d))
                  (seq_gorevler d) d)
    end) d.

(** ** Learned answers *)

Section Ogren.

(** [str.lower]: the Unicode lower-casing of a string. *)
Variable lower : str -> str.

(** The key under which a question is stored: [soru.lower().strip()]. *)
Definition normalize (soru : str) : str := strip (lower soru).

(** INSERT OR REPLACE INTO ogrenilen: the row that holds the same [soru],
    if any, is deleted and the new row is appended under a fresh rowid. *)
Definition insert_or_replace_ogrenilen (soru yanit : str) (now : timestamp) (d : db)
    : db :=
  let id := Sqlite.next_rowid (seq_ogrenilen d) (map l_id (ogrenilen d)) in
  set_ogrenilen
    (filter (fun r => negb (str_eqb (l_soru r) soru)) (ogrenilen d) ++
       [{| l_id := id; l_soru := soru; l_yanit := yanit; l_olusturma := now |}])
    id d.

(** [ogren] *)
Definition ogren (now : timestamp) (fault : option exn) (soru yanit : str) (d : db)
    : bool * db :=
  match
    get_cursor fault (fun cur d =>
      soru <- Sqlite.bind_text (normalize soru) ;;
      yanit <- Sqlite.bind_text yanit ;;
      Ok (tt, insert_or_replace_ogrenilen soru yanit now d)) d
  with
  | (Ok _, d') => (true, d')
  | (Raise e, d') => (false, d')
  end.

End Ogren.

(** ** Statistics *)

Record istatistik_t : Type := {
  s_kisa : Z; s_uzun : Z; s_beyani : Z; s_episodik : Z; s_oturum : Z;
  s_gorev : Z; s_gorev_bekliyor : Z; s_ogrenilen : Z }.

Definition count {A : Type} (l : list A) : Z := Z.of_nat (List.length l).

(** [istatistik] *)
Definition istatistik (fault : option exn) (d : db) : result istatistik_t * db :=
  get_cursor fault (fun cur d =>
    Ok ({| s_kisa := count (kisa_sureli d);
           s_uzun := count (uzun_sureli d);
           s_beyani := count (beyani d);
           s_episodik := count (episodik d);
           s_oturum := count (oturumlar d);
           s_gorev := count (gorevler d);
           s_gorev_bekliyor :=
             count (filter (fun r => str_eqb (g_durum r) (u "bekliyor")) (gorevler d));
           s_ogrenilen := count (ogrenilen d) |}, d)) d.

(** ** Statements and episodes *)

(** [beyani_ekle]; [meta_json] is [json.dumps(meta or {})]. *)
Definition beyani_ekle (uuid4 : str) (now : timestamp) (fault : option exn)
    (icerik kategori meta_json : str) (d : db) : result str * db :=
  let id := uuid4 in
  match
    get_cursor fault (fun cur d =>
      id <- Sqlite.bind_text id ;;
      icerik <- Sqlite.bind_text icerik ;;
      meta_json <- Sqlite.bind_text meta_json ;;
      kategori <- Sqlite.bind_text kategori ;;
      if existsb (fun r => str_eqb (b_id r) id) (beyani d)
      then Raise IntegrityError
      else Ok (tt, {| kisa_sureli := kisa_sureli d; uzun_sureli := uzun_sureli d;
                      beyani := beyani d ++
                        [{| b_id := id; b_icerik := icerik; b_metadata := meta_json;
                            b_kategori := kategori; b_olusturma := now |}];
                      episodik := episodik d; oturumlar := oturumlar d;
                      mesajlar := mesajlar d; gorevler := gorevler d;
                      ogrenilen := ogrenilen d; seq_mesajlar := seq_mesajlar d;
                      seq_gorevler := seq_gorevler d;
                      seq_ogrenilen := seq_ogrenilen d |})) d
  with
  | (Ok _, d') => (Ok id, d')
  | (Raise e, d') => (Raise e, d')
  end.

(** [beyani_getir] *)
Definition beyani_getir (fault : option exn) (kategori : option str) (d : db)
    : result (list beyani_row) * db :=
  get_cursor fault (fun cur d =>
    match kategori with
    | Some (c :: s) =>
        kategori <- Sqlite.bind_text (c :: s) ;;
        Ok (Sqlite.order_by (Sqlite.desc b_olusturma)
              (filter (fun r => str_eqb (b_kategori r) kategori) (beyani d)), d)
    | _ => Ok (Sqlite.order_by (Sqlite.desc b_olusturma) (beyani d), d)
    end) d.

(** [episodik_ekle]; [baglam_json] is [json.dumps(baglam or {})] and
    [meta_json] is [json.dumps(meta or {})]. *)
Definition episodik_ekle (uuid4 : str) (now : timestamp) (fault : option exn)
    (olay duygu baglam_json meta_json : str) (d : db) : result str * db :=
  let id := uuid4 in
  match
    get_cursor fault (fun cur d =>
      id <- Sqlite.bind_text id ;;
      olay <- Sqlite.bind_text olay ;;
      meta_json <- Sqlite.bind_text meta_json ;;
      duygu <- Sqlite.bind_text duygu ;;
      baglam_json <- Sqlite.bind_text baglam_json ;;
      if existsb (fun r => str_eqb (e_id r) id) (episodik d)
      then Raise IntegrityError
      else Ok (tt, {| kisa_sureli := kisa_sureli d; uzun_sureli := uzun_sureli d;
                      beyani := beyani d;
                      episodik := episodik d ++
                        [{| e_id := id; e_olay := olay; e_metadata := meta_json;
                            e_duygu := duygu; e_baglam := baglam_json;
                            e_zaman := now |}];
                      oturumlar := oturumlar d;
                      mesajlar := mesajlar d; gorevler := gorevler d;
                      ogrenilen := ogrenilen d; seq_mesajlar := seq_mesajlar d;
                      seq_gorevler := seq_gorevler d;
                      seq_ogrenilen := seq_ogrenilen d |})) d
  with
  | (Ok _, d') => (Ok id, d')
  | (Raise e, d') => (Raise e, d')
  end.

(** [episodik_getir] *)
Definition episodik_getir (fault : option exn) (limit : Z) (d : db)
    : result (list episodik_row) * db :=
  get_cursor fault (fun cur d =>
    match Sqlite.bind_int limit with
    | Raise e => Raise e
    | Ok limit =>
        Ok (Sqlite.limit limit (Sqlite.order_by (Sqlite.desc e_zaman) (episodik d)), d)
    end) d.

(** [oturum_listele] *)
Definition oturum_listele (fault : option exn) (d : db)
    : result (list oturum_row) * db :=
  get_cursor fault (fun cur d =>
    Ok (Sqlite.order_by (Sqlite.desc o_olusturma) (oturumlar d), d)) d.

(** ** Looking up learned answers *)

Section OgrenilenAra.

Variable lower : str -> str.

(** [ogrenilen_ara]: the pattern is ['%' + sorgu.lower() + '%'], not
    escaped, and the statement has no ESCAPE clause. *)
Definition ogrenilen_ara (fault : option exn) (sorgu : str) (d : db)
    : result (list ogrenilen_row) * db :=
  get_cursor fault (fun cur d =>
    pattern <- Sqlite.bind_text ([37] ++ lower sorgu ++ [37]) ;;
    rows <- Sqlite.where_ (fun r => Sqlite.like None pattern (l_soru r)) (ogrenilen d) ;;
    Ok (Sqlite.limit 5 (Sqlite.order_by (Sqlite.desc l_olusturma) rows), d)) d.

End OgrenilenAra.

(** [ogrenilen_listele] *)
Definition ogrenilen_listele (fault : option exn) (limit : Z) (d : db)
    : result (list ogrenilen_row) * db :=
  get_cursor fault (fun cur d =>
    match Sqlite.bind_int limit with
    | Raise e => Raise e
    | Ok limit =>
        Ok (Sqlite.limit limit
              (Sqlite.order_by (Sqlite.desc l_olusturma) (ogrenilen d)), d)
    end) d.

End DatabaseManager.

(* ================================================================== *)
(** * CommandManager *)

Module CommandManager.

(** What [subprocess.run] returns with [capture_output=True, text=True]. *)
Record CompletedProcess : Type := {
  returncode : Z; stdout : str; stderr : str }.

(** [x.strip() if x else ""] *)
Definition strip_or_empty (x : str) : str :=
  match x with
  | [] => []
  | _ => strip x
  end.

Section Commands.

(** [str(e)] for an exception raised by the runtime. *)
Variable exception_text : exn -> str.

(** The three [except] clauses of [powershell], in order. *)
Definition powershell_except (ps_timeout : Z) (e : exn) : str :=
  match e with
  | TimeoutExpired => u "Hata: Zaman aşımı (" ++ str_of_int ps_timeout ++ u "s)"
  | ValueError msg => u "Güvenlik hatası: " ++ msg
  | _ => u "Hata: " ++ exception_text e
  end.

(** [powershell]; [run argv] is the outcome of [subprocess.run] on the
    argument vector under the timeout [ps_timeout]. *)
Definition powershell (ps_timeout : Z) (run : list str -> result CompletedProcess)
    (cmd : str) : str :=
  match SecurityManager.sanitize_command cmd with
  | Raise e => powershell_except ps_timeout e
  | Ok cmd =>
      match run [u "powershell"; u "-Command"; cmd] with
      | Raise e => powershell_except ps_timeout e
      | Ok result =>
          let output := strip_or_empty (stdout result) in
          let error := strip_or_empty (stderr result) in
          if negb (returncode result =? 0) then
            u "Hata (kod " ++ str_of_int (returncode result) ++ u "): "
              ++ firstn 200 error
          else firstn 2000 output
      end
  end.

(** The three [except] clauses of [opencode], in order. *)
Definition opencode_except (opencode_timeout : Z) (e : exn) : str :=
  match e with
  | TimeoutExpired =>
      u "Hata: OpenCode zaman aşımı (" ++ str_of_int opencode_timeout ++ u "s)"
  | ValueError msg => u "Güvenlik hatası: " ++ msg
  | _ => u "OpenCode hatası: " ++ exception_text e
  end.

(** [opencode]; [mkdir] is the outcome of [data_dir.mkdir], [path_valid]
    the answer of [validate_path("oc_cmd_safe.txt", data_dir)], and
    [run argv input] the outcome of [subprocess.run]. *)
Definition opencode (opencode_cli_path : str) (opencode_timeout : Z)
    (mkdir : result unit) (path_valid : bool)
    (run : list str -> str -> result CompletedProcess) (komut : str) : str :=
  match SecurityManager.sanitize_command komut with
  | Raise e => opencode_except opencode_timeout e
  | Ok cmd_clean =>
      match mkdir with
      | Raise e => opencode_except opencode_timeout e
      | Ok _ =>
          if negb path_valid then u "Hata: Geçersiz dosya yolu"
          else
            match run [opencode_cli_path; u "--yes"] (cmd_clean ++ [10]) with
            | Raise e => opencode_except opencode_timeout e
            | Ok result =>
                let output := stdout result ++ stderr result in
                match output with
                | [] => u "Sonuç yok"
                | _ => firstn 1500 output
                end
            end
      end
  end.

End Commands.

End CommandManager.

(* ================================================================== *)
(** * AIManager *)

Module AIManager.

(** A value [json.loads] returns. *)
#[warnings="-register-all"]
Inductive json : Type :=
| JNull
| JBool (b : bool)
| JInt (n : Z)
| JFloat (literal : str)
| JString (s : str)
| JArray (items : list json)
| JObject (entries : list (str * json)).

(** The fields of [Config] the manager reads. *)
Record Config : Type := {
  ai_provider : str; ai_model : str; ai_api_url : str; ai_timeout : Z;
  openai_api_key : str }.

(** One entry of the [messages] list of a request. *)
Record message : Type := { role : str; content : str }.

(** One entry of [context]: what [msg.get("rol")] and [msg.get("icerik")]
    find in the dictionary. *)
Record turn : Type := { rol : option str; icerik : option str }.

(** The request handed to [urllib.request.urlopen]: the endpoint, the
    Authorization header, the timeout and, of the JSON body, the model and
    the messages (the other entries of the body are constants). *)
Record http_request : Type := {
  url : str; authorization : option str; model : str;
  messages : list message; timeout : Z }.

(** The outcome of the [with urllib.request.urlopen(...)] block up to
    [json.loads]: the decoded response, or the exception raised. *)
Inductive http_outcome : Type :=
| Response (sonuc : json)
| UrlError (text : str)        (* URLError that is not an HTTPError, and its str *)
| HttpError (code : Z)
| JsonDecodeError
| Failure (e : exn).

(** [d.get(key)] on the entries of a dictionary. *)
Fixpoint dict_get (key : str) (entries : list (str * json)) : option json :=
  match entries with
  | [] => None
  | (k, v) :: rest => if str_eqb k key then Some v else dict_get key rest
  end.

(** [l[-n:]] *)
Definition last_n {A : Type} (n : nat) (l : list A) : list A :=
  skipn (List.length l - n) l.

Definition get_or (x : option str) (default : str) : str :=
  match x with
  | Some s => s
  | None => default
  end.

(** The [messages] list, built by the same statements in [_ollama_sorgula]
    and in [_openai_sorgula]. *)
Definition build_messages (prompt : str) (system_prompt : option str)
    (context : list turn) : list message :=
  (match system_prompt with
   | Some (c :: s) => [{| role := u "system"; content := c :: s |}]
   | _ => []
   end)
  ++ map (fun msg => {| role := get_or (rol msg) (u "user");
                        content := get_or (icerik msg) [] |})
         (last_n 10 context)
  ++ [{| role := u "user"; content := prompt |}].

Section Providers.

(** [str(e)] for an exception raised by the runtime. *)
Variable exception_text : exn -> str.

(** The text of the exception the interpreter raises when a value of the
    response is asked for a key or an index it does not have. *)
Variable lookup_error_text : json -> str.

(** [urllib.request.urlopen] followed by [json.loads]. *)
Variable post : http_request -> http_outcome.

(** [sonuc.get('message', {}).get('content', 'Yanıt yok')] *)
Definition ollama_content (sonuc : json) : result json :=
  match sonuc with
  | JObject entries =>
      match dict_get (u "message") entries with
      | None => Ok (JString (u "Yanıt yok"))
      | Some (JObject inner) =>
          match dict_get (u "content") inner with
          | Some v => Ok v
          | None => Ok (JString (u "Yanıt yok"))
          end
      | Some other => Raise (OtherError (lookup_error_text other))
      end
  | other => Raise (OtherError (lookup_error_text other))
  end.

(** [_ollama_sorgula] *)
Definition _ollama_sorgula (config : Config) (prompt : str)
    (system_prompt : option str) (context : list turn) : result json :=
  let messages := build_messages prompt system_prompt context in
  match post {| url := ai_api_url config; authorization := None;
                model := ai_model config; messages := messages;
                timeout := ai_timeout config |} with
  | Response sonuc => ollama_content sonuc
  | UrlError _ | HttpError _ =>
      Ok (JString (u "Ollama çalışmıyor. 'ollama serve' komutuyla başlatabilirsiniz."))
  | JsonDecodeError => Ok (JString (u "AI yanıtı işlenemedi (geçersiz JSON)"))
  | Failure e => Raise e
  end.

(** [v[key]] for a string key and [v[0]]. *)
Definition index_key (key : str) (v : json) : result json :=
  match v with
  | JObject entries =>
      match dict_get key entries with
      | Some x => Ok x
      | None => Raise (OtherError (lookup_error_text v))
      end
  | _ => Raise (OtherError (lookup_error_text v))
  end.

Definition index_0 (v : json) : result json :=
  match v with
  | JArray (x :: _) => Ok x
  | JString (c :: _) => Ok (JString [c])
  | _ => Raise (OtherError (lookup_error_text v))
  end.

(** [sonuc['choices'][0]['message']['content']] *)
Definition openai_content (sonuc : json) : result json :=
  match index_key (u "choices") sonuc with
  | Raise e => Raise e
  | Ok choices =>
      match index_0 choices with
      | Raise e => Raise e
      | Ok first =>
          match index_key (u "message") first with
          | Raise e => Raise e
          | Ok msg => index_key (u "content") msg
          end
      end
  end.

(** [_openai_sorgula] *)
Definition _openai_sorgula (config : Config) (prompt : str)
    (system_prompt : option str) (context : list turn) : result json :=
  match openai_api_key config with
  | [] => Ok (JString (u "OpenAI API key yok! OPENAI_API_KEY ortam değişkenini ayarlayın."))
  | _ =>
      let messages := build_messages prompt system_prompt context in
      match post {| url := u "https://api.openai.com/v1/chat/completions";
                    authorization := Some (u "Bearer " ++ openai_api_key config);
                    model := u "gpt-3.5-turbo"; messages := messages;
                    timeout := ai_timeout config |} with
      | Response sonuc => openai_content sonuc
      | HttpError code => Ok (JString (u "OpenAI API hatası: " ++ str_of_int code))
      | JsonDecodeError => Ok (JString (u "AI yanıtı işlenemedi"))
      | UrlError text => Raise (OtherError text)
      | Failure e => Raise e
      end
  end.

(** [sorgula] *)
Definition sorgula (config : Config) (prompt : str) (system_prompt : option str)
    (context : list turn) : json :=
  match
    if str_eqb (ai_provider config) (u "ollama")
    then _ollama_sorgula config prompt system_prompt context
    else if str_eqb (ai_provider config) (u "openai")
    then _openai_sorgula config prompt system_prompt context
    else Ok (JString (u "Bilinmeyen AI sağlayıcı: " ++ ai_provider config))
  with
  | Ok v => v
  | Raise e => JString (u "AI hatası: " ++ exception_text e)
  end.

End Providers.

End AIManager.

(* ================================================================== *)
(** * YerelAIAsistan *)

Module YerelAIAsistan.
Import DatabaseManager.

(** The dictionary [dict(r)] of a row of [mesajlar], as [context] entry. *)
Definition turn_of (r : mesaj_row) : AIManager.turn :=
  {| AIManager.rol := Some (m_rol r); AIManager.icerik := Some (m_icerik r) |}.

(** [f"- {h['icerik'][:100]}"] joined by newlines. *)
Definition hafiza_metin (hafiza_list : list uzun_row) : str :=
  Json.join [10] (map (fun h => u "- " ++ firstn 100 (u_icerik h)) hafiza_list).

Definition system_prompt_of (hafiza_list : list uzun_row) : str :=
  u "Sen yardımcı bir AI asistansın. " ++ [10]
    ++ u "Kullanıcıya kısa ve faydalı yanıtlar ver." ++ [10]
    ++ u "Hafızadaki bilgiler: " ++ hafiza_metin hafiza_list.

(** The storage failures the five database calls of [ai_cevapla] meet, in
    program order, and the clock readings of the two inserts. *)
Record cevap_env : Type := {
  fault_ara : option exn; fault_hafiza : option exn; fault_gecmis : option exn;
  fault_user : option exn; fault_assistant : option exn;
  now_user : timestamp; now_assistant : timestamp }.

Section Cevap.

Variable lower : str -> str.

(** [str(e)] for an exception raised by the runtime. *)
Variable exception_text : exn -> str.

(** The text of the exception raised when the answer of the provider is not
    a text that can be sliced and stored; the first argument is the storage
    failure the insert would meet. *)
Variable answer_error_text : option exn -> AIManager.json -> str.

(** [self.ai.sorgula] *)
Variable sorgula : str -> option str -> list AIManager.turn -> AIManager.json.

Definition failed (e : exn) (d : db) : AIManager.json * db :=
  (AIManager.JString (u "Yanıt oluşturulamadı: " ++ exception_text e), d).

(** [ai_cevapla]; [oturum] is [self.oturum]. *)
Definition ai_cevapla (env : cevap_env) (oturum : option str) (soru : str) (d : db)
    : AIManager.json * db :=
  match ogrenilen_ara lower (fault_ara env) soru d with
  | (Raise e, d) => failed e d
  | (Ok (o :: _), d) => (AIManager.JString (u "[Öğrenilen] " ++ l_yanit o), d)
  | (Ok [], d) =>
      match uzun_getir (fault_hafiza env) [] 5 d with
      | (Raise e, d) => failed e d
      | (Ok hafiza_list, d) =>
          match
            match oturum with
            | Some (c :: s) =>
                match oturum_mesajlari (fault_gecmis env) (c :: s) 5 d with
                | (Raise e, d) => (Raise e, d)
                | (Ok rows, d) => (Ok (map turn_of rows), d)
                end
            | _ => (Ok [], d)
            end
          with
          | (Raise e, d) => failed e d
          | (Ok context, d) =>
              let system_prompt := system_prompt_of hafiza_list in
              let yanit := sorgula soru (Some system_prompt) context in
              match oturum with
              | Some (c :: s) =>
                  match oturum_mesaj_ekle (now_user env) (fault_user env) (c :: s)
                          (u "user") (firstn 500 soru) d with
                  | (Raise e, d) => failed e d
                  | (Ok _, d) =>
                      match yanit with
                      | AIManager.JString text =>
                          match oturum_mesaj_ekle (now_assistant env)
                                  (fault_assistant env) (c :: s) (u "assistant")
                                  (firstn 500 text) d with
                          | (Raise e, d) => failed e d
                          | (Ok _, d) => (yanit, d)
                          end
                      | other =>
                          (AIManager.JString
                             (u "Yanıt oluşturulamadı: "
                                ++ answer_error_text (fault_assistant env) other), d)
                      end
                  end
              | _ => (yanit, d)
              end
          end
      end
  end.

End Cevap.

End YerelAIAsistan.

(* ================================================================== *)
(** * Threads sharing one DatabaseManager

    Each thread calls one method.  [get_cursor] takes [self.lock] (a
    [threading.RLock]), runs the statements on the thread's own connection,
    commits, and releases the lock on leaving the [with] block.  A schedule
    is the sequence in which the threads are given a turn; a thread that
    waits for the lock does nothing on its turn. *)

Module Threads.
Import DatabaseManager.

Section Model.

Variable A : Type.

(** A method applied to its arguments. *)
Definition work : Type := db -> result A * db.

Inductive phase : Type :=
| Waiting (w : work)                      (* before [with self.lock] *)
| Locked (w : work)                       (* lock held, statements not yet run *)
| Uncommitted (r : result A) (d' : db)   (* statements run, before commit *)
| Committed (r : result A)               (* committed or rolled back, lock held *)
| Done (r : result A).                   (* lock released, method returned *)

(** [threading.RLock]: the owner and its recursion level. *)
Definition rlock : Type := option (nat * nat).

Definition acquire (t : nat) (l : rlock) : option rlock :=
  match l with
  | None => Some (Some (t, 1%nat))
  | Some (owner, level) =>
      if Nat.eqb owner t then Some (Some (owner, S level)) else None
  end.

Definition release (l : rlock) : rlock :=
  match l with
  | Some (owner, S (S level)) => Some (owner, S level)
  | _ => None
  end.

Record state : Type := {
  committed : db;              (* what a new transaction reads *)
  lock : rlock;
  threads : list phase;
  history : list work }.       (* the units of work, in lock-acquisition order *)

Fixpoint set_nth (t : nat) (p : phase) (l : list phase) : list phase :=
  match l, t with
  | [], _ => []
  | _ :: l', O => p :: l'
  | x :: l', S t' => x :: set_nth t' p l'
  end.

(** One turn of thread [t]. *)
Definition step (t : nat) (s : state) : state :=
  match nth_error (threads s) t with
  | Some (Waiting w) =>
      match acquire t (lock s) with
      | Some l =>
          {| committed := committed s; lock := l;
             threads := set_nth t (Locked w) (threads s);
             history := history s ++ [w] |}
      | None => s
      end
  | Some (Locked w) =>
      let (r, d') := w (committed s) in
      {| committed := committed s; lock := lock s;
         threads := set_nth t (Uncommitted r d') (threads s);
         history := history s |}
  | Some (Uncommitted r d') =>
      {| committed := d'; lock := lock s;
         threads := set_nth t (Committed r) (threads s);
         history := history s |}
  | Some (Committed r) =>
      {| committed := committed s; lock := release (lock s);
         threads := set_nth t (Done r) (threads s);
         history := history s |}
  | _ => s
  end.

Definition init (d0 : db) (ws : list work) : state :=
  {| committed := d0; lock := None; threads := map Waiting ws; history := [] |}.

Definition run (schedule : list nat) (s : state) : state :=
  fold_left (fun s t => step t s) schedule s.

(** The units of work applied one after the other. *)
Definition replay (ws : list work) (d : db) : db :=
  fold_left (fun d w => snd (w d)) ws d.

Definition idle (p : phase) : Prop :=
  match p with Waiting _ | Done _ => True | _ => False end.

Definition in_section (p : phase) : Prop :=
  match p with Locked _ | Uncommitted _ _ | Committed _ => True | _ => False end.

Definition finished (p : phase) : Prop :=
  match p with Done _ => True | _ => False end.

(** The units of work of [history] whose commit has taken effect. *)
Definition settled (s : state) : list work :=
  if existsb (fun p => match p with Locked _ | Uncommitted _ _ => true | _ => false end)
       (threads s)
  then removelast (history s) else history s.

(** The results of the threads that returned. *)
Definition returned (s : state) : list (result A) :=
  flat_map (fun p => match p with Done r => [r] | _ => [] end) (threads s).

End Model.

Arguments Waiting {A} w.
Arguments Locked {A} w.
Arguments Uncommitted {A} r d'.
Arguments Committed {A} r.
Arguments Done {A} r.
Arguments committed {A} s.
Arguments lock {A} s.
Arguments threads {A} s.
Arguments history {A} s.
Arguments step {A} t s.
Arguments init {A} d0 ws.
Arguments run {A} schedule s.
Arguments replay {A} ws d.
Arguments idle {A} p.
Arguments in_section {A} p.
Arguments finished {A} p.
Arguments settled {A} s.
Arguments returned {A} s.

(** A schedule that runs the threads [0 .. n-1] one after the other. *)
Definition sequential (n : nat) : list nat :=
  flat_map (fun t => [t; t; t; t]) (seq 0 n).

End Threads.

(* ================================================================== *)
(** * Vocabulary of the properties *)

(** Texts a statement can bind: none holds a surrogate code point. *)
Definition bindable (params : list str) : Prop :=
  Forall (fun s => Sqlite.encodable s = true) params.

(** A text without U+0000. *)
Definition nul_free (s : str) : Prop := ~ In 0 s.

(** A string made of white space only. *)
Definition all_space (s : str) : Prop := Forall (fun c => isspace c = true) s.

(** [q] occurs in [s]. *)
Definition occurs_in (q s : str) : Prop := exists a b, s = a ++ q ++ b.

(** [q] is a prefix of [s] up to the case of ASCII letters. *)
Fixpoint nocase_prefix (q s : str) : bool :=
  match q, s with
  | [], _ => true
  | _ :: _, [] => false
  | c :: q', c2 :: s' => Sqlite.like_char_eq c c2 && nocase_prefix q' s'
  end.

(** [q] occurs in [s] up to the case of ASCII letters. *)
Fixpoint nocase_occurs (q s : str) : bool :=
  nocase_prefix q s
  || match s with
     | [] => false
     | _ :: s' => nocase_occurs q s'
     end.

(** The escape of one character of a search text. *)
Definition escape_like_char (c : Z) : str :=
  if (c =? 92) || (c =? 37) || (c =? 95) then [92; c] else [c].

(** Rows in the order of [ORDER BY k DESC]. *)
Definition sorted_desc {A : Type} (k : A -> Z) (rows : list A) : Prop :=
  StronglySorted (fun a b => k b <= k a) rows.

(** Rows in the order of [ORDER BY k1 DESC, k2 DESC]. *)
Definition sorted_desc2 {A : Type} (k1 k2 : A -> Z) (rows : list A) : Prop :=
  StronglySorted (fun a b => k1 b < k1 a \/ (k1 b = k1 a /\ k2 b <= k2 a)) rows.

(** [q] is a prefix of [s]; [q] occurs in [s]: decided. *)
Fixpoint prefixb (q s : str) : bool :=
  match q, s with
  | [], _ => true
  | _ :: _, [] => false
  | c :: q', c2 :: s' => (c =? c2) && prefixb q' s'
  end.

Fixpoint occursb (q s : str) : bool :=
  prefixb q s
  || match s with
     | [] => false
     | _ :: s' => occursb q s'
     end.

(** ** Stores used as examples *)

(** One long-term entry: content ["buy milk"], tag [errand], importance 7. *)
Definition milk_db : DatabaseManager.db :=
  snd (DatabaseManager.uzun_ekle (u "3f2a") 1000 None (u "buy milk") [u "errand"] 7
         (u "{}") DatabaseManager.empty_db).

(** One long-term entry whose only tag is [posix]. *)
Definition posix_db : DatabaseManager.db :=
  snd (DatabaseManager.uzun_ekle (u "9c1d") 1000 None (u "shell notes") [u "posix"] 5
         (u "{}") DatabaseManager.empty_db).

(** A session created with the defaults, then three messages appended. *)
Definition session_db : DatabaseManager.db :=
  let d1 := snd (DatabaseManager.oturum_olustur (u "ab12cd34-5e6f-4a7b-8c9d-0e1f2a3b4c5d")
                   1000 (u "/home/user") None None None DatabaseManager.empty_db) in
  let d2 := snd (DatabaseManager.oturum_mesaj_ekle 2000 None (u "ab12cd34") (u "user")
                   (u "hello") d1) in
  let d3 := snd (DatabaseManager.oturum_mesaj_ekle 3000 None (u "ab12cd34") (u "assistant")
                   (u "hi") d2) in
  snd (DatabaseManager.oturum_mesaj_ekle 4000 None (u "ab12cd34") (u "user") (u "bye") d3).



(** One task, added with the default priority. *)
Definition one_task_db : DatabaseManager.db :=
  snd (DatabaseManager.gorev_ekle 1000 None (u "write report") [] (u "orta")
         DatabaseManager.empty_db).

(** [str.lower] on a string of ASCII characters. *)
Definition ascii_lower (s : str) : str := map Sqlite.ascii_tolower s.

(** One call of [ogren]: the clock reading, the storage failure it meets
    if any, and its two arguments. *)
Record ogren_call : Type := {
  c_now : timestamp; c_fault : option exn; c_soru : str; c_yanit : str }.

Section OgrenCalls.

Variable lower : str -> str.

(** The store after a sequence of calls of [ogren]. *)
Definition ogren_all (calls : list ogren_call) (d : DatabaseManager.db)
    : DatabaseManager.db :=
  fold_left (fun d c =>
    snd (DatabaseManager.ogren lower (c_now c) (c_fault c) (c_soru c) (c_yanit c) d))
    calls d.

(** The calls that store their pair: the storage is healthy and the key
    and the answer can be bound. *)
Definition stores (c : ogren_call) : bool :=
  match c_fault c with
  | None =>
      Sqlite.encodable (DatabaseManager.normalize lower (c_soru c))
      && Sqlite.encodable (c_yanit c)
  | Some _ => false
  end.

(** The answer of the latest call that stored the key [k], if any. *)
Fixpoint last_taught (k : str) (calls : list ogren_call) : option str :=
  match calls with
  | [] => None
  | c :: rest =>
      match last_taught k rest with
      | Some a => Some a
      | None =>
          if stores c && str_eqb (DatabaseManager.normalize lower (c_soru c)) k
          then Some (c_yanit c) else None
      end
  end.

End OgrenCalls.

(** A process that fails with exit code 1 and writes [boom] on its standard
    error. *)
Definition boom_process : CommandManager.CompletedProcess :=
  {| CommandManager.returncode := 1; CommandManager.stdout := [];
     CommandManager.stderr := u "boom" |}.

(** A process that succeeds and writes 2000 times the letter e-acute. *)
Definition accented_process : CommandManager.CompletedProcess :=
  {| CommandManager.returncode := 0; CommandManager.stdout := repeat 233 2000;
     CommandManager.stderr := [] |}.

(** ** Concurrent calls of [gorev_ekle] *)

(** The arguments of one call of [gorev_ekle] and the clock reading it
    takes. *)
Record gorev_req : Type := {
  r_now : timestamp; r_baslik : str; r_aciklama : str; r_oncelik : str }.

(** The call, on a healthy storage. *)
Definition gorev_work (q : gorev_req) : Threads.work Z :=
  DatabaseManager.gorev_ekle (r_now q) None (r_baslik q) (r_aciklama q) (r_oncelik q).

(** The ids returned so far. *)
Definition returned_ids (l : list (Threads.phase Z)) : list Z :=
  flat_map (fun p =>
    match p with
    | Threads.Committed (Ok id) | Threads.Done (Ok id) => [id]
    | _ => []
    end) l.

(** The units of work not yet begun. *)
Definition waiting_works {A : Type} (l : list (Threads.phase A)) : list (Threads.work A) :=
  flat_map (fun p => match p with Threads.Waiting w => [w] | _ => [] end) l.

(** ** The lock discipline *)

Section LockDiscipline.

Context {A : Type}.

Import Threads.

(** The state of the lock and of the threads, with respect to the store
    [d0] the threads started from. *)
Inductive lock_inv (d0 : DatabaseManager.db) (s : state A) : Prop :=
| inv_free :
    lock s = None ->
    Forall idle (threads s) ->
    committed s = replay (history s) d0 ->
    lock_inv d0 s
| inv_held (l1 l2 : list (phase A)) (p : phase A) (h : list (work A)) (w : work A) :
    lock s = Some (List.length l1, 1%nat) ->
    threads s = l1 ++ p :: l2 ->
    Forall idle l1 -> Forall idle l2 ->
    history s = h ++ [w] ->
    match p with
    | Locked w' => w' = w /\ committed s = replay h d0
    | Uncommitted r d' => w (replay h d0) = (r, d') /\ committed s = replay h d0
    | Committed r => r = fst (w (replay h d0)) /\ committed s = replay (h ++ [w]) d0
    | _ => False
    end ->
    lock_inv d0 s.

(** What one turn can do to the state. *)
Inductive transition (s : state A) : state A -> Prop :=
| tr_stay : transition s s
| tr_acquire (l1 l2 : list (phase A)) (w : work A) :
    threads s = l1 ++ Waiting w :: l2 ->
    lock s = None ->
    transition s
      {| committed := committed s; lock := Some (List.length l1, 1%nat);
         threads := l1 ++ Locked w :: l2; history := history s ++ [w] |}
| tr_execute (l1 l2 : list (phase A)) (w : work A) (r : result A) (d' : DatabaseManager.db) :
    threads s = l1 ++ Locked w :: l2 ->
    w (committed s) = (r, d') ->
    transition s
      {| committed := committed s; lock := lock s;
         threads := l1 ++ Uncommitted r d' :: l2; history := history s |}
| tr_commit (l1 l2 : list (phase A)) (r : result A) (d' : DatabaseManager.db)
    (h : list (work A)) (w : work A) :
    threads s = l1 ++ Uncommitted r d' :: l2 ->
    history s = h ++ [w] ->
    w (committed s) = (r, d') ->
    transition s
      {| committed := d'; lock := lock s;
         threads := l1 ++ Committed r :: l2; history := history s |}
| tr_release (l1 l2 : list (phase A)) (r : result A) :
    threads s = l1 ++ Committed r :: l2 ->
    transition s
      {| committed := committed s; lock := None;
         threads := l1 ++ Done r :: l2; history := history s |}.

End LockDiscipline.

(** The turns a thread still needs to return: one to take the lock, one to
    run its statements, one to commit, one to release the lock. *)
Definition remaining {A : Type} (p : Threads.phase A) : nat :=
  match p with
  | Threads.Waiting _ => 4
  | Threads.Locked _ => 3
  | Threads.Uncommitted _ _ => 2
  | Threads.Committed _ => 1
  | Threads.Done _ => 0
  end.

Definition turns_left {A : Type} (s : Threads.state A) : nat :=
  list_sum (map remaining (Threads.threads s)).

(** A round of the scheduler gives each of the [n] threads a turn at
    least, in any order. *)
Definition fair_round (n : nat) (round : list nat) : Prop :=
  forall t, (t < n)%nat -> In t round.

(** A call of [gorev_ekle] with a title and a description UTF-8 can encode
    and a priority the table accepts. *)
Definition valid_req (q : gorev_req) : Prop :=
  bindable [r_baslik q; r_aciklama q]
  /\ DatabaseManager.oncelik_check (r_oncelik q) = true.

(** A unit of work that is such a call. *)
Definition is_gorev_work (w : Threads.work Z) : Prop :=
  exists q, valid_req q /\ w = gorev_work q.

(** What a thread of such calls holds in each phase. *)
Definition gorev_phase (p : Threads.phase Z) : Prop :=
  match p with
  | Threads.Waiting w | Threads.Locked w => is_gorev_work w
  | Threads.Uncommitted _ _ => True
  | Threads.Committed r | Threads.Done r => exists id, r = Ok id
  end.

(** The threads return distinct ids, each of a stored task, and the table
    holds one more task for each. *)
Definition gorev_inv (d0 : DatabaseManager.db) (s : Threads.state Z) : Prop :=
  Forall gorev_phase (Threads.threads s)
  /\ NoDup (returned_ids (Threads.threads s))
  /\ (forall id, In id (returned_ids (Threads.threads s)) ->
                 In id (map DatabaseManager.g_id
                          (DatabaseManager.gorevler (Threads.committed s))))
  /\ List.length (DatabaseManager.gorevler (Threads.committed s))
     = (List.length (DatabaseManager.gorevler d0)
        + List.length (returned_ids (Threads.threads s)))%nat.

(** The calls [reqs], made on the store [d0], have each returned the id of
    a stored task, the ids differ, and [istatistik] counts one more task
    for each call. *)
Definition each_succeeded_once (d0 : DatabaseManager.db) (reqs : list gorev_req)
    (s : Threads.state Z) : Prop :=
  exists ids,
    Threads.returned s = map Ok ids
    /\ NoDup ids
    /\ List.length ids = List.length reqs
    /\ (forall id, In id ids ->
          In id (map DatabaseManager.g_id
                   (DatabaseManager.gorevler (Threads.committed s))))
    /\ List.length (DatabaseManager.gorevler (Threads.committed s))
       = (List.length (DatabaseManager.gorevler d0) + List.length reqs)%nat
    /\ exists st,
         DatabaseManager.istatistik None (Threads.committed s)
         = (Ok st, Threads.committed s)
         /\ DatabaseManager.s_gorev st
            = DatabaseManager.count (DatabaseManager.gorevler d0)
              + Z.of_nat (List.length reqs).

(** Fifty calls with the default priority. *)
Definition fifty_reqs : list gorev_req :=
  map (fun i => {| r_now := 1000 + Z.of_nat i; r_baslik := u "task";
                   r_aciklama := []; r_oncelik := u "orta" |}) (seq 0 50).

(** A schedule in which the fifty threads run in turns, last thread first. *)
Definition fifty_schedule : list nat :=
  flat_map (fun _ => rev (seq 0 50)) (seq 0 200).

(** The state the threads of the calls [reqs] reach under a schedule. *)
Definition gorev_threads (d0 : DatabaseManager.db) (reqs : list gorev_req)
    (schedule : list nat) : Threads.state Z :=
  Threads.run schedule (Threads.init d0 (map gorev_work reqs)).

(** ** Calls of the store *)

(** A call of a method of [DatabaseManager], with the readings of the clock
    and of [uuid.uuid4()] it takes. *)
Inductive call : Type :=
| KisaEkle (uuid4 : str) (now1 now2 : timestamp) (icerik meta_json : str)
| KisaGetir (now : timestamp) (limit : Z)
| KisaTemizle (now : timestamp)
| UzunEkle (uuid4 : str) (now : timestamp) (icerik : str) (etiketler : list str)
    (onem : Z) (meta_json : str)
| UzunAra (sorgu : str)
| UzunGetir (etiketler : list str) (limit : Z)
| BeyaniEkle (uuid4 : str) (now : timestamp) (icerik kategori meta_json : str)
| BeyaniGetir (kategori : option str)
| EpisodikEkle (uuid4 : str) (now : timestamp) (olay duygu baglam_json meta_json : str)
| EpisodikGetir (limit : Z)
| OturumOlustur (uuid4 : str) (now : timestamp) (cwd : str) (isim proje : option str)
| OturumListele
| OturumGetir (id : str)
| OturumMesajEkle (now : timestamp) (oid rol icerik : str)
| OturumMesajlari (oid : str) (limit : Z)
| GorevEkle (now : timestamp) (baslik aciklama oncelik : str)
| GorevListele (durum : option str)
| GorevTamamla (now : timestamp) (id : Z)
| GorevSil (id : Z)
| Ogren (now : timestamp) (soru yanit : str)
| OgrenilenAra (sorgu : str)
| OgrenilenListele (limit : Z)
| Istatistik.

(** The exception a result carries, if any. *)
Definition raised {A : Type} (r : result A * DatabaseManager.db)
    : option exn * DatabaseManager.db :=
  match r with
  | (Ok _, d) => (None, d)
  | (Raise e, d) => (Some e, d)
  end.

(** The call made on the store [d] when the storage meets [fault]: the
    exception it raises, if any, and the store it leaves. *)
Definition run_call (lower : str -> str) (fault : option exn) (c : call)
    (d : DatabaseManager.db) : option exn * DatabaseManager.db :=
  match c with
  | KisaEkle uuid4 now1 now2 icerik meta =>
      raised (DatabaseManager.kisa_ekle uuid4 now1 now2 fault icerik meta d)
  | KisaGetir now limit => raised (DatabaseManager.kisa_getir now fault limit d)
  | KisaTemizle now => raised (DatabaseManager.kisa_temizle now fault d)
  | UzunEkle uuid4 now icerik etiketler onem meta =>
      raised (DatabaseManager.uzun_ekle uuid4 now fault icerik etiketler onem meta d)
  | UzunAra sorgu => raised (DatabaseManager.uzun_ara fault sorgu d)
  | UzunGetir etiketler limit => raised (DatabaseManager.uzun_getir fault etiketler limit d)
  | BeyaniEkle uuid4 now icerik kategori meta =>
      raised (DatabaseManager.beyani_ekle uuid4 now fault icerik kategori meta d)
  | BeyaniGetir kategori => raised (DatabaseManager.beyani_getir fault kategori d)
  | EpisodikEkle uuid4 now olay duygu baglam meta =>
      raised (DatabaseManager.episodik_ekle uuid4 now fault olay duygu baglam meta d)
  | EpisodikGetir limit => raised (DatabaseManager.episodik_getir fault limit d)
  | OturumOlustur uuid4 now cwd isim proje =>
      raised (DatabaseManager.oturum_olustur uuid4 now cwd fault isim proje d)
  | OturumListele => raised (DatabaseManager.oturum_listele fault d)
  | OturumGetir id => raised (DatabaseManager.oturum_getir fault id d)
  | OturumMesajEkle now oid rol icerik =>
      raised (DatabaseManager.oturum_mesaj_ekle now fault oid rol icerik d)
  | OturumMesajlari oid limit => raised (DatabaseManager.oturum_mesajlari fault oid limit d)
  | GorevEkle now baslik aciklama oncelik =>
      raised (DatabaseManager.gorev_ekle now fault baslik aciklama oncelik d)
  | GorevListele durum => raised (DatabaseManager.gorev_listele fault durum d)
  | GorevTamamla now id => raised (DatabaseManager.gorev_tamamla now fault id d)
  | GorevSil id => raised (DatabaseManager.gorev_sil fault id d)
  | Ogren now soru yanit =>
      (None, snd (DatabaseManager.ogren lower now fault soru yanit d))
  | OgrenilenAra sorgu => raised (DatabaseManager.ogrenilen_ara lower fault sorgu d)
  | OgrenilenListele limit => raised (DatabaseManager.ogrenilen_listele fault limit d)
  | Istatistik => raised (DatabaseManager.istatistik fault d)
  end.

(** The store after a sequence of calls, each with the storage failure it
    meets. *)
Definition run_calls (lower : str -> str) (calls : list (option exn * call))
    (d : DatabaseManager.db) : DatabaseManager.db :=
  fold_left (fun d fc => snd (run_call lower (fst fc) (snd fc) d)) calls d.

(** The calls that only read. *)
Definition reads (c : call) : bool :=
  match c with
  | KisaGetir _ _ | UzunAra _ | UzunGetir _ _ | BeyaniGetir _ | EpisodikGetir _
  | OturumListele | OturumGetir _ | OturumMesajlari _ _ | GorevListele _
  | OgrenilenAra _ | OgrenilenListele _ | Istatistik => true
  | _ => false
  end.

(** The constraints of the schema of [_init_database], and what the rows
    the methods write have in common. *)
Record constraints (d : DatabaseManager.db) : Prop := {
  pk_kisa : NoDup (map DatabaseManager.k_id (DatabaseManager.kisa_sureli d));
  pk_uzun : NoDup (map DatabaseManager.u_id (DatabaseManager.uzun_sureli d));
  check_onem :
    Forall (fun r => 1 <= DatabaseManager.u_onem r <= 10) (DatabaseManager.uzun_sureli d);
  pk_beyani : NoDup (map DatabaseManager.b_id (DatabaseManager.beyani d));
  pk_episodik : NoDup (map DatabaseManager.e_id (DatabaseManager.episodik d));
  pk_oturum : NoDup (map DatabaseManager.o_id (DatabaseManager.oturumlar d));
  pk_mesaj : NoDup (map DatabaseManager.m_id (DatabaseManager.mesajlar d));
  seq_mesaj :
    Forall (fun r => 0 < DatabaseManager.m_id r <= DatabaseManager.seq_mesajlar d)
           (DatabaseManager.mesajlar d);
  check_rol :
    Forall (fun r => DatabaseManager.rol_check (DatabaseManager.m_rol r) = true)
           (DatabaseManager.mesajlar d);
  pk_gorev : NoDup (map DatabaseManager.g_id (DatabaseManager.gorevler d));
  seq_gorev :
    Forall (fun r => 0 < DatabaseManager.g_id r <= DatabaseManager.seq_gorevler d)
           (DatabaseManager.gorevler d);
  check_oncelik :
    Forall (fun r => DatabaseManager.oncelik_check (DatabaseManager.g_oncelik r) = true)
           (DatabaseManager.gorevler d);
  check_durum :
    Forall (fun r =>
              (DatabaseManager.g_durum r = u "bekliyor"
               /\ DatabaseManager.g_tamamlanma r = None)
              \/ (DatabaseManager.g_durum r = u "tamamlandi"
                  /\ DatabaseManager.g_tamamlanma r <> None))
           (DatabaseManager.gorevler d);
  pk_ogrenilen : NoDup (map DatabaseManager.l_id (DatabaseManager.ogrenilen d));
  seq_ogrenilen_ok :
    Forall (fun r => 0 < DatabaseManager.l_id r <= DatabaseManager.seq_ogrenilen d)
           (DatabaseManager.ogrenilen d);
  unique_soru : NoDup (map DatabaseManager.l_soru (DatabaseManager.ogrenilen d)) }.

(** A tag that [json.dumps] writes as it is and [LIKE] reads literally:
    printable ASCII without double quote, backslash, percent, underscore. *)
Definition plain_tag (tag : str) : Prop :=
  Forall (fun c => 32 <= c <= 126 /\ c <> 34 /\ c <> 92 /\ c <> 37 /\ c <> 95) tag.
(* ================================================================== *)
(** * Properties *)

(** ** Strings *)

Lemma str_eqb_eq (a b : str) : str_eqb a b = true <-> a = b.
Proof.
  revert b; induction a as [|x a IH]; intros [|y b]; simpl; split;
    try discriminate; try reflexivity.
  - intros H. apply andb_true_iff in H as [Hx Hab].
    apply Z.eqb_eq in Hx. apply IH in Hab. now subst.
  - intros H. injection H as -> ->.
    apply andb_true_iff. split; [apply Z.eqb_refl | now apply IH].
Qed.

Lemma str_eqb_refl (a : str) : str_eqb a a = true.
Proof. now apply str_eqb_eq. Qed.

Lemma str_eqb_neq (a b : str) : str_eqb a b = false <-> a <> b.
Proof.
  split.
  - intros H E. apply str_eqb_eq in E. congruence.
  - intros H. destruct (str_eqb a b) eqn:E; [|reflexivity].
    apply str_eqb_eq in E. contradiction.
Qed.

Lemma char_in_In (c : Z) (s : str) : char_in c s = true <-> In c s.
Proof.
  unfold char_in. rewrite existsb_exists. split.
  - intros [x [Hx E]]. apply Z.eqb_eq in E. now subst.
  - intros H. exists c. split; [assumption | apply Z.eqb_refl].
Qed.

Lemma lstrip_split (s : str) :
  exists pre, s = pre ++ lstrip s /\ all_space pre.
Proof.
  induction s as [|c s [pre [E Hpre]]]; simpl.
  - exists []. split; [reflexivity | constructor].
  - destruct (isspace c) eqn:Hc.
    + exists (c :: pre). split; [simpl; now f_equal | now constructor].
    + exists []. split; [reflexivity | constructor].
Qed.

Lemma lstrip_head (s r : str) (c : Z) : lstrip s = c :: r -> isspace c = false.
Proof.
  induction s as [|x s IH]; simpl; [discriminate|].
  destruct (isspace x) eqn:Hx; [assumption|].
  intros E. injection E as -> _. assumption.
Qed.

Lemma rstrip_split (s : str) :
  exists post, s = rstrip s ++ post /\ all_space post.
Proof.
  unfold rstrip. destruct (lstrip_split (rev s)) as [pre [E Hpre]].
  exists (rev pre). split.
  - rewrite <- rev_app_distr, <- E. symmetry. apply rev_involutive.
  - unfold all_space in *. now apply Forall_rev.
Qed.

Lemma rstrip_last (s r : str) (c : Z) : rstrip s = r ++ [c] -> isspace c = false.
Proof.
  unfold rstrip. intros E.
  apply (f_equal (@rev Z)) in E.
  rewrite rev_involutive, rev_app_distr in E. simpl in E.
  now apply lstrip_head in E.
Qed.

Lemma rstrip_head (s r : str) (c : Z) :
  isspace c = false -> rstrip (c :: s) = [] -> False.
Proof.
  intros Hc E. destruct (rstrip_split (c :: s)) as [post [Es Hpost]].
  rewrite E in Es. simpl in Es. subst post.
  inversion Hpost; subst. congruence.
Qed.

(** [strip] removes white space at both ends and nothing else. *)
Lemma strip_trimmed (s : str) :
  (exists pre post, s = pre ++ strip s ++ post /\ all_space pre /\ all_space post)
  /\ (forall c r, strip s = c :: r -> isspace c = false)
  /\ (forall r c, strip s = r ++ [c] -> isspace c = false).
Proof.
  unfold strip. split; [|split].
  - destruct (lstrip_split s) as [pre [E1 Hpre]].
    destruct (rstrip_split (lstrip s)) as [post [E2 Hpost]].
    exists pre, post. split; [|split]; try assumption.
    now rewrite <- E2.
  - intros c r E.
    destruct (rstrip_split (lstrip s)) as [post [E2 _]].
    rewrite E in E2. simpl in E2.
    now apply lstrip_head in E2.
  - intros r c. apply rstrip_last.
Qed.

Lemma strip_id (s : str) :
  (forall c r, s = c :: r -> isspace c = false) ->
  (forall r c, s = r ++ [c] -> isspace c = false) ->
  strip s = s.
Proof.
  intros Hh Hl. unfold strip.
  assert (E1 : lstrip s = s).
  { destruct s as [|c r]; [reflexivity|]. simpl. now rewrite (Hh c r eq_refl). }
  rewrite E1. unfold rstrip.
  destruct (rev s) as [|c r] eqn:Er.
  - simpl. apply (f_equal (@rev Z)) in Er. now rewrite rev_involutive in Er.
  - simpl. assert (Hc : isspace c = false).
    { apply (Hl (rev r)). apply (f_equal (@rev Z)) in Er.
      now rewrite rev_involutive in Er. }
    rewrite Hc, <- Er. apply rev_involutive.
Qed.

(** ** The stored timestamps *)

Lemma text_compare_app (p x y : str) :
  IsoFormat.text_compare (p ++ x) (p ++ y) = IsoFormat.text_compare x y.
Proof. induction p as [|c p IH]; simpl; [reflexivity | now rewrite Z.compare_refl]. Qed.

Lemma pad_compare (w : nat) (n m : Z) (x y : str) :
  0 <= n < 10 ^ Z.of_nat w -> 0 <= m < 10 ^ Z.of_nat w ->
  IsoFormat.text_compare (IsoFormat.pad w n ++ x) (IsoFormat.pad w m ++ y)
  = match n ?= m with
    | Eq => IsoFormat.text_compare x y
    | c => c
    end.
Proof.
  revert n m x y. induction w as [|w IH]; intros n m x y Hn Hm.
  - simpl in *. assert (n = 0) by lia. assert (m = 0) by lia. now subst.
  - rewrite Nat2Z.inj_succ, Z.pow_succ_r in Hn, Hm by lia.
    cbn [IsoFormat.pad]. rewrite <- !app_assoc.
    pose proof (Z.div_mod n 10 ltac:(lia)) as En.
    pose proof (Z.div_mod m 10 ltac:(lia)) as Em.
    pose proof (Z.mod_pos_bound n 10 ltac:(lia)) as Bn.
    pose proof (Z.mod_pos_bound m 10 ltac:(lia)) as Bm.
    rewrite IH by lia. cbn [app IsoFormat.text_compare].
    destruct (Z.compare_spec (n / 10) (m / 10)) as [E|E|E].
    + destruct (Z.compare_spec (48 + n mod 10) (48 + m mod 10)) as [E'|E'|E'];
        destruct (Z.compare_spec n m); try reflexivity; lia.
    + destruct (Z.compare_spec n m); try reflexivity; lia.
    + destruct (Z.compare_spec n m); try reflexivity; lia.
Qed.

(** The texts of two instants compare as the instants do, field by field:
    the text comparison of the stored timestamps is the chronological one. *)
Lemma isoformat_order (a b : IsoFormat.datetime) :
  IsoFormat.well_formed a -> IsoFormat.well_formed b ->
  IsoFormat.text_compare (IsoFormat.isoformat a) (IsoFormat.isoformat b)
  = IsoFormat.fields_compare (IsoFormat.fields a) (IsoFormat.fields b).
Proof.
  intros (Ha1 & Ha2 & Ha3 & Ha4 & Ha5 & Ha6 & Ha7) (Hb1 & Hb2 & Hb3 & Hb4 & Hb5 & Hb6 & Hb7).
  unfold IsoFormat.isoformat, IsoFormat.fields. cbn [IsoFormat.fields_compare].
  rewrite pad_compare by (simpl; lia).
  destruct (IsoFormat.year a ?= IsoFormat.year b); try reflexivity.
  rewrite (text_compare_app [45]), pad_compare by (simpl; lia).
  destruct (IsoFormat.month a ?= IsoFormat.month b); try reflexivity.
  rewrite (text_compare_app [45]), pad_compare by (simpl; lia).
  destruct (IsoFormat.day a ?= IsoFormat.day b); try reflexivity.
  rewrite (text_compare_app [84]), pad_compare by (simpl; lia).
  destruct (IsoFormat.hour a ?= IsoFormat.hour b); try reflexivity.
  rewrite (text_compare_app [58]), pad_compare by (simpl; lia).
  destruct (IsoFormat.minute a ?= IsoFormat.minute b); try reflexivity.
  rewrite (text_compare_app [58]), pad_compare by (simpl; lia).
  destruct (IsoFormat.second a ?= IsoFormat.second b); try reflexivity.
  destruct (Z.eqb_spec (IsoFormat.microsecond a) 0) as [Ea|Ea];
    destruct (Z.eqb_spec (IsoFormat.microsecond b) 0) as [Eb|Eb].
  - rewrite Ea, Eb. reflexivity.
  - rewrite Ea. cbn [app IsoFormat.text_compare].
    destruct (Z.compare_spec 0 (IsoFormat.microsecond b)); try reflexivity; lia.
  - rewrite Eb. cbn [app IsoFormat.text_compare].
    destruct (Z.compare_spec (IsoFormat.microsecond a) 0); try reflexivity; lia.
  - rewrite (text_compare_app [46]).
    rewrite <- (app_nil_r (IsoFormat.pad 6 (IsoFormat.microsecond a))).
    rewrite <- (app_nil_r (IsoFormat.pad 6 (IsoFormat.microsecond b))).
    rewrite pad_compare by (simpl; lia).
    now destruct (IsoFormat.microsecond a ?= IsoFormat.microsecond b).
Qed.

(** ** SecurityManager.sanitize_command *)

Lemma first_dangerous_Some (chars : list Z) (cmd : str) (c : Z) :
  SecurityManager.first_dangerous chars cmd = Some c -> In c chars /\ In c cmd.
Proof.
  induction chars as [|x chars IH]; simpl; [discriminate|].
  destruct (char_in x cmd) eqn:Hx.
  - intros E. injection E as <-. split; [now left | now apply char_in_In].
  - intros E. destruct (IH E). split; [now right | assumption].
Qed.

Lemma first_dangerous_None (chars : list Z) (cmd : str) :
  SecurityManager.first_dangerous chars cmd = None ->
  forall c, In c chars -> ~ In c cmd.
Proof.
  induction chars as [|x chars IH]; simpl; [intros _ c []|].
  destruct (char_in x cmd) eqn:Hx; [discriminate|].
  intros E c [<-|Hc] Hin.
  - apply char_in_In in Hin. congruence.
  - now apply (IH E c).
Qed.

(** C2.  [sanitize_command] raises [ValueError] (the SecurityViolation)
    exactly when the command holds a character of the deny-list
    [; & | ` $ ( ) { } < > newline]; on every other command it returns the
    command with the white space at its two ends removed and nothing else
    changed.  ["ls -la"] is returned as it is, ["ls; rm -rf /"] is refused. *)
Theorem sanitize_command_deny_list (cmd : str) :
  ((exists msg, SecurityManager.sanitize_command cmd = Raise (ValueError msg))
   <-> (exists c, In c SecurityManager.dangerous_chars /\ In c cmd))
  /\ ((forall c, In c SecurityManager.dangerous_chars -> ~ In c cmd) ->
      SecurityManager.sanitize_command cmd = Ok (strip cmd)
      /\ (exists pre post,
            cmd = pre ++ strip cmd ++ post /\ all_space pre /\ all_space post)
      /\ (forall c r, strip cmd = c :: r -> isspace c = false)
      /\ (forall r c, strip cmd = r ++ [c] -> isspace c = false))
  /\ SecurityManager.dangerous_chars = [59; 38; 124; 96; 36; 40; 41; 123; 125; 60; 62; 10]
  /\ SecurityManager.sanitize_command (u "ls -la") = Ok (u "ls -la")
  /\ (exists msg,
        SecurityManager.sanitize_command (u "ls; rm -rf /") = Raise (ValueError msg)).
Proof.
  unfold SecurityManager.sanitize_command.
  split; [|split; [|split; [|split]]].
  - destruct (SecurityManager.first_dangerous SecurityManager.dangerous_chars cmd)
      as [c|] eqn:E.
    + split; intros _; [|eauto].
      exists c. now apply first_dangerous_Some.
    + split.
      * intros [msg H]. discriminate.
      * intros [c [Hc Hin]]. exfalso.
        now apply (first_dangerous_None _ _ E c Hc).
  - intros Hnone.
    destruct (SecurityManager.first_dangerous SecurityManager.dangerous_chars cmd)
      as [c|] eqn:E.
    + apply first_dangerous_Some in E as [Hc Hin]. now destruct (Hnone c Hc).
    + split; [reflexivity | apply strip_trimmed].
  - reflexivity.
  - reflexivity.
  - eexists. reflexivity.
Qed.

Lemma sanitize_command_deny_list_witness :
  SecurityManager.sanitize_command (u "  git status ") = Ok (u "git status").
Proof.
  destruct (sanitize_command_deny_list (u "  git status ")) as [_ [H _]].
  destruct H as [E _].
  - intros c Hc Hin. vm_compute in Hc, Hin.
    repeat (destruct Hc as [Hc|Hc];
            [subst c; repeat (destruct Hin as [Hin|Hin]; [discriminate Hin|]); exact Hin|]).
    exact Hc.
  - exact E.
Defined.

(** ** The storage engine: ORDER BY and LIMIT *)

Section OrderBy.

Context {A : Type} (precedes : A -> A -> bool).
Hypothesis precedes_asym : forall a b, precedes a b = true -> precedes b a = false.
Hypothesis precedes_negtrans :
  forall a b c, precedes b a = false -> precedes c b = false -> precedes c a = false.

Lemma insert_by_perm (x : A) (l : list A) :
  Permutation (Sqlite.insert_by precedes x l) (x :: l).
Proof.
  induction l as [|y l IH]; simpl; [apply Permutation_refl|].
  destruct (precedes y x); [|apply Permutation_refl].
  apply perm_trans with (y :: x :: l); [now apply perm_skip | apply perm_swap].
Qed.

Lemma order_by_perm (l : list A) : Permutation (Sqlite.order_by precedes l) l.
Proof.
  induction l as [|x l IH]; simpl; [constructor|].
  apply perm_trans with (x :: Sqlite.order_by precedes l);
    [apply insert_by_perm | now apply perm_skip].
Qed.

Lemma insert_by_sorted (x : A) (l : list A) :
  StronglySorted (fun a b => precedes b a = false) l ->
  StronglySorted (fun a b => precedes b a = false) (Sqlite.insert_by precedes x l).
Proof.
  induction 1 as [|y l Hs IH Hy]; simpl.
  - constructor; constructor.
  - destruct (precedes y x) eqn:E.
    + constructor; [assumption|].
      apply (Permutation_Forall (Permutation_sym (insert_by_perm x l))).
      constructor; [now apply precedes_asym | assumption].
    + constructor; [now constructor|].
      constructor; [assumption|].
      rewrite Forall_forall in *. intros z Hz.
      apply precedes_negtrans with y; [assumption | now apply Hy].
Qed.

Lemma order_by_sorted (l : list A) :
  StronglySorted (fun a b => precedes b a = false) (Sqlite.order_by precedes l).
Proof.
  induction l as [|x l IH]; simpl; [constructor | now apply insert_by_sorted].
Qed.

End OrderBy.

Lemma StronglySorted_impl {A : Type} (R S : A -> A -> Prop) (l : list A) :
  (forall a b, R a b -> S a b) -> StronglySorted R l -> StronglySorted S l.
Proof.
  intros HRS. induction 1 as [|x l Hs IH Hx]; constructor; [assumption|].
  rewrite Forall_forall in *. auto.
Qed.

Lemma StronglySorted_firstn {A : Type} (R : A -> A -> Prop) (n : nat) (l : list A) :
  StronglySorted R l -> StronglySorted R (firstn n l).
Proof.
  intros H. revert n. induction H as [|x l Hs IH Hx]; intros [|n]; simpl;
    try constructor; [apply IH|].
  rewrite Forall_forall in *. intros y Hy. apply Hx.
  rewrite <- (firstn_skipn n l). apply in_or_app. now left.
Qed.

Lemma order_by_desc_sorted {A : Type} (k : A -> Z) (l : list A) :
  sorted_desc k (Sqlite.order_by (Sqlite.desc k) l).
Proof.
  unfold sorted_desc.
  apply StronglySorted_impl with (R := fun a b => Sqlite.desc k b a = false).
  - unfold Sqlite.desc. intros a b H. apply Z.ltb_ge in H. lia.
  - apply order_by_sorted; unfold Sqlite.desc; intros; rewrite ?Z.ltb_lt, ?Z.ltb_ge in *; lia.
Qed.

Lemma order_by_desc2_sorted {A : Type} (k1 k2 : A -> Z) (l : list A) :
  sorted_desc2 k1 k2 (Sqlite.order_by (Sqlite.desc2 k1 k2) l).
Proof.
  unfold sorted_desc2.
  assert (Hd : forall a b, Sqlite.desc2 k1 k2 a b = false <->
                           (k1 a < k1 b \/ (k1 a = k1 b /\ k2 a <= k2 b))).
  { intros a b. unfold Sqlite.desc2.
    rewrite orb_false_iff, andb_false_iff, !Z.ltb_ge, Z.eqb_neq. lia. }
  assert (Ht : forall a b, Sqlite.desc2 k1 k2 a b = true <->
                           (k1 b < k1 a \/ (k1 b = k1 a /\ k2 b < k2 a))).
  { intros a b. unfold Sqlite.desc2.
    rewrite orb_true_iff, andb_true_iff, !Z.ltb_lt, Z.eqb_eq. lia. }
  apply StronglySorted_impl with (R := fun a b => Sqlite.desc2 k1 k2 b a = false).
  - intros a b H. apply Hd in H. lia.
  - apply order_by_sorted.
    + intros a b H. apply Ht in H. apply Hd. lia.
    + intros a b c H1 H2. apply Hd in H1, H2. apply Hd. lia.
Qed.

Lemma limit_nonneg {A : Type} (n : Z) (l : list A) :
  0 <= n -> Sqlite.limit n l = firstn (Z.to_nat n) l.
Proof. intros H. unfold Sqlite.limit. destruct (n <? 0) eqn:E; [lia | reflexivity]. Qed.

Lemma limit_length {A : Type} (n : Z) (l : list A) :
  0 <= n -> Z.of_nat (List.length (Sqlite.limit n l)) <= n.
Proof.
  intros H. rewrite limit_nonneg by assumption.
  pose proof (firstn_le_length (Z.to_nat n) l). rewrite length_firstn. lia.
Qed.

Lemma bind_int_ok (z : Z) : - 2 ^ 63 <= z < 2 ^ 63 -> Sqlite.bind_int z = Ok z.
Proof.
  intros H. unfold Sqlite.bind_int, Sqlite.in_int64.
  destruct (- 2 ^ 63 <=? z) eqn:E1; destruct (z <? 2 ^ 63) eqn:E2; simpl;
    try reflexivity; lia.
Qed.

(** ** The storage engine: binding of text *)

Lemma bind_text_ok (s : str) : Sqlite.encodable s = true -> Sqlite.bind_text s = Ok s.
Proof. intros H. unfold Sqlite.bind_text. now rewrite H. Qed.

Lemma bind_text_inv (s s' : str) :
  Sqlite.bind_text s = Ok s' -> s' = s /\ Sqlite.encodable s = true.
Proof.
  unfold Sqlite.bind_text. destruct (Sqlite.encodable s); [|discriminate].
  intros E. injection E as <-. now split.
Qed.

Lemma bind_text_raise (s : str) (e : exn) :
  Sqlite.bind_text s = Raise e -> Sqlite.encodable s = false.
Proof. unfold Sqlite.bind_text. now destruct (Sqlite.encodable s). Qed.

Lemma encodable_app (a b : str) :
  Sqlite.encodable (a ++ b) = Sqlite.encodable a && Sqlite.encodable b.
Proof. apply forallb_app. Qed.

Lemma encodable_below (s : str) :
  Forall (fun c => c < 55296) s -> Sqlite.encodable s = true.
Proof.
  intros H. apply forallb_forall. intros c Hc.
  pose proof (proj1 (Forall_forall _ _) H c Hc) as Hlt. cbv beta in Hlt.
  unfold Sqlite.surrogate. destruct (55296 <=? c) eqn:E; [|reflexivity].
  apply Z.leb_le in E. lia.
Qed.

Lemma encodable_in (s : str) (c : Z) :
  Sqlite.encodable s = true -> In c s -> ~ 55296 <= c <= 57343.
Proof.
  intros H Hc Hr. unfold Sqlite.encodable in H.
  rewrite forallb_forall in H. specialize (H c Hc).
  unfold Sqlite.surrogate in H.
  destruct (55296 <=? c) eqn:E1; destruct (c <=? 57343) eqn:E2; try discriminate;
    rewrite ?Z.leb_gt in *; lia.
Qed.

Lemma bindable_cons (s : str) (l : list str) :
  bindable (s :: l) <-> Sqlite.encodable s = true /\ bindable l.
Proof. unfold bindable. apply Forall_cons_iff. Qed.

(** Unpacks the hypotheses [bindable [...]] into one equation for each
    text. *)
Ltac bindable_hyps :=
  repeat match goal with
         | H : bindable (_ :: _) |- _ => apply bindable_cons in H; destruct H as [? H]
         | H : bindable [] |- _ => clear H
         end.

(** ** The storage engine: byte lengths and C strings *)

Lemma utf8_length_app (a b : str) : utf8_length (a ++ b) = utf8_length a + utf8_length b.
Proof.
  induction a as [|c a IH]; [reflexivity|].
  cbn [app utf8_length fold_right]. fold (utf8_length (a ++ b)). fold (utf8_length a).
  rewrite IH. lia.
Qed.

Lemma utf8_length_bounds (s : str) :
  Z.of_nat (List.length s) <= utf8_length s <= 4 * Z.of_nat (List.length s).
Proof.
  induction s as [|c s IH]; [simpl; lia|].
  cbn [utf8_length fold_right]. fold (utf8_length s).
  change (List.length (c :: s)) with (S (List.length s)).
  destruct (c <? 128); [lia|]. destruct (c <? 2048); [lia|].
  destruct (c <? 65536); lia.
Qed.

Lemma utf8_length_repeat_ascii (c : Z) (n : nat) :
  c < 128 -> utf8_length (repeat c n) = Z.of_nat n.
Proof.
  intros Hc. induction n as [|n IH]; [reflexivity|].
  cbn [repeat utf8_length fold_right]. fold (utf8_length (repeat c n)).
  rewrite IH. destruct (Z.ltb_spec c 128); lia.
Qed.

Lemma c_string_nul_free (s : str) : nul_free s -> Sqlite.c_string s = s.
Proof.
  unfold nul_free. induction s as [|c s IH]; intros H; [reflexivity|].
  cbn [Sqlite.c_string]. destruct (Z.eqb_spec c 0) as [->|N].
  - destruct H. now left.
  - rewrite IH; [reflexivity|]. intros Hin. apply H. now right.
Qed.

Lemma nul_free_app (a b : str) : nul_free (a ++ b) <-> nul_free a /\ nul_free b.
Proof.
  unfold nul_free. split.
  - intros H. split; intros Hin; apply H, in_or_app; tauto.
  - intros [Ha Hb] Hin. apply in_app_or in Hin. tauto.
Qed.

(** ** The storage engine: WHERE *)

Lemma where_ok {A : Type} (cond : A -> result bool) (p : A -> bool) (rows : list A) :
  (forall r, In r rows -> cond r = Ok (p r)) ->
  Sqlite.where_ cond rows = Ok (filter p rows).
Proof.
  induction rows as [|r rows IH]; intros H; [reflexivity|].
  cbn [Sqlite.where_ filter]. rewrite (H r (or_introl eq_refl)).
  rewrite IH; [reflexivity|]. intros x Hx. apply H. now right.
Qed.

Lemma where_raise {A : Type} (cond : A -> result bool) (e : exn) (r : A) (rows : list A) :
  cond r = Raise e -> Sqlite.where_ cond (r :: rows) = Raise e.
Proof. intros H. cbn [Sqlite.where_]. now rewrite H. Qed.

Lemma where_subset {A : Type} (cond : A -> result bool) (rows selected : list A) :
  Sqlite.where_ cond rows = Ok selected ->
  selected = filter (fun r => match cond r with Ok true => true | _ => false end) rows.
Proof.
  revert selected. induction rows as [|r rows IH]; intros selected H.
  - injection H as <-. reflexivity.
  - cbn [Sqlite.where_ filter] in *. destruct (cond r) as [b|e]; [|discriminate].
    destruct (Sqlite.where_ cond rows) as [l|e]; [|discriminate].
    injection H as <-. rewrite (IH l eq_refl). now destruct b.
Qed.

Lemma like_within (esc : option Z) (pat s : str) :
  utf8_length pat <= 50000 ->
  Sqlite.like esc pat s = Ok (Sqlite.like_match esc (Sqlite.c_string pat) (Sqlite.c_string s)).
Proof.
  intros H. unfold Sqlite.like, Sqlite.max_like_pattern_length.
  destruct (Z.gtb_spec (utf8_length pat) 50000); [lia | reflexivity].
Qed.

Lemma like_too_long (esc : option Z) (pat s : str) :
  50000 < utf8_length pat -> Sqlite.like esc pat s = Raise OperationalError.
Proof.
  intros H. unfold Sqlite.like, Sqlite.max_like_pattern_length.
  destruct (Z.gtb_spec (utf8_length pat) 50000); [reflexivity | lia].
Qed.

(** ** The storage engine: LIKE *)

Lemma like_char_eq_refl (c : Z) : Sqlite.like_char_eq c c = true.
Proof. unfold Sqlite.like_char_eq. now rewrite Z.eqb_refl. Qed.

Lemma tok_match_anyseq (ts : list Sqlite.like_tok) (s : str) :
  Sqlite.tok_match (Sqlite.AnySeq :: ts) s =
  Sqlite.tok_match ts s
  || match s with
     | [] => false
     | _ :: s' => Sqlite.tok_match (Sqlite.AnySeq :: ts) s'
     end.
Proof. destruct s; reflexivity. Qed.

Lemma tok_match_anyseq_end (s : str) : Sqlite.tok_match [Sqlite.AnySeq] s = true.
Proof.
  induction s as [|c s IH]; [reflexivity|].
  rewrite tok_match_anyseq, IH. apply orb_true_r.
Qed.

Lemma tok_match_lits_prefix (q s : str) :
  Sqlite.tok_match (map Sqlite.Lit q ++ [Sqlite.AnySeq]) s = nocase_prefix q s.
Proof.
  revert s. induction q as [|c q IH]; intros s.
  - simpl map. simpl app. rewrite tok_match_anyseq_end. now destruct s.
  - destruct s as [|c2 s]; [reflexivity|].
    simpl. now rewrite <- IH.
Qed.

(** A pattern [%text%] whose text is read literally selects the strings
    in which the text occurs, up to the case of ASCII letters. *)
Lemma tok_match_lits_occurs (q s : str) :
  Sqlite.tok_match (Sqlite.AnySeq :: map Sqlite.Lit q ++ [Sqlite.AnySeq]) s
  = nocase_occurs q s.
Proof.
  induction s as [|c s IH].
  - rewrite tok_match_anyseq, tok_match_lits_prefix. reflexivity.
  - rewrite tok_match_anyseq, tok_match_lits_prefix, IH. reflexivity.
Qed.

Lemma nocase_prefix_spec (q s : str) :
  nocase_prefix q s = true <->
  exists m b, s = m ++ b /\ Forall2 (fun c c2 => Sqlite.like_char_eq c c2 = true) q m.
Proof.
  revert s. induction q as [|c q IH]; intros s.
  - split; [|reflexivity]. intros _. exists [], s. split; [reflexivity | constructor].
  - destruct s as [|c2 s]; simpl.
    + split; [discriminate|]. intros [m [b [E H]]].
      inversion H; subst. discriminate.
    + rewrite andb_true_iff, IH. split.
      * intros [Hc [m [b [E H]]]]. exists (c2 :: m), b. subst.
        split; [reflexivity | now constructor].
      * intros [m [b [E H]]]. inversion H as [|? y ? m' Hc H']; subst.
        injection E as -> ->. split; [assumption | eauto].
Qed.

Lemma nocase_occurs_spec (q s : str) :
  nocase_occurs q s = true <->
  exists a m b, s = a ++ m ++ b
                /\ Forall2 (fun c c2 => Sqlite.like_char_eq c c2 = true) q m.
Proof.
  induction s as [|c s IH]; simpl; rewrite orb_true_iff, nocase_prefix_spec.
  - split.
    + intros [[m [b [E H]]]|H]; [|discriminate]. exists [], m, b. now split.
    + intros [a [m [b [E H]]]]. left. exists m, b.
      destruct a; [now split | discriminate].
  - rewrite IH. split.
    + intros [[m [b [E H]]]|[a [m [b [E H]]]]].
      * exists [], m, b. now split.
      * exists (c :: a), m, b. subst. now split.
    + intros [a [m [b [E H]]]]. destruct a as [|x a].
      * left. exists m, b. now split.
      * right. injection E as -> ->. eauto.
Qed.

Lemma Forall2_like_refl (q : str) :
  Forall2 (fun c c2 => Sqlite.like_char_eq c c2 = true) q q.
Proof. induction q; constructor; [apply like_char_eq_refl | assumption]. Qed.

Lemma occurs_nocase (q s : str) : occurs_in q s -> nocase_occurs q s = true.
Proof.
  intros [a [b E]]. apply nocase_occurs_spec.
  exists a, q, b. split; [assumption | apply Forall2_like_refl].
Qed.

Lemma option_map_app_cons {X : Type} (x : X) (l : list X) (o : option (list X)) :
  option_map (cons x) (option_map (app l) o) = option_map (app (x :: l)) o.
Proof. now destruct o. Qed.

(** The escaped text is read back as the text itself, character by
    character. *)
Lemma like_tokens_escaped (q rest : str) :
  Sqlite.like_tokens (Some 92) (flat_map escape_like_char q ++ rest)
  = option_map (app (map Sqlite.Lit q)) (Sqlite.like_tokens (Some 92) rest).
Proof.
  induction q as [|c q IH].
  - simpl. now destruct (Sqlite.like_tokens (Some 92) rest).
  - simpl flat_map. rewrite <- app_assoc. unfold escape_like_char at 1.
    destruct ((c =? 92) || (c =? 37) || (c =? 95)) eqn:E.
    + simpl. rewrite IH. apply option_map_app_cons.
    + apply orb_false_iff in E as [E E3]. apply orb_false_iff in E as [E1 E2].
      simpl. rewrite E1, E2, E3, IH. apply option_map_app_cons.
Qed.

(** A text without wildcard characters is read literally when the
    statement has no ESCAPE clause. *)
Lemma like_tokens_plain (q rest : str) :
  ~ In 37 q -> ~ In 95 q ->
  Sqlite.like_tokens None (q ++ rest)
  = option_map (app (map Sqlite.Lit q)) (Sqlite.like_tokens None rest).
Proof.
  induction q as [|c q IH]; intros H1 H2.
  - simpl. now destruct (Sqlite.like_tokens None rest).
  - simpl in H1, H2. simpl.
    destruct (c =? 37) eqn:E1; [apply Z.eqb_eq in E1; tauto|].
    destruct (c =? 95) eqn:E2; [apply Z.eqb_eq in E2; tauto|].
    rewrite IH by tauto. apply option_map_app_cons.
Qed.

(** ** SecurityManager.sanitize_sql_like *)

Lemma replace_char_flat_map (c : Z) (by_ : str) (f : Z -> str) (s : str) :
  replace_char c by_ (flat_map f s) = flat_map (fun x => replace_char c by_ (f x)) s.
Proof.
  unfold replace_char. induction s as [|x s IH]; simpl; [reflexivity|].
  now rewrite flat_map_app, IH.
Qed.

(** The three replacements, in the order of the source, escape each of the
    characters backslash, percent and underscore once. *)
Lemma escape_in_order (q : str) :
  replace_char 95 [92; 95] (replace_char 37 [92; 37] (replace_char 92 [92; 92] q))
  = flat_map escape_like_char q.
Proof.
  unfold replace_char at 3.
  rewrite !replace_char_flat_map.
  apply flat_map_ext. intros c. unfold escape_like_char, replace_char.
  destruct (Z.eqb_spec c 92) as [->|N1]; [reflexivity|].
  simpl. destruct (Z.eqb_spec c 37) as [->|N2]; [reflexivity|].
  simpl. destruct (Z.eqb_spec c 95) as [->|N3]; reflexivity.
Qed.

Lemma sanitize_sql_like_nonempty (q : str) :
  q <> [] ->
  SecurityManager.sanitize_sql_like q = [37] ++ flat_map escape_like_char q ++ [37].
Proof.
  intros H. unfold SecurityManager.sanitize_sql_like.
  destruct q as [|c q]; [contradiction|]. now rewrite escape_in_order.
Qed.

Lemma like_sanitized (q s : str) :
  q <> [] ->
  Sqlite.like_match (Some 92) (SecurityManager.sanitize_sql_like q) s = nocase_occurs q s.
Proof.
  intros H. rewrite sanitize_sql_like_nonempty by assumption.
  unfold Sqlite.like_match.
  change ([37] ++ flat_map escape_like_char q ++ [37])
    with (37 :: (flat_map escape_like_char q ++ [37])).
  cbn [Sqlite.like_tokens]. rewrite like_tokens_escaped.
  simpl. apply tok_match_lits_occurs.
Qed.

Lemma prefixb_spec (q s : str) : prefixb q s = true <-> exists b, s = q ++ b.
Proof.
  revert s. induction q as [|c q IH]; intros s; simpl.
  - split; [|reflexivity]. intros _. now exists s.
  - destruct s as [|c2 s].
    + split; [discriminate|]. intros [b E]. discriminate.
    + rewrite andb_true_iff, Z.eqb_eq, IH. split.
      * intros [-> [b ->]]. now exists b.
      * intros [b E]. injection E as -> ->. split; [reflexivity | now exists b].
Qed.

Lemma occursb_spec (q s : str) : occursb q s = true <-> occurs_in q s.
Proof.
  unfold occurs_in. induction s as [|c s IH]; simpl; rewrite orb_true_iff, prefixb_spec.
  - split.
    + intros [[b E]|H]; [|discriminate]. now exists [], b.
    + intros [a [b E]]. left. destruct a; [now exists b | discriminate].
  - rewrite IH. split.
    + intros [[b E]|[a [b E]]].
      * now exists [], b.
      * exists (c :: a), b. now subst.
    + intros [a [b E]]. destruct a as [|x a].
      * left. now exists b.
      * right. injection E as -> ->. eauto.
Qed.

(** ** DatabaseManager: long-term memory *)

Import DatabaseManager.

Lemma escape_like_encodable (q : str) :
  Sqlite.encodable (flat_map escape_like_char q) = Sqlite.encodable q.
Proof.
  induction q as [|c q IH]; [reflexivity|].
  cbn [flat_map]. rewrite encodable_app, IH. unfold escape_like_char.
  destruct ((c =? 92) || (c =? 37) || (c =? 95)) eqn:E;
    unfold Sqlite.encodable; cbn [forallb]; rewrite ?andb_true_r; [|reflexivity].
  change (Sqlite.surrogate 92) with false. reflexivity.
Qed.

Lemma escape_like_nul_free (q : str) : nul_free q -> nul_free (flat_map escape_like_char q).
Proof.
  unfold nul_free. intros H Hin. apply in_flat_map in Hin as [c [Hc Hin]].
  unfold escape_like_char in Hin.
  destruct ((c =? 92) || (c =? 37) || (c =? 95)).
  - destruct Hin as [E|[E|[]]]; [discriminate | now subst].
  - destruct Hin as [E|[]]. now subst.
Qed.

Lemma sanitize_sql_like_encodable (q : str) :
  Sqlite.encodable q = true ->
  Sqlite.encodable (SecurityManager.sanitize_sql_like q) = true.
Proof.
  intros H. destruct q as [|c q]; [reflexivity|].
  rewrite sanitize_sql_like_nonempty by discriminate.
  now rewrite !encodable_app, escape_like_encodable, H.
Qed.

Lemma sanitize_sql_like_nul_free (q : str) :
  nul_free q -> nul_free (SecurityManager.sanitize_sql_like q).
Proof.
  intros H. destruct q as [|c q]; [intros []|].
  rewrite sanitize_sql_like_nonempty by discriminate.
  apply nul_free_app. split; [intros [E|[]]; discriminate|].
  apply nul_free_app. split; [now apply escape_like_nul_free|].
  intros [E|[]]. discriminate.
Qed.


(** The two operands of [uzun_ara] on one row. *)
Lemma uzun_ara_row (q a b : str) :
  q <> [] -> nul_free q ->
  utf8_length (SecurityManager.sanitize_sql_like q) <= 50000 ->
  Sqlite.or_else (Sqlite.like (Some 92) (SecurityManager.sanitize_sql_like q) a)
                 (Sqlite.like (Some 92) (SecurityManager.sanitize_sql_like q) b)
  = Ok (nocase_occurs q (Sqlite.c_string a) || nocase_occurs q (Sqlite.c_string b)).
Proof.
  intros Hq Hn Hlen. rewrite !like_within by assumption.
  rewrite (c_string_nul_free _ (sanitize_sql_like_nul_free q Hn)).
  rewrite !like_sanitized by assumption. unfold Sqlite.or_else.
  now destruct (nocase_occurs q (Sqlite.c_string a)).
Qed.




Lemma like_quoted_plain (tag s : str) :
  ~ In 37 tag -> ~ In 95 tag ->
  Sqlite.like_match None ([37; 34] ++ tag ++ [34; 37]) s
  = nocase_occurs ([34] ++ tag ++ [34]) s.
Proof.
  intros H1 H2. unfold Sqlite.like_match.
  assert (HX : forall c, In c ([34] ++ tag ++ [34]) -> c = 34 \/ In c tag).
  { intros c Hin. apply in_app_or in Hin as [[Hin|[]]|Hin]; [now left|].
    apply in_app_or in Hin as [Hin|[Hin|[]]]; [now right | now left]. }
  replace ([37; 34] ++ tag ++ [34; 37])
    with (37 :: (([34] ++ tag ++ [34]) ++ [37]))
    by (simpl; now rewrite <- app_assoc).
  cbn [Sqlite.like_tokens].
  assert (E37 : (37 =? 37) = true) by reflexivity. rewrite E37.
  rewrite like_tokens_plain.
  - apply tok_match_lits_occurs.
  - intros Hin. apply HX in Hin as [Hin|Hin]; [discriminate | tauto].
  - intros Hin. apply HX in Hin as [Hin|Hin]; [discriminate | tauto].
Qed.

Lemma quoted_pattern_encodable (tag : str) :
  Sqlite.encodable tag = true -> Sqlite.encodable ([37; 34] ++ tag ++ [34; 37]) = true.
Proof. intros H. now rewrite !encodable_app, H. Qed.

Lemma quoted_pattern_nul_free (tag : str) :
  nul_free tag -> nul_free ([37; 34] ++ tag ++ [34; 37]).
Proof.
  intros H. apply nul_free_app. split; [intros [E|[E|[]]]; discriminate|].
  apply nul_free_app. split; [assumption|]. intros [E|[E|[]]]; discriminate.
Qed.

(** The rows one tag selects, when its pattern can be bound and is within
    the limit of the engine. *)
Lemma uzun_getir_tag_ok (tag : str) (limit : Z) (d : db) :
  0 <= limit < 2 ^ 63 ->
  Sqlite.encodable tag = true ->
  utf8_length ([37; 34] ++ tag ++ [34; 37]) <= 50000 ->
  uzun_getir_tag tag limit d
  = Ok (firstn (Z.to_nat limit)
          (Sqlite.order_by (Sqlite.desc u_onem)
             (filter (fun r => Sqlite.like_match None
                                 (Sqlite.c_string ([37; 34] ++ tag ++ [34; 37]))
                                 (Sqlite.c_string (u_etiketler r)))
                     (uzun_sureli d)))).
Proof.
  intros Hlim Henc Hlen. unfold uzun_getir_tag.
  rewrite (bind_text_ok _ (quoted_pattern_encodable tag Henc)).
  rewrite bind_int_ok by lia.
  destruct (Z.eqb_spec limit 0) as [->|Hz]; [reflexivity|].
  rewrite (where_ok _ (fun r => Sqlite.like_match None
                                  (Sqlite.c_string ([37; 34] ++ tag ++ [34; 37]))
                                  (Sqlite.c_string (u_etiketler r)))).
  - now rewrite limit_nonneg by lia.
  - intros r _. now apply like_within.
Qed.

Lemma uzun_getir_tags_ok (rows_of : str -> list uzun_row) (etiketler : list str)
    (limit : Z) (d : db) :
  (forall tag, In tag etiketler -> uzun_getir_tag tag limit d = Ok (rows_of tag)) ->
  uzun_getir_tags etiketler limit d = Ok (flat_map rows_of etiketler).
Proof.
  induction etiketler as [|tag rest IH]; intros H; [reflexivity|].
  cbn [uzun_getir_tags flat_map]. rewrite (H tag (or_introl eq_refl)).
  rewrite IH; [reflexivity|]. intros x Hx. apply H. now right.
Qed.

(** C7, amended.  For each requested tag, in the order requested,
    [uzun_getir] yields the entries whose serialized tags match the pattern
    made of the tag between double quotes and between wildcards, both read
    up to their first U+0000, when UTF-8 can encode the tag and the pattern
    takes at most 50000 bytes: for a tag without [%], [_] and U+0000, the
    entries whose serialized tags hold the quoted tag up to the case of
    ASCII letters.  Each tag's rows come by importance descending, the
    first [limit] of them at most. *)
Theorem uzun_getir_quoted_tag (etiketler : list str) (limit : Z) (d : db) :
  etiketler <> [] -> 0 <= limit < 2 ^ 63 ->
  (forall tag, In tag etiketler ->
     Sqlite.encodable tag = true
     /\ utf8_length ([37; 34] ++ tag ++ [34; 37]) <= 50000) ->
  exists rows_of : str -> list uzun_row,
    uzun_getir None etiketler limit d = (Ok (flat_map rows_of etiketler), d)
    /\ forall tag, In tag etiketler ->
         (exists sorted,
            Permutation sorted
              (filter (fun r => Sqlite.like_match None
                                  (Sqlite.c_string ([37; 34] ++ tag ++ [34; 37]))
                                  (Sqlite.c_string (u_etiketler r)))
                      (uzun_sureli d))
            /\ sorted_desc u_onem sorted
            /\ rows_of tag = firstn (Z.to_nat limit) sorted
            /\ uzun_getir_tag tag limit d = Ok (rows_of tag)
            /\ Z.of_nat (List.length (rows_of tag)) <= limit)
         /\ (~ In 37 tag -> ~ In 95 tag -> nul_free tag ->
             forall s,
               Sqlite.like_match None (Sqlite.c_string ([37; 34] ++ tag ++ [34; 37])) s
               = nocase_occurs ([34] ++ tag ++ [34]) s).
Proof.
  intros Hne Hlim Htags.
  exists (fun tag =>
            firstn (Z.to_nat limit)
              (Sqlite.order_by (Sqlite.desc u_onem)
                 (filter (fun r => Sqlite.like_match None
                                     (Sqlite.c_string ([37; 34] ++ tag ++ [34; 37]))
                                     (Sqlite.c_string (u_etiketler r)))
                         (uzun_sureli d)))).
  split.
  - unfold uzun_getir, get_cursor. destruct etiketler as [|t ts]; [contradiction|].
    rewrite (uzun_getir_tags_ok
               (fun tag =>
                  firstn (Z.to_nat limit)
                    (Sqlite.order_by (Sqlite.desc u_onem)
                       (filter (fun r => Sqlite.like_match None
                                           (Sqlite.c_string ([37; 34] ++ tag ++ [34; 37]))
                                           (Sqlite.c_string (u_etiketler r)))
                               (uzun_sureli d))))); [reflexivity|].
    intros tag Hin. destruct (Htags tag Hin) as [Henc Hlen].
    now apply uzun_getir_tag_ok.
  - intros tag Hin. destruct (Htags tag Hin) as [Henc Hlen]. split.
    + eexists. split; [apply order_by_perm|]. split; [apply order_by_desc_sorted|].
      split; [reflexivity|]. split; [now apply uzun_getir_tag_ok|].
      rewrite length_firstn. lia.
    + intros H1 H2 Hnul s.
      rewrite (c_string_nul_free _ (quoted_pattern_nul_free tag Hnul)).
      now apply like_quoted_plain.
Qed.

Lemma uzun_getir_quoted_tag_witness :
  exists r, fst (uzun_getir None [u "errand"] 50 milk_db) = Ok [r]
            /\ u_icerik r = u "buy milk".
Proof.
  assert (Hne : [u "errand"] <> []) by discriminate.
  assert (Hlim : 0 <= 50 < 2 ^ 63) by (split; [lia | reflexivity]).
  assert (Htags : forall tag, In tag [u "errand"] ->
                    Sqlite.encodable tag = true
                    /\ utf8_length ([37; 34] ++ tag ++ [34; 37]) <= 50000).
  { intros tag [<-|[]]. split; [reflexivity | vm_compute; discriminate]. }
  destruct (uzun_getir_quoted_tag [u "errand"] 50 milk_db Hne Hlim Htags)
    as [rows_of [E H]].
  destruct (H (u "errand") (or_introl eq_refl)) as [[sorted [Hp [_ [Er _]]]] _].
  rewrite E. cbn [fst flat_map]. rewrite Er, app_nil_r.
  vm_compute in Hp. apply Permutation_sym, Permutation_length_1_inv in Hp.
  subst sorted. eexists. split; reflexivity.
Defined.

(** C7 as stated fails: the serialized tags of an entry tagged [posix]
    hold [os], and the tag [os] does not select the entry; a tag is read up
    to its first U+0000, so that the tag made of a closing bracket, U+0000
    and [x] selects an entry whose serialized tags do not hold it; and a
    tag whose pattern takes more than 50000 bytes, or that UTF-8 cannot
    encode, makes [uzun_getir] raise. *)
Lemma uzun_getir_counterexample :
  (exists r, uzun_sureli posix_db = [r]
             /\ u_etiketler r = Json.dumps_list [u "posix"]
             /\ occurs_in (u "os") (u_etiketler r)
             /\ uzun_getir None [u "os"] 50 posix_db = (Ok [], posix_db))
  /\ (exists r, uzun_getir None [[93; 0; 120]] 50 posix_db = (Ok [r], posix_db)
                /\ ~ occurs_in [93; 0; 120] (u_etiketler r))
  /\ uzun_getir None [repeat 97 (Z.to_nat 49997)] 50 posix_db
     = (Raise OperationalError, posix_db)
  /\ (exists e, uzun_getir None [[56448]] 50 posix_db = (Raise e, posix_db)).
Proof.
  split; [|split; [|split]].
  - eexists. split; [reflexivity|]. split; [reflexivity|]. split; [|reflexivity].
    apply occursb_spec. reflexivity.
  - eexists. split; [reflexivity|].
    intros H. apply occursb_spec in H. vm_compute in H. discriminate.
  - assert (Hn : Z.of_nat (Z.to_nat 49997) = 49997) by (apply Z2Nat.id; lia).
    remember (Z.to_nat 49997) as n eqn:En. clear En.
    unfold uzun_getir, get_cursor. cbn [uzun_getir_tags]. unfold uzun_getir_tag.
    rewrite bind_text_ok.
    + change (Sqlite.bind_int 50) with (Ok (A := Z) 50).
      change (50 =? 0) with false. cbv iota.
      change (uzun_sureli posix_db) with
        [{| u_id := u "9c1d"; u_icerik := u "shell notes"; u_metadata := u "{}";
            u_etiketler := Json.dumps_list [u "posix"]; u_onem := 5;
            u_erisim_sayisi := 0; u_son_erisim := 1000; u_olusturma := 1000 |}].
      rewrite (where_raise _ OperationalError); [reflexivity|].
      cbv beta. rewrite like_too_long; [reflexivity|].
      rewrite !utf8_length_app, utf8_length_repeat_ascii by lia.
      change (utf8_length [37; 34]) with 2. change (utf8_length [34; 37]) with 2. lia.
    + apply quoted_pattern_encodable, encodable_below, Forall_forall.
      intros c Hc. apply repeat_spec in Hc. subst c. lia.
  - eexists. reflexivity.
Qed.

(** [json.dumps] writes ASCII characters other than U+0000 only, so its
    result can always be bound, and LIKE reads it to its end. *)
Lemma hex_digit_ascii (n : Z) : 0 < Json.hex_digit (n mod 16) < 128.
Proof.
  pose proof (Z.mod_pos_bound n 16 ltac:(lia)) as H. unfold Json.hex_digit.
  destruct (n mod 16 <? 10); lia.
Qed.

Lemma hex4_ascii (n : Z) : Forall (fun c => 0 < c < 128) (Json.hex4 n).
Proof.
  unfold Json.hex4. repeat constructor; apply hex_digit_ascii.
Qed.

Lemma escape_char_ascii (c : Z) : Forall (fun x => 0 < x < 128) (Json.escape_char c).
Proof.
  unfold Json.escape_char.
  repeat match goal with
         | |- context [if ?b then _ else _] => destruct b eqn:?
         end;
    repeat (apply Forall_app; split); try apply hex4_ascii;
    repeat constructor; lia.
Qed.

Lemma dumps_str_ascii (s : str) : Forall (fun x => 0 < x < 128) (Json.dumps_str s).
Proof.
  unfold Json.dumps_str. apply Forall_app. split; [repeat constructor; lia|].
  apply Forall_app. split; [|repeat constructor; lia].
  apply Forall_forall. intros x Hx. apply in_flat_map in Hx as [c [_ Hx]].
  exact (proj1 (Forall_forall _ _) (escape_char_ascii c) x Hx).
Qed.

Lemma join_ascii (sep : str) (l : list str) :
  Forall (fun x => 0 < x < 128) sep ->
  Forall (Forall (fun x => 0 < x < 128)) l ->
  Forall (fun x => 0 < x < 128) (Json.join sep l).
Proof.
  intros Hs. induction l as [|a l IH]; intros H; [constructor|].
  inversion H as [|? ? Ha Hl]; subst. destruct l as [|b l]; [exact Ha|].
  change (Json.join sep (a :: b :: l)) with (a ++ sep ++ Json.join sep (b :: l)).
  apply Forall_app. split; [assumption|]. apply Forall_app. split; [assumption|].
  now apply IH.
Qed.

Lemma dumps_list_ascii (l : list str) : Forall (fun x => 0 < x < 128) (Json.dumps_list l).
Proof.
  unfold Json.dumps_list. apply Forall_app. split; [repeat constructor; lia|].
  apply Forall_app. split; [|repeat constructor; lia].
  apply join_ascii; [repeat constructor; lia|].
  apply Forall_forall. intros s Hs. apply in_map_iff in Hs as [x [<- _]].
  apply dumps_str_ascii.
Qed.

Lemma ascii_encodable (s : str) :
  Forall (fun x => 0 < x < 128) s -> Sqlite.encodable s = true.
Proof.
  intros H. apply encodable_below. eapply Forall_impl; [|exact H].
  intros c Hc. cbv beta in Hc. lia.
Qed.

Lemma ascii_nul_free (s : str) : Forall (fun x => 0 < x < 128) s -> nul_free s.
Proof.
  intros H Hin. pose proof (proj1 (Forall_forall _ _) H 0 Hin) as Hc.
  cbv beta in Hc. lia.
Qed.

Lemma ascii_utf8_length (s : str) :
  Forall (fun x => 0 < x < 128) s -> utf8_length s = Z.of_nat (List.length s).
Proof.
  induction 1 as [|c s Hc Hs IH]; [reflexivity|].
  cbn [utf8_length fold_right]. fold (utf8_length s). rewrite IH.
  change (List.length (c :: s)) with (S (List.length s)).
  destruct (Z.ltb_spec c 128); lia.
Qed.

Lemma dumps_list_encodable (l : list str) :
  Sqlite.encodable (Json.dumps_list l) = true.
Proof. apply ascii_encodable, dumps_list_ascii. Qed.

Lemma c_string_split (s : str) :
  nul_free (Sqlite.c_string s) /\ exists rest, s = Sqlite.c_string s ++ rest.
Proof.
  induction s as [|c s [IH1 [rest IH2]]]; [split; [intros [] | now exists []]|].
  cbn [Sqlite.c_string]. destruct (Z.eqb_spec c 0) as [->|N].
  - split; [intros [] | now exists (0 :: s)].
  - split.
    + intros [E|Hin]; [congruence | now apply IH1].
    + exists rest. cbn [app]. now rewrite <- IH2.
Qed.

Lemma existsb_fresh {A : Type} (key : A -> str) (id : str) (rows : list A) :
  (forall r, In r rows -> key r <> id) ->
  existsb (fun r => str_eqb (key r) id) rows = false.
Proof.
  intros Hfresh. destruct (existsb _ _) eqn:X; [|reflexivity].
  apply existsb_exists in X as [r [Hr Heq]]. apply str_eqb_eq in Heq.
  now destruct (Hfresh r Hr).
Qed.

(** C5.  An importance outside [1,10] makes [uzun_ekle] raise [ValueError]
    (the InvalidArgument) before the unit of work is opened: the store is
    unchanged, whatever the state of the storage.  An importance within
    [1,10], with a content UTF-8 can encode (as the id and the serialized
    metadata are), a fresh id and a healthy storage, inserts the row and
    returns its id. *)
Theorem uzun_ekle_importance_range (uuid4 : str) (now : timestamp) (fault : option exn)
    (icerik : str) (etiketler : list str) (onem : Z) (meta_json : str) (d : db) :
  ((onem < 1 \/ 10 < onem) ->
   uzun_ekle uuid4 now fault icerik etiketler onem meta_json d
   = (Raise (ValueError (u "Önem 1-10 arası olmalı")), d))
  /\ (1 <= onem <= 10 ->
      bindable [uuid4; icerik; meta_json] ->
      (forall r, In r (uzun_sureli d) -> u_id r <> uuid4) ->
      exists r,
        uzun_ekle uuid4 now None icerik etiketler onem meta_json d
        = (Ok uuid4, set_uzun_sureli (uzun_sureli d ++ [r]) d)
        /\ u_id r = uuid4 /\ u_icerik r = icerik /\ u_onem r = onem
        /\ u_etiketler r = Json.dumps_list etiketler /\ u_olusturma r = now).
Proof.
  unfold uzun_ekle. split.
  - intros H.
    assert (E : (1 <=? onem) && (onem <=? 10) = false).
    { apply andb_false_iff. rewrite Z.leb_gt, Z.leb_gt. lia. }
    now rewrite E.
  - intros H Hbind Hfresh. bindable_hyps.
    assert (E : (1 <=? onem) && (onem <=? 10) = true).
    { apply andb_true_iff. rewrite !Z.leb_le. lia. }
    unfold get_cursor. rewrite E. cbn [negb].
    rewrite !bind_text_ok by (assumption || apply dumps_list_encodable).
    rewrite bind_int_ok by lia.
    rewrite (existsb_fresh u_id uuid4 _ Hfresh). rewrite E. cbn [negb].
    eexists. split; [reflexivity|]. repeat split.
Qed.

Lemma uzun_ekle_importance_range_witness :
  uzun_ekle (u "3f2a") 1000 (Some OperationalError) (u "buy milk") [u "errand"] 11
    (u "{}") empty_db
  = (Raise (ValueError (u "Önem 1-10 arası olmalı")), empty_db)
  /\ exists r,
       uzun_ekle (u "3f2a") 1000 None (u "buy milk") [u "errand"] 7 (u "{}") empty_db
       = (Ok (u "3f2a"), set_uzun_sureli [r] empty_db)
       /\ u_onem r = 7.
Proof.
  split.
  - apply (uzun_ekle_importance_range (u "3f2a") 1000 (Some OperationalError)
             (u "buy milk") [u "errand"] 11 (u "{}") empty_db). lia.
  - destruct (uzun_ekle_importance_range (u "3f2a") 1000 None
                (u "buy milk") [u "errand"] 7 (u "{}") empty_db) as [_ H].
    destruct H as [r [E [_ [_ [Ho _]]]]].
    + lia.
    + repeat constructor.
    + intros r [].
    + exists r. split; [exact E | exact Ho].
Defined.

(** ** DatabaseManager: short-term memory *)




(** ** DatabaseManager: tasks *)

Lemma map_id_when {A : Type} (f : A -> A) (l : list A) :
  (forall x, In x l -> f x = x) -> map f l = l.
Proof.
  induction l as [|x l IH]; intros H; simpl; [reflexivity|].
  rewrite (H x (or_introl eq_refl)), IH; [reflexivity|].
  intros y Hy. apply H. now right.
Qed.

Lemma filter_all {A : Type} (f : A -> bool) (l : list A) :
  (forall x, In x l -> f x = true) -> filter f l = l.
Proof.
  induction l as [|x l IH]; intros H; simpl; [reflexivity|].
  rewrite (H x (or_introl eq_refl)), IH; [reflexivity|].
  intros y Hy. apply H. now right.
Qed.

Lemma set_gorevler_same (d : db) : set_gorevler (gorevler d) (seq_gorevler d) d = d.
Proof. now destruct d. Qed.

(** C10, amended.  For a task id from -2^63 to 2^63-1 that no stored task
    carries, [gorev_tamamla] and [gorev_sil] return normally and leave the
    store as it was; what they return is what they return for an id that is
    stored, so the caller cannot tell that the id was missing.  An id
    outside that range cannot be bound: both methods raise [OverflowError]
    and leave the store as it was. *)
Theorem gorev_unknown_id (now : timestamp) (id : Z) (d : db) :
  (forall r, In r (gorevler d) -> g_id r <> id) ->
  (- 2 ^ 63 <= id < 2 ^ 63 ->
   gorev_tamamla now None id d = (Ok tt, d)
   /\ gorev_sil None id d = (Ok tt, d)
   /\ (forall d', fst (gorev_tamamla now None id d') = Ok tt
                  /\ fst (gorev_sil None id d') = Ok tt))
  /\ (~ - 2 ^ 63 <= id < 2 ^ 63 ->
      gorev_tamamla now None id d = (Raise OverflowError, d)
      /\ gorev_sil None id d = (Raise OverflowError, d)).
Proof.
  intros Hnone. unfold gorev_tamamla, gorev_sil, get_cursor. split; intros Hid.
  - rewrite bind_int_ok by assumption. split; [|split].
    + rewrite map_id_when; [now rewrite set_gorevler_same|].
      intros r Hr. destruct (Z.eqb_spec (g_id r) id) as [E|E]; [|reflexivity].
      now destruct (Hnone r Hr).
    + rewrite filter_all; [now rewrite set_gorevler_same|].
      intros r Hr. destruct (Z.eqb_spec (g_id r) id) as [E|E]; [|reflexivity].
      now destruct (Hnone r Hr).
    + intros d'. split; reflexivity.
  - assert (E : Sqlite.in_int64 id = false).
    { unfold Sqlite.in_int64. apply andb_false_iff.
      rewrite Z.leb_gt, Z.ltb_ge. lia. }
    unfold Sqlite.bind_int. rewrite E. split; reflexivity.
Qed.

Lemma gorev_unknown_id_witness :
  gorev_tamamla 2000 None 7 one_task_db = (Ok tt, one_task_db)
  /\ gorev_sil None 7 one_task_db = (Ok tt, one_task_db).
Proof.
  set (d := one_task_db).
  assert (Hid : - 2 ^ 63 <= 7 < 2 ^ 63) by (split; [discriminate | reflexivity]).
  assert (Hnone : forall r, In r (gorevler d) -> g_id r <> 7).
  { intros r [<-|[]]. discriminate. }
  destruct (gorev_unknown_id 2000 7 d Hnone) as [H _].
  destruct (H Hid) as [H1 [H2 _]].
  split; [exact H1 | exact H2].
Defined.

(** C10 as stated fails: 2^63 is the id of no stored task, and both
    methods raise on it, because the id cannot be bound as an INTEGER. *)
Lemma gorev_unknown_id_counterexample :
  (forall r, In r (gorevler one_task_db) -> g_id r <> 2 ^ 63)
  /\ gorev_tamamla 2000 None (2 ^ 63) one_task_db = (Raise OverflowError, one_task_db)
  /\ gorev_sil None (2 ^ 63) one_task_db = (Raise OverflowError, one_task_db).
Proof.
  split; [|split].
  - intros r [<-|[]]. discriminate.
  - reflexivity.
  - reflexivity.
Qed.

(** ** DatabaseManager: sessions and messages *)








(** ** DatabaseManager: learned answers *)

Section OgrenProperties.

Variable lower : str -> str.

Lemma ogren_fault (now : timestamp) (e : exn) (soru yanit : str) (d : db) :
  ogren lower now (Some e) soru yanit d = (false, d).
Proof. reflexivity. Qed.

Lemma ogren_ok (now : timestamp) (soru yanit : str) (d : db) :
  Sqlite.encodable (normalize lower soru) = true ->
  Sqlite.encodable yanit = true ->
  ogren lower now None soru yanit d
  = (true, insert_or_replace_ogrenilen (normalize lower soru) yanit now d).
Proof.
  intros H1 H2. unfold ogren, get_cursor. now rewrite !bind_text_ok by assumption.
Qed.

Lemma ogren_stores (c : ogren_call) (d : db) :
  stores lower c = true ->
  ogren lower (c_now c) (c_fault c) (c_soru c) (c_yanit c) d
  = (true, insert_or_replace_ogrenilen (normalize lower (c_soru c)) (c_yanit c)
             (c_now c) d).
Proof.
  unfold stores. destruct (c_fault c); [discriminate|]. intros H.
  apply andb_true_iff in H as [H1 H2]. now apply ogren_ok.
Qed.

Lemma ogren_not_stores (c : ogren_call) (d : db) :
  stores lower c = false ->
  ogren lower (c_now c) (c_fault c) (c_soru c) (c_yanit c) d = (false, d).
Proof.
  unfold stores, ogren, get_cursor. destruct (c_fault c); [reflexivity|]. intros H.
  unfold Sqlite.bind_text.
  destruct (Sqlite.encodable (normalize lower (c_soru c))); [|reflexivity].
  cbn [andb] in H. now rewrite H.
Qed.

Lemma filter_key_replaced (k yanit : str) (now : timestamp) (d : db) :
  filter (fun r => str_eqb (l_soru r) k)
         (ogrenilen (insert_or_replace_ogrenilen k yanit now d))
  = [{| l_id := Sqlite.next_rowid (seq_ogrenilen d) (map l_id (ogrenilen d));
        l_soru := k; l_yanit := yanit; l_olusturma := now |}].
Proof.
  unfold insert_or_replace_ogrenilen. simpl.
  rewrite filter_app. simpl. rewrite str_eqb_refl.
  replace (filter _ (filter _ (ogrenilen d))) with (@nil ogrenilen_row); [reflexivity|].
  induction (ogrenilen d) as [|r l IH]; simpl; [reflexivity|].
  destruct (str_eqb (l_soru r) k) eqn:E; simpl; [assumption|].
  now rewrite E.
Qed.

Lemma filter_key_other (k k' yanit : str) (now : timestamp) (d : db) :
  k' <> k ->
  filter (fun r => str_eqb (l_soru r) k)
         (ogrenilen (insert_or_replace_ogrenilen k' yanit now d))
  = filter (fun r => str_eqb (l_soru r) k) (ogrenilen d).
Proof.
  intros Hne. unfold insert_or_replace_ogrenilen. simpl.
  rewrite filter_app. simpl.
  assert (E : str_eqb k' k = false) by now apply str_eqb_neq.
  rewrite E, app_nil_r.
  induction (ogrenilen d) as [|r l IH]; simpl; [reflexivity|].
  destruct (str_eqb (l_soru r) k') eqn:E1; simpl.
  - apply str_eqb_eq in E1. rewrite E1, E. assumption.
  - destruct (str_eqb (l_soru r) k); [now f_equal | assumption].
Qed.

Lemma insert_or_replace_unique (k yanit : str) (now : timestamp) (d : db) :
  NoDup (map l_soru (ogrenilen d)) ->
  NoDup (map l_soru (ogrenilen (insert_or_replace_ogrenilen k yanit now d))).
Proof.
  intros H. unfold insert_or_replace_ogrenilen. simpl.
  rewrite map_app. simpl.
  assert (Hnd : NoDup (map l_soru
                         (filter (fun r => negb (str_eqb (l_soru r) k)) (ogrenilen d)))).
  { induction (ogrenilen d) as [|r l IH]; simpl; [constructor|].
    inversion H as [|? ? Hnot Hrest]; subst.
    destruct (str_eqb (l_soru r) k); simpl; [now apply IH|].
    constructor; [|now apply IH].
    intros Hin. apply Hnot. apply in_map_iff in Hin as [r' [E Hr']].
    apply filter_In in Hr' as [Hr' _]. apply in_map_iff. eauto. }
  apply (Permutation_NoDup (Permutation_cons_append _ k)).
  constructor; [|assumption].
  rewrite in_map_iff. intros [r [E Hr]].
  apply filter_In in Hr as [_ Hr]. rewrite E, str_eqb_refl in Hr. discriminate.
Qed.

Lemma ogren_all_unique (calls : list ogren_call) (d : db) :
  NoDup (map l_soru (ogrenilen d)) ->
  NoDup (map l_soru (ogrenilen (ogren_all lower calls d))).
Proof.
  revert d. induction calls as [|c calls IH]; intros d H; [assumption|].
  apply IH. cbv beta. destruct (stores lower c) eqn:S.
  - rewrite (ogren_stores c d S). now apply insert_or_replace_unique.
  - now rewrite (ogren_not_stores c d S).
Qed.

Lemma ogren_all_last_taught (k : str) (calls : list ogren_call) (d : db) :
  match last_taught lower k calls with
  | Some a =>
      map l_yanit (filter (fun r => str_eqb (l_soru r) k)
                          (ogrenilen (ogren_all lower calls d))) = [a]
  | None =>
      filter (fun r => str_eqb (l_soru r) k) (ogrenilen (ogren_all lower calls d))
      = filter (fun r => str_eqb (l_soru r) k) (ogrenilen d)
  end.
Proof.
  revert d. induction calls as [|c calls IH]; intros d; [reflexivity|].
  simpl last_taught.
  change (ogren_all lower (c :: calls) d)
    with (ogren_all lower calls
            (snd (ogren lower (c_now c) (c_fault c) (c_soru c) (c_yanit c) d))).
  specialize (IH (snd (ogren lower (c_now c) (c_fault c) (c_soru c) (c_yanit c) d))).
  destruct (last_taught lower k calls) as [a|]; [assumption|].
  rewrite IH. destruct (stores lower c) eqn:S.
  - rewrite (ogren_stores c d S). cbn [snd andb].
    destruct (str_eqb (normalize lower (c_soru c)) k) eqn:E.
    + apply str_eqb_eq in E. rewrite E, filter_key_replaced. reflexivity.
    + apply str_eqb_neq in E. now apply filter_key_other.
  - now rewrite (ogren_not_stores c d S).
Qed.

End OgrenProperties.

(** C4.  [ogren] stores the answer under the question lower-cased and then
    trimmed, replacing the row that holds the same key: after any sequence
    of calls on a table with one row per key, there is still one row per
    key at most, and the row of a key holds the answer of the latest call
    that stored it.  A call stores its pair when the storage is healthy and
    UTF-8 can encode the key and the answer, and then returns [True]; every
    other call, the call that meets a storage failure among them, returns
    [False] and leaves the store as it was; a call never raises.  Teaching
    ["2+2"] the answer ["4"] and then ["5"] leaves one row, with answer
    ["5"]. *)
Theorem ogren_upsert (lower : str -> str) (calls : list ogren_call) (d : db) :
  NoDup (map l_soru (ogrenilen d)) ->
  NoDup (map l_soru (ogrenilen (ogren_all lower calls d)))
  /\ (forall k a,
        last_taught lower k calls = Some a ->
        map l_yanit (filter (fun r => str_eqb (l_soru r) k)
                            (ogrenilen (ogren_all lower calls d))) = [a])
  /\ (forall c d0,
        (stores lower c = true ->
         exists r,
           ogren lower (c_now c) (c_fault c) (c_soru c) (c_yanit c) d0
           = (true, set_ogrenilen
                      (filter (fun r => negb (str_eqb (l_soru r)
                                                (strip (lower (c_soru c)))))
                              (ogrenilen d0) ++ [r])
                      (l_id r) d0)
           /\ l_soru r = strip (lower (c_soru c)) /\ l_yanit r = c_yanit c)
        /\ (stores lower c = false ->
            ogren lower (c_now c) (c_fault c) (c_soru c) (c_yanit c) d0 = (false, d0)))
  /\ (forall now e soru yanit d0, ogren lower now (Some e) soru yanit d0 = (false, d0))
  /\ (exists r,
        ogrenilen (ogren_all ascii_lower
                     [ {| c_now := 1000; c_fault := None;
                          c_soru := u "2+2"; c_yanit := u "4" |};
                       {| c_now := 2000; c_fault := None;
                          c_soru := u "2+2"; c_yanit := u "5" |} ] empty_db) = [r]
        /\ l_soru r = u "2+2" /\ l_yanit r = u "5").
Proof.
  intros H. split; [|split; [|split; [|split]]].
  - now apply ogren_all_unique.
  - intros k a Ha. pose proof (ogren_all_last_taught lower k calls d) as L.
    now rewrite Ha in L.
  - intros c d0. split; intros S.
    + exists {| l_id := Sqlite.next_rowid (seq_ogrenilen d0) (map l_id (ogrenilen d0));
                l_soru := strip (lower (c_soru c)); l_yanit := c_yanit c;
                l_olusturma := c_now c |}.
      rewrite (ogren_stores lower c d0 S). split; [reflexivity|]. split; reflexivity.
    + now apply ogren_not_stores.
  - intros. reflexivity.
  - eexists. split; [reflexivity|]. split; reflexivity.
Qed.

Lemma ogren_upsert_witness :
  map l_yanit
    (filter (fun r => str_eqb (l_soru r) (u "capital of france"))
       (ogrenilen
          (ogren_all ascii_lower
             [ {| c_now := 1000; c_fault := None;
                  c_soru := u "capital of france"; c_yanit := u "Lyon" |};
               {| c_now := 2000; c_fault := None;
                  c_soru := u "  Capital of France "; c_yanit := u "Paris" |};
               {| c_now := 3000; c_fault := Some OperationalError;
                  c_soru := u "Capital of France"; c_yanit := u "Nice" |};
               {| c_now := 4000; c_fault := None;
                  c_soru := u "capital of france"; c_yanit := [56448] |} ]
             empty_db)))
  = [u "Paris"].
Proof.
  assert (H0 : NoDup (map l_soru (ogrenilen empty_db))) by constructor.
  apply (ogren_upsert ascii_lower _ empty_db H0).
  reflexivity.
Defined.

(** ** CommandManager *)

Import CommandManager.

Lemma strip_or_empty_strip (x : str) : strip_or_empty x = strip x.
Proof. now destruct x. Qed.

(** C8, amended.  [powershell] returns the first 2000 characters of the
    stripped standard output of a process that exits with code 0, and for
    any other exit code the text [Hata (kod N): ] followed by the first 200
    characters of the stripped standard error, as a normal result.
    [opencode] does not look at the exit code: it returns the first 1500
    characters of the standard output followed by the standard error, or
    [Sonuç yok] when both are empty. *)
Theorem command_output_truncation (exception_text : exn -> str)
    (ps_timeout opencode_timeout : Z) (opencode_cli_path : str)
    (run : list str -> result CompletedProcess)
    (run_input : list str -> str -> result CompletedProcess)
    (cmd cmd_clean : str) (ps oc : CompletedProcess) :
  SecurityManager.sanitize_command cmd = Ok cmd_clean ->
  run [u "powershell"; u "-Command"; cmd_clean] = Ok ps ->
  run_input [opencode_cli_path; u "--yes"] (cmd_clean ++ [10]) = Ok oc ->
  (returncode ps = 0 ->
   powershell exception_text ps_timeout run cmd = firstn 2000 (strip (stdout ps)))
  /\ (returncode ps <> 0 ->
      powershell exception_text ps_timeout run cmd
      = u "Hata (kod " ++ str_of_int (returncode ps) ++ u "): "
          ++ firstn 200 (strip (stderr ps)))
  /\ (List.length (firstn 2000 (strip (stdout ps))) <= 2000)%nat
  /\ (List.length (firstn 200 (strip (stderr ps))) <= 200)%nat
  /\ (stdout oc ++ stderr oc <> [] ->
      opencode exception_text opencode_cli_path opencode_timeout (Ok tt) true
        run_input cmd
      = firstn 1500 (stdout oc ++ stderr oc))
  /\ (stdout oc ++ stderr oc = [] ->
      opencode exception_text opencode_cli_path opencode_timeout (Ok tt) true
        run_input cmd
      = u "Sonuç yok")
  /\ (List.length (firstn 1500 (stdout oc ++ stderr oc)) <= 1500)%nat.
Proof.
  intros Hs Hps Hoc. unfold powershell, opencode.
  rewrite Hs, Hps, Hoc, !strip_or_empty_strip. cbv beta zeta.
  split; [|split; [|split; [|split; [|split; [|split]]]]].
  - intros E. rewrite E. reflexivity.
  - intros E. apply Z.eqb_neq in E. rewrite E. reflexivity.
  - apply firstn_le_length.
  - apply firstn_le_length.
  - intros E. simpl negb. cbv iota.
    destruct (stdout oc ++ stderr oc); [contradiction | reflexivity].
  - intros E. rewrite E. reflexivity.
  - apply firstn_le_length.
Qed.

Lemma command_output_truncation_witness :
  powershell (fun _ => []) 60 (fun _ => Ok boom_process) (u "git status")
  = u "Hata (kod 1): boom"
  /\ opencode (fun _ => []) (u "opencode") 300 (Ok tt) true (fun _ _ => Ok boom_process)
       (u "git status")
     = u "boom".
Proof.
  assert (Hs : SecurityManager.sanitize_command (u "git status") = Ok (u "git status"))
    by reflexivity.
  destruct (command_output_truncation (fun _ => []) 60 300 (u "opencode")
              (fun _ => Ok boom_process) (fun _ _ => Ok boom_process)
              (u "git status") (u "git status") boom_process boom_process
              Hs eq_refl eq_refl) as [_ [H1 [_ [_ [H2 _]]]]].
  split.
  - rewrite H1; [reflexivity | discriminate].
  - rewrite H2; [reflexivity | discriminate].
Defined.

(** C8 as stated fails: [opencode] returns the output of a process that
    exits with code 1 without the code in it; and the 2000 characters
    [powershell] keeps of an output take 4000 bytes. *)
Lemma command_output_counterexample :
  (opencode (fun _ => []) (u "opencode") 300 (Ok tt) true (fun _ _ => Ok boom_process)
     (u "git status") = u "boom"
   /\ returncode boom_process = 1
   /\ ~ occurs_in (str_of_int 1) (u "boom"))
  /\ utf8_length (powershell (fun _ => []) 60 (fun _ => Ok accented_process)
                    (u "git status")) = 4000.
Proof.
  split; [split; [reflexivity | split; [reflexivity|]]|].
  - intros H. apply occursb_spec in H. vm_compute in H. discriminate.
  - vm_compute. reflexivity.
Qed.

(** ** Threads: the lock serializes the units of work *)

Import Threads.

Section LockInvariant.

Context {A : Type}.

Lemma set_nth_split (p x : phase A) (l1 l2 : list (phase A)) :
  set_nth A (List.length l1) p (l1 ++ x :: l2) = l1 ++ p :: l2.
Proof. induction l1 as [|y l1 IH]; simpl; [reflexivity | now rewrite IH]. Qed.

Lemma set_nth_length (t : nat) (p : phase A) (l : list (phase A)) :
  List.length (set_nth A t p l) = List.length l.
Proof.
  revert t. induction l as [|y l IH]; intros [|t]; simpl; try reflexivity.
  now rewrite IH.
Qed.

Lemma nth_error_middle (x : phase A) (l1 l2 : list (phase A)) :
  nth_error (l1 ++ x :: l2) (List.length l1) = Some x.
Proof. induction l1; simpl; [reflexivity | assumption]. Qed.

Lemma nth_error_other (x q : phase A) (l1 l2 : list (phase A)) (t : nat) :
  nth_error (l1 ++ x :: l2) t = Some q -> t <> List.length l1 ->
  In q l1 \/ In q l2.
Proof.
  revert t. induction l1 as [|y l1 IH]; intros [|t]; simpl; intros H Hne.
  - contradiction.
  - right. now apply nth_error_In in H.
  - injection H as <-. left. now left.
  - destruct (IH t H) as [Hin|Hin]; [intros E; apply Hne; now rewrite E| |];
      [left; now right | now right].
Qed.

Lemma replay_app (h1 h2 : list (work A)) (d : db) :
  replay (h1 ++ h2) d = replay h2 (replay h1 d).
Proof. unfold replay. apply fold_left_app. Qed.

Lemma lock_inv_init (d0 : db) (ws : list (work A)) : lock_inv d0 (init d0 ws).
Proof.
  apply inv_free; [reflexivity | | reflexivity].
  simpl. induction ws; simpl; constructor; [exact I | assumption].
Qed.

Lemma step_blocked (t : nat) (s : state A) (q : phase A) (owner : nat) :
  nth_error (threads s) t = Some q -> idle q ->
  lock s = Some (owner, 1%nat) -> owner <> t -> step t s = s.
Proof.
  intros Hq Hidle Hl Hne. unfold step. rewrite Hq.
  destruct q; try contradiction; [|reflexivity].
  rewrite Hl. simpl. apply Nat.eqb_neq in Hne. now rewrite Hne.
Qed.

Lemma lock_inv_step (d0 : db) (t : nat) (s : state A) :
  lock_inv d0 s -> lock_inv d0 (step t s).
Proof.
  intros [Hl Hidle Hc | l1 l2 p h w Hl Ht H1 H2 Hh Hp].
  - (* the lock is free *)
    unfold step. destruct (nth_error (threads s) t) as [q|] eqn:Hq;
      [|now apply inv_free].
    pose proof (nth_error_In _ _ Hq) as Hin.
    pose proof (proj1 (Forall_forall _ _) Hidle q Hin) as Hidleq.
    destruct q; try contradiction; [|now apply inv_free].
    rewrite Hl. simpl.
    apply nth_error_split in Hq as [l1 [l2 [E Hlen]]]. subst t.
    assert (Hall : Forall idle (l1 ++ Waiting w :: l2)) by now rewrite <- E.
    apply Forall_app in Hall as [Ha Hb]. inversion Hb; subst.
    eapply inv_held with (l1 := l1) (l2 := l2) (h := history s) (w := w); simpl;
      try reflexivity; try assumption.
    + rewrite E. apply set_nth_split.
    + now split.
  - (* the lock is held by thread [length l1] *)
    destruct (Nat.eq_dec t (List.length l1)) as [->|Hne].
    + unfold step. rewrite Ht, nth_error_middle.
      destruct p as [w'|w'|r d'|r|r]; try contradiction.
      * destruct Hp as [-> Hc]. destruct (w (committed s)) as [r d'] eqn:Ew.
        eapply inv_held with (l1 := l1) (l2 := l2) (h := h) (w := w); simpl;
          try eassumption.
        -- apply set_nth_split.
        -- rewrite <- Hc. now split.
      * destruct Hp as [Ew Hc].
        eapply inv_held with (l1 := l1) (l2 := l2) (h := h) (w := w); simpl;
          try eassumption.
        -- apply set_nth_split.
        -- rewrite replay_app.
           change (replay [w] (replay h d0)) with (snd (w (replay h d0))).
           rewrite Ew. now split.
      * destruct Hp as [Er Hc]. apply inv_free; simpl.
        -- now rewrite Hl.
        -- rewrite set_nth_split. apply Forall_app. split; [assumption|].
           constructor; [exact I | assumption].
        -- now rewrite Hh.
    + destruct (nth_error (threads s) t) as [q|] eqn:Hq.
      * assert (Hidle : idle q).
        { rewrite Ht in Hq. destruct (nth_error_other _ _ _ _ _ Hq Hne) as [Hin|Hin];
            [rewrite Forall_forall in H1; now apply H1
            |rewrite Forall_forall in H2; now apply H2]. }
        rewrite (step_blocked t s q (List.length l1)); try assumption;
          [|intros E; now apply Hne].
        now apply inv_held with l1 l2 p h w.
      * unfold step. rewrite Hq. now apply inv_held with l1 l2 p h w.
Qed.

Lemma lock_inv_run (d0 : db) (schedule : list nat) (s : state A) :
  lock_inv d0 s -> lock_inv d0 (run schedule s).
Proof.
  revert s. induction schedule as [|t schedule IH]; intros s H; [assumption|].
  apply IH. now apply lock_inv_step.
Qed.

End LockInvariant.

Section Transitions.

Context {A : Type}.

(** A turn of the scheduler is one of the transitions. *)
Lemma step_transition (d0 : db) (t : nat) (s : state A) :
  lock_inv d0 s -> transition s (step t s).
Proof.
  intros [Hl Hidle Hc | l1 l2 p h w Hl Ht H1 H2 Hh Hp].
  - unfold step. destruct (nth_error (threads s) t) as [q|] eqn:Hq; [|constructor].
    pose proof (nth_error_In _ _ Hq) as Hin.
    pose proof (proj1 (Forall_forall _ _) Hidle q Hin) as Hidleq.
    destruct q; try contradiction; [|constructor].
    rewrite Hl. simpl.
    apply nth_error_split in Hq as [l1 [l2 [E Hlen]]]. subst t.
    rewrite E at 1. rewrite set_nth_split. now apply tr_acquire.
  - destruct (Nat.eq_dec t (List.length l1)) as [->|Hne].
    + unfold step. rewrite Ht, nth_error_middle.
      destruct p as [w'|w'|r d'|r|r]; try contradiction.
      * destruct Hp as [-> Hc]. destruct (w (committed s)) as [r d'] eqn:Ew.
        rewrite set_nth_split. now apply tr_execute with w.
      * destruct Hp as [Ew Hc]. rewrite set_nth_split.
        apply tr_commit with h w; try assumption. now rewrite Hc.
      * rewrite set_nth_split, Hl. simpl. now apply tr_release.
    + destruct (nth_error (threads s) t) as [q|] eqn:Hq.
      * assert (Hidle : idle q).
        { rewrite Ht in Hq. destruct (nth_error_other _ _ _ _ _ Hq Hne) as [Hin|Hin];
            [rewrite Forall_forall in H1; now apply H1
            |rewrite Forall_forall in H2; now apply H2]. }
        rewrite (step_blocked t s q (List.length l1)); try assumption;
          [constructor | intros E; now apply Hne].
      * unfold step. rewrite Hq. constructor.
Qed.

Lemma waiting_works_app (l1 l2 : list (phase A)) :
  waiting_works (l1 ++ l2) = waiting_works l1 ++ waiting_works l2.
Proof. unfold waiting_works. apply flat_map_app. Qed.

(** Every unit of work is either in the history or not yet begun. *)
Lemma transition_works (ws : list (work A)) (s s' : state A) :
  transition s s' ->
  Permutation (history s ++ waiting_works (threads s)) ws ->
  Permutation (history s' ++ waiting_works (threads s')) ws.
Proof.
  intros [ | l1 l2 w Ht Hl | l1 l2 w r d' Ht Ew | l1 l2 r d' h w Ht Hh Ew | l1 l2 r Ht];
    try rewrite Ht; simpl; rewrite ?waiting_works_app; simpl; try easy.
  intros H. rewrite <- H. rewrite <- app_assoc. apply Permutation_app_head.
  simpl. apply Permutation_middle.
Qed.

Lemma transition_length (s s' : state A) :
  transition s s' -> List.length (threads s') = List.length (threads s).
Proof.
  intros [ | l1 l2 w Ht Hl | l1 l2 w r d' Ht Ew | l1 l2 r d' h w Ht Hh Ew | l1 l2 r Ht];
    try rewrite Ht; simpl; rewrite ?length_app; reflexivity.
Qed.

Lemma run_works (d0 : db) (ws : list (work A)) (schedule : list nat) (s : state A) :
  lock_inv d0 s ->
  Permutation (history s ++ waiting_works (threads s)) ws ->
  Permutation (history (run schedule s) ++ waiting_works (threads (run schedule s))) ws.
Proof.
  revert s. induction schedule as [|t schedule IH]; intros s Hinv H; [assumption|].
  apply IH; [now apply lock_inv_step|].
  apply transition_works with s; [now apply step_transition with d0 | assumption].
Qed.

Lemma init_works (d0 : db) (ws : list (work A)) :
  history (init d0 ws) ++ waiting_works (threads (init d0 ws)) = ws.
Proof.
  simpl. induction ws as [|w ws IH]; simpl; [reflexivity | now f_equal].
Qed.

Lemma idle_not_in_section (p : phase A) : idle p -> in_section p -> False.
Proof. now destruct p. Qed.

Lemma finished_idle (l : list (phase A)) : Forall finished l -> Forall idle l.
Proof. apply Forall_impl. now intros []. Qed.

Lemma existsb_idle (l : list (phase A)) :
  Forall idle l ->
  existsb (fun p => match p with Locked _ | Uncommitted _ _ => true | _ => false end) l
  = false.
Proof.
  induction 1 as [|p l Hp Hl IH]; simpl; [reflexivity|].
  rewrite IH. now destruct p.
Qed.

Lemma finished_no_waiting (l : list (phase A)) :
  Forall finished l -> waiting_works l = [].
Proof.
  induction 1 as [|p l Hp Hl IH]; simpl; [reflexivity|].
  destruct p; try contradiction. assumption.
Qed.

(** In every state a schedule leads to: at most one thread is inside its
    unit of work, and it owns the lock; the committed store is the store
    [d0] after the units of work whose commit took effect, applied in the
    order in which they took the lock; each unit of work was begun at most
    once; and when all threads have returned, all of them were applied. *)
Lemma lock_serializes (d0 : db) (ws : list (work A)) (schedule : list nat) :
  (forall i j p q,
      nth_error (threads (run schedule (init d0 ws))) i = Some p ->
      nth_error (threads (run schedule (init d0 ws))) j = Some q ->
      in_section p -> in_section q ->
      i = j /\ lock (run schedule (init d0 ws)) = Some (i, 1%nat))
  /\ committed (run schedule (init d0 ws))
     = replay (settled (run schedule (init d0 ws))) d0
  /\ Permutation (history (run schedule (init d0 ws))
                    ++ waiting_works (threads (run schedule (init d0 ws)))) ws
  /\ (Forall finished (threads (run schedule (init d0 ws))) ->
      committed (run schedule (init d0 ws))
      = replay (history (run schedule (init d0 ws))) d0
      /\ Permutation (history (run schedule (init d0 ws))) ws).
Proof.
  pose proof (lock_inv_run d0 schedule _ (lock_inv_init d0 ws)) as Hinv.
  assert (Hperm : Permutation
                    (history (run schedule (init d0 ws))
                       ++ waiting_works (threads (run schedule (init d0 ws)))) ws).
  { apply run_works with d0; [apply lock_inv_init|]. now rewrite init_works. }
  set (s := run schedule (init d0 ws)) in *.
  assert (Hset : committed s = replay (settled s) d0).
  { unfold settled.
    destruct Hinv as [Hl Hidle Hc | l1 l2 p h w Hl Ht H1 H2 Hh Hp].
    - now rewrite existsb_idle.
    - rewrite Ht, existsb_app. simpl. rewrite !existsb_idle by assumption.
      rewrite Hh. simpl. rewrite orb_false_r.
      destruct p; try contradiction; rewrite ?removelast_last; tauto. }
  split; [|split; [assumption | split; [assumption|]]].
  - intros i j p q Hi Hj Hp Hq.
    destruct Hinv as [Hl Hidle Hc | l1 l2 p0 h w Hl Ht H1 H2 Hh Hp0].
    + exfalso. apply (idle_not_in_section p); [|assumption].
      rewrite Forall_forall in Hidle. apply Hidle. now apply nth_error_In in Hi.
    + assert (Hat : forall k x, nth_error (threads s) k = Some x -> in_section x ->
                                k = List.length l1).
      { intros k x Hk Hx. destruct (Nat.eq_dec k (List.length l1)); [assumption|].
        exfalso. apply (idle_not_in_section x); [|assumption].
        rewrite Ht in Hk. destruct (nth_error_other _ _ _ _ _ Hk n) as [Hin|Hin];
          [rewrite Forall_forall in H1; now apply H1
          |rewrite Forall_forall in H2; now apply H2]. }
      rewrite (Hat i p Hi Hp), (Hat j q Hj Hq). now split.
  - intros Hfin. split.
    + rewrite Hset. unfold settled.
      now rewrite existsb_idle by now apply finished_idle.
    + rewrite finished_no_waiting, app_nil_r in Hperm; assumption.
Qed.

(** *** Every fair schedule lets the threads return *)

Lemma turns_left_split (s : state A) (l1 l2 : list (phase A)) (p : phase A) :
  threads s = l1 ++ p :: l2 ->
  turns_left s
  = (list_sum (map remaining l1) + remaining p + list_sum (map remaining l2))%nat.
Proof.
  intros E. unfold turns_left. rewrite E, map_app, list_sum_app. simpl. lia.
Qed.

Lemma transition_turns (s s' : state A) :
  transition s s' -> s' = s \/ S (turns_left s') = turns_left s.
Proof.
  intros [ | l1 l2 w Ht Hl | l1 l2 w r d' Ht Ew | l1 l2 r d' h w Ht Hh Ew | l1 l2 r Ht];
    [now left | right ..];
    rewrite (turns_left_split s _ _ _ Ht);
    match goal with
    | |- context [turns_left ?x] => rewrite (turns_left_split x l1 l2 _ eq_refl)
    end; simpl; lia.
Qed.

Lemma run_turns_le (d0 : db) (schedule : list nat) (s : state A) :
  lock_inv d0 s -> (turns_left (run schedule s) <= turns_left s)%nat.
Proof.
  revert s. induction schedule as [|t schedule IH]; intros s Hinv; [apply Nat.le_refl|].
  cbn [run fold_left]. fold (run schedule (step t s)).
  specialize (IH (step t s) (lock_inv_step d0 t s Hinv)).
  destruct (transition_turns _ _ (step_transition d0 t s Hinv)) as [E|E].
  - rewrite E in *. exact IH.
  - lia.
Qed.

Lemma step_length (t : nat) (s : state A) :
  List.length (threads (step t s)) = List.length (threads s).
Proof.
  unfold step. destruct (nth_error (threads s) t) as [[w|w|r d'|r|r]|];
    try reflexivity.
  - destruct (acquire t (lock s)); [apply set_nth_length | reflexivity].
  - destruct (w (committed s)). apply set_nth_length.
  - apply set_nth_length.
  - apply set_nth_length.
Qed.

Lemma run_length (schedule : list nat) (s : state A) :
  List.length (threads (run schedule s)) = List.length (threads s).
Proof.
  revert s. induction schedule as [|t schedule IH]; intros s; [reflexivity|].
  cbn [run fold_left]. fold (run schedule (step t s)). now rewrite IH, step_length.
Qed.

Lemma turns_zero_finished (s : state A) :
  turns_left s = 0%nat -> Forall finished (threads s).
Proof.
  unfold turns_left. induction (threads s) as [|p l IH]; intros H; [constructor|].
  change (list_sum (map remaining (p :: l)))
    with (remaining p + list_sum (map remaining l))%nat in H.
  constructor.
  - destruct p; simpl in H; try lia. exact I.
  - apply IH. lia.
Qed.

Lemma idle_pending (l : list (phase A)) :
  Forall idle l -> (0 < list_sum (map remaining l))%nat ->
  exists l1 l2 w, l = l1 ++ Waiting w :: l2.
Proof.
  induction 1 as [|p l Hp Hl IH]; intros H; [simpl in H; lia|].
  change (list_sum (map remaining (p :: l)))
    with (remaining p + list_sum (map remaining l))%nat in H.
  destruct p as [w|w|r d'|r|r]; try contradiction.
  - now exists [], l, w.
  - destruct IH as [l1 [l2 [w E]]]; [simpl in H; lia|].
    exists (Done r :: l1), l2, w. now rewrite E.
Qed.

(** While a thread has not returned, some thread's turn makes a step. *)
Lemma some_turn_advances (d0 : db) (s : state A) :
  lock_inv d0 s -> (0 < turns_left s)%nat ->
  exists t, (t < List.length (threads s))%nat
            /\ (turns_left (step t s) < turns_left s)%nat.
Proof.
  intros Hinv Hpos.
  assert (Hlt : forall l1 l2 (p : phase A),
             (List.length l1 < List.length (l1 ++ p :: l2))%nat).
  { intros. rewrite length_app. simpl. lia. }
  assert (Hadv : forall t, step t s <> s -> (turns_left (step t s) < turns_left s)%nat).
  { intros t Hne. destruct (transition_turns _ _ (step_transition d0 t s Hinv)); [contradiction | lia]. }
  destruct Hinv as [Hl Hidle Hc | l1 l2 p h w Hl Ht H1 H2 Hh Hp].
  - destruct (idle_pending _ Hidle Hpos) as [l1 [l2 [w E]]].
    exists (List.length l1). split; [rewrite E; apply Hlt|].
    unfold step. rewrite E, nth_error_middle, Hl. cbn [acquire].
    rewrite set_nth_split.
    rewrite (turns_left_split s l1 l2 _ E).
    match goal with
    | |- context [turns_left ?x] => rewrite (turns_left_split x l1 l2 _ eq_refl)
    end. simpl. lia.
  - exists (List.length l1). split; [rewrite Ht; apply Hlt|].
    unfold step. rewrite Ht, nth_error_middle.
    destruct p as [w'|w'|r d'|r|r]; try contradiction;
      try destruct (w' (committed s));
      rewrite set_nth_split, (turns_left_split s l1 l2 _ Ht);
      match goal with
      | |- context [turns_left ?x] => rewrite (turns_left_split x l1 l2 _ eq_refl)
      end; simpl; lia.
Qed.

Lemma round_advances (d0 : db) (round : list nat) (t0 : nat) (s : state A) :
  lock_inv d0 s -> In t0 round ->
  (turns_left (step t0 s) < turns_left s)%nat ->
  (turns_left (run round s) < turns_left s)%nat.
Proof.
  revert s. induction round as [|t round IH]; intros s Hinv Hin Hadv; [destruct Hin|].
  cbn [run fold_left]. fold (run round (step t s)).
  pose proof (run_turns_le d0 round (step t s) (lock_inv_step d0 t s Hinv)) as Hle.
  destruct (transition_turns _ _ (step_transition d0 t s Hinv)) as [E|E]; [|lia].
  destruct Hin as [->|Hin]; [rewrite E in Hadv; lia|].
  rewrite E. now apply IH.
Qed.

Lemma fair_rounds_finish (d0 : db) (rounds : list (list nat)) (s : state A) :
  lock_inv d0 s ->
  Forall (fair_round (List.length (threads s))) rounds ->
  (turns_left s <= List.length rounds)%nat ->
  Forall finished (threads (run (List.concat rounds) s)).
Proof.
  revert s. induction rounds as [|round rounds IH]; intros s Hinv Hfair Hn.
  - change (run (List.concat []) s) with s. apply turns_zero_finished.
    cbn [List.length] in Hn. lia.
  - inversion Hfair as [|? ? Hr Hrest]; subst.
    cbn [List.concat]. unfold run. rewrite fold_left_app.
    fold (run round s). fold (run (List.concat rounds) (run round s)).
    apply IH.
    + now apply lock_inv_run.
    + now rewrite run_length.
    + cbn [List.length] in Hn.
      destruct (Nat.eq_dec (turns_left s) 0) as [Z|NZ].
      * pose proof (run_turns_le d0 round s Hinv). lia.
      * destruct (some_turn_advances d0 s Hinv) as [t0 [Ht0 Hadv]]; [lia|].
        pose proof (round_advances d0 round t0 s Hinv (Hr t0 Ht0) Hadv). lia.
Qed.

Lemma turns_left_init (d0 : db) (ws : list (work A)) :
  turns_left (init d0 ws) = (4 * List.length ws)%nat.
Proof.
  unfold turns_left. cbn [threads init]. induction ws as [|w ws IH]; [reflexivity|].
  change (list_sum (map remaining (map Waiting (w :: ws))))
    with (4 + list_sum (map remaining (map Waiting ws)))%nat.
  rewrite IH. cbn [List.length]. lia.
Qed.

(** From the state any schedule has led to, rounds in which every thread
    gets a turn, four for each thread, let all the threads return. *)
Lemma every_schedule_completes (d0 : db) (ws : list (work A)) (schedule : list nat)
    (rounds : list (list nat)) :
  Forall (fair_round (List.length ws)) rounds ->
  (4 * List.length ws <= List.length rounds)%nat ->
  Forall finished (threads (run (schedule ++ List.concat rounds) (init d0 ws))).
Proof.
  intros Hfair Hn. unfold run. rewrite fold_left_app.
  fold (run schedule (init d0 ws)).
  fold (run (List.concat rounds) (run schedule (init d0 ws))).
  pose proof (lock_inv_run d0 schedule _ (lock_inv_init d0 ws)) as Hinv.
  apply fair_rounds_finish with d0; [assumption | |].
  - rewrite run_length. cbn [threads init]. now rewrite length_map.
  - pose proof (run_turns_le d0 schedule _ (lock_inv_init d0 ws)) as Hle.
    rewrite turns_left_init in Hle. lia.
Qed.

End Transitions.

(** ** Threads: concurrent calls of [gorev_ekle] *)

Lemma fold_max_ge (ids : list Z) (x : Z) : In x ids -> x <= fold_right Z.max 0 ids.
Proof.
  induction ids as [|y ids IH]; simpl; [intros []|].
  intros [->|H]; [lia|]. specialize (IH H). lia.
Qed.

Lemma next_rowid_fresh (seq : Z) (ids : list Z) : ~ In (Sqlite.next_rowid seq ids) ids.
Proof.
  intros H. apply fold_max_ge in H. unfold Sqlite.next_rowid in H. lia.
Qed.

Lemma existsb_str_in (x : str) (l : list str) :
  existsb (str_eqb x) l = true <-> In x l.
Proof.
  rewrite existsb_exists. split.
  - intros [y [Hy E]]. apply str_eqb_eq in E. now subst.
  - intros H. exists x. split; [assumption | apply str_eqb_refl].
Qed.

Lemma oncelik_check_encodable (oncelik : str) :
  oncelik_check oncelik = true -> Sqlite.encodable oncelik = true.
Proof.
  intros H. apply existsb_str_in in H.
  repeat (destruct H as [<-|H]; [reflexivity|]). destruct H.
Qed.

Lemma rol_check_encodable (rol : str) :
  rol_check rol = true -> Sqlite.encodable rol = true.
Proof.
  intros H. apply existsb_str_in in H.
  repeat (destruct H as [<-|H]; [reflexivity|]). destruct H.
Qed.

(** [gorev_ekle] on texts the statement can bind, with a priority the
    table accepts. *)
Lemma gorev_ekle_ok (now : timestamp) (baslik aciklama oncelik : str) (d : db) :
  bindable [baslik; aciklama] -> oncelik_check oncelik = true ->
  gorev_ekle now None baslik aciklama oncelik d
  = (Ok (Sqlite.next_rowid (seq_gorevler d) (map g_id (gorevler d))),
     set_gorevler
       (gorevler d ++
          [{| g_id := Sqlite.next_rowid (seq_gorevler d) (map g_id (gorevler d));
              g_baslik := baslik; g_aciklama := aciklama; g_oncelik := oncelik;
              g_durum := u "bekliyor"; g_olusturma := now; g_tamamlanma := None |}])
       (Sqlite.next_rowid (seq_gorevler d) (map g_id (gorevler d))) d).
Proof.
  intros Hb Ho. bindable_hyps. unfold gorev_ekle, get_cursor.
  rewrite !bind_text_ok by (assumption || now apply oncelik_check_encodable).
  now rewrite Ho.
Qed.

Lemma gorev_work_effect (w : work Z) (d : db) :
  is_gorev_work w ->
  exists row,
    w d = (Ok (g_id row), set_gorevler (gorevler d ++ [row]) (g_id row) d)
    /\ ~ In (g_id row) (map g_id (gorevler d)).
Proof.
  intros [q [[Hb Hq] ->]]. unfold gorev_work.
  rewrite (gorev_ekle_ok _ _ _ _ d Hb Hq).
  exists {| g_id := Sqlite.next_rowid (seq_gorevler d) (map g_id (gorevler d));
            g_baslik := r_baslik q; g_aciklama := r_aciklama q;
            g_oncelik := r_oncelik q; g_durum := u "bekliyor";
            g_olusturma := r_now q; g_tamamlanma := None |}.
  split; [reflexivity|]. simpl. apply next_rowid_fresh.
Qed.

Lemma returned_ids_app (l1 l2 : list (phase Z)) :
  returned_ids (l1 ++ l2) = returned_ids l1 ++ returned_ids l2.
Proof. unfold returned_ids. apply flat_map_app. Qed.

Lemma gorev_inv_transition (d0 : db) (s s' : state Z) :
  transition s s' ->
  Forall is_gorev_work (history s) ->
  gorev_inv d0 s -> gorev_inv d0 s'.
Proof.
  unfold gorev_inv.
  intros [ | l1 l2 w Ht Hl | l1 l2 w r d' Ht Ew | l1 l2 r d' h w Ht Hh Ew | l1 l2 r Ht]
    Hhist Hg; [exact Hg | | | |];
    destruct Hg as [Hph [Hnd [Hin Hlen]]];
    rewrite Ht in *; simpl;
    rewrite returned_ids_app in *; simpl in *;
    apply Forall_app in Hph as [Hp1 Hp2]; inversion Hp2 as [|? ? Hp Hp3]; subst.
  - (* acquire *)
    split; [|now split].
    apply Forall_app. split; [assumption | now constructor].
  - (* execute *)
    split; [|now split].
    apply Forall_app. split; [assumption | now constructor].
  - (* commit *)
    assert (Hw : is_gorev_work w).
    { rewrite Hh in Hhist. apply Forall_app in Hhist as [_ Hw]. now inversion Hw. }
    destruct (gorev_work_effect w (committed s) Hw) as [row [E Hfresh]].
    rewrite E in Ew. injection Ew as <- <-. simpl.
    split; [|split; [|split]].
    + apply Forall_app. split; [assumption|]. constructor; [now eexists | assumption].
    + apply (Permutation_NoDup (Permutation_middle _ _ _)).
      constructor; [|assumption]. intros Hc. apply Hfresh. now apply Hin.
    + intros id Hid. rewrite map_app. apply in_or_app.
      apply in_app_or in Hid as [Hid|[<-|Hid]].
      * left. apply Hin. apply in_or_app. now left.
      * right. now left.
      * left. apply Hin. apply in_or_app. now right.
    + rewrite !length_app in *. simpl. lia.
  - (* release *)
    destruct Hp as [id ->]. simpl in *.
    split; [|now split].
    apply Forall_app. split; [assumption|]. constructor; [now eexists | assumption].
Qed.

Lemma gorev_inv_init (d0 : db) (reqs : list gorev_req) :
  Forall valid_req reqs ->
  gorev_inv d0 (init d0 (map gorev_work reqs)).
Proof.
  intros H. unfold gorev_inv. simpl.
  assert (E : returned_ids (map Waiting (map gorev_work reqs)) = []).
  { induction reqs; simpl; [reflexivity|]. inversion H; subst. auto. }
  rewrite E. simpl. split; [|split; [constructor | split; [intros id []|lia]]].
  clear E. induction H as [|q reqs Hq H IH]; simpl; [constructor|].
  constructor; [now exists q | assumption].
Qed.

Lemma gorev_inv_run (d0 : db) (reqs : list gorev_req) (schedule : list nat) :
  Forall valid_req reqs ->
  gorev_inv d0 (run schedule (init d0 (map gorev_work reqs)))
  /\ List.length (threads (run schedule (init d0 (map gorev_work reqs))))
     = List.length reqs.
Proof.
  intros Hreqs.
  assert (Hws : Forall is_gorev_work (map gorev_work reqs)).
  { induction Hreqs as [|q reqs Hq H IH]; simpl; [constructor|].
    constructor; [now exists q | assumption]. }
  assert (G : forall s,
             lock_inv d0 s ->
             Permutation (history s ++ waiting_works (threads s)) (map gorev_work reqs) ->
             gorev_inv d0 s ->
             List.length (threads s) = List.length reqs ->
             gorev_inv d0 (run schedule s)
             /\ List.length (threads (run schedule s)) = List.length reqs).
  { induction schedule as [|t schedule IH]; intros s Hinv Hperm Hg Hlen; [now split|].
    simpl. pose proof (step_transition d0 t s Hinv) as Htr.
    apply IH.
    - now apply lock_inv_step.
    - now apply transition_works with s.
    - apply gorev_inv_transition with s; try assumption.
      rewrite Forall_forall in *. intros w Hw. apply Hws.
      apply (Permutation_in w Hperm). apply in_or_app. now left.
    - now rewrite (transition_length s). }
  apply G.
  - apply lock_inv_init.
  - now rewrite init_works.
  - now apply gorev_inv_init.
  - simpl. now rewrite !length_map.
Qed.

Lemma finished_returned (l : list (phase Z)) :
  Forall finished l -> Forall gorev_phase l ->
  flat_map (fun p => match p with Done r => [r] | _ => [] end) l
  = map Ok (returned_ids l)
  /\ List.length (returned_ids l) = List.length l.
Proof.
  induction 1 as [|p l Hp Hl IH]; intros Hg; [now split|].
  inversion Hg as [|? ? Hgp Hgl]; subst. destruct (IH Hgl) as [E1 E2].
  destruct p; try contradiction. destruct Hgp as [id ->]. simpl.
  split; [now f_equal | now f_equal].
Qed.

(** Four turns in a row take a waiting thread through its unit of work. *)
Lemma run_four {A : Type} (s : state A) (l1 l2 : list (phase A)) (w : work A) :
  lock s = None -> threads s = l1 ++ Waiting w :: l2 ->
  run (let t := List.length l1 in [t; t; t; t]) s
  = {| committed := snd (w (committed s)); lock := None;
       threads := l1 ++ Done (fst (w (committed s))) :: l2;
       history := history s ++ [w] |}.
Proof.
  intros Hl Ht. cbv zeta. unfold run. cbn [fold_left].
  assert (E1 : step (List.length l1) s
               = {| committed := committed s; lock := Some (List.length l1, 1%nat);
                    threads := l1 ++ Locked w :: l2; history := history s ++ [w] |}).
  { unfold step. rewrite Ht, nth_error_middle, Hl. simpl. now rewrite set_nth_split. }
  rewrite E1. clear E1.
  destruct (w (committed s)) as [r d'] eqn:Ew.
  unfold step at 3. cbn [threads]. rewrite nth_error_middle. cbn [committed lock history].
  rewrite Ew, set_nth_split.
  unfold step at 2. cbn [threads]. rewrite nth_error_middle. cbn [committed lock history].
  rewrite set_nth_split.
  unfold step at 1. cbn [threads]. rewrite nth_error_middle. cbn [committed lock history].
  rewrite set_nth_split. reflexivity.
Qed.

Lemma sequential_from {A : Type} (ws : list (work A)) (done : list (phase A))
    (s : state A) :
  lock s = None -> threads s = done ++ map Waiting ws -> Forall finished done ->
  Forall finished
    (threads (run (flat_map (fun t => [t; t; t; t])
                     (seq (List.length done) (List.length ws))) s)).
Proof.
  revert done s. induction ws as [|w ws IH]; intros done s Hl Ht Hd.
  - simpl. rewrite Ht. simpl. now rewrite app_nil_r.
  - cbn [List.length seq flat_map]. unfold run. rewrite fold_left_app.
    fold (run (let t := List.length done in [t; t; t; t]) s).
    rewrite (run_four s done (map Waiting ws) w Hl Ht).
    match goal with
    | |- context [fold_left ?f ?l ?x] => change (fold_left f l x) with (run l x)
    end.
    replace (S (List.length done)) with (List.length (done ++ [Done (fst (w (committed s)))]))
      by (rewrite length_app; simpl; lia).
    apply IH.
    + reflexivity.
    + simpl. now rewrite <- app_assoc.
    + apply Forall_app. split; [assumption|]. constructor; [exact I | constructor].
Qed.

(** The schedule that runs the threads one after the other lets every
    thread return. *)
Lemma sequential_finishes {A : Type} (d0 : db) (ws : list (work A)) :
  Forall finished (threads (run (sequential (List.length ws)) (init d0 ws))).
Proof.
  apply (sequential_from ws [] (init d0 ws)); [reflexivity | reflexivity | constructor].
Qed.

(** What the threads of calls of [gorev_ekle] have returned once they all
    have. *)
Lemma gorev_threads_finished (d0 : db) (reqs : list gorev_req) (schedule : list nat) :
  Forall valid_req reqs ->
  Forall finished (threads (gorev_threads d0 reqs schedule)) ->
  each_succeeded_once d0 reqs (gorev_threads d0 reqs schedule).
Proof.
  intros Hreqs Hfin. unfold each_succeeded_once, gorev_threads in *.
  destruct (gorev_inv_run d0 reqs schedule Hreqs) as [[Hph [Hnd [Hin Hlen]]] Hn].
  destruct (finished_returned _ Hfin Hph) as [E1 E2].
  exists (returned_ids (threads (run schedule (init d0 (map gorev_work reqs))))).
  split; [exact E1|]. split; [assumption|]. split; [now rewrite E2|].
  split; [assumption|]. split; [now rewrite Hlen, E2, Hn|].
  eexists. split; [reflexivity|]. simpl. unfold count.
  rewrite Hlen, E2, Hn. lia.
Qed.

(** C9.  Every method runs its statements and its commit between taking and
    releasing the one re-entrant lock of [get_cursor].  Under every
    schedule of threads that call methods of one store: at most one thread
    is inside its unit of work, and it is the owner of the lock; the
    committed store, which is all that a unit of work reads, is the initial
    store after the units of work whose commit took effect, applied whole
    and in the order in which they took the lock; once all threads have
    returned, every unit of work has been applied once.  From the state any
    schedule has led to, the threads all return when the scheduler goes on
    with rounds that give each thread a turn, four rounds for each thread.
    When the threads are calls of [gorev_ekle], 50 of them for instance,
    with texts UTF-8 can encode and priorities the table accepts, they
    have then each returned the id of a stored task, the ids differ, and
    [istatistik] counts one more task for each call. *)
Theorem store_lock_linearizes :
  (forall (A : Type) (d0 : db) (ws : list (work A)) (schedule : list nat),
      (forall i j p q,
          nth_error (threads (run schedule (init d0 ws))) i = Some p ->
          nth_error (threads (run schedule (init d0 ws))) j = Some q ->
          in_section p -> in_section q ->
          i = j /\ lock (run schedule (init d0 ws)) = Some (i, 1%nat))
      /\ committed (run schedule (init d0 ws))
         = replay (settled (run schedule (init d0 ws))) d0
      /\ Permutation (history (run schedule (init d0 ws))
                        ++ waiting_works (threads (run schedule (init d0 ws)))) ws
      /\ (Forall finished (threads (run schedule (init d0 ws))) ->
          committed (run schedule (init d0 ws))
          = replay (history (run schedule (init d0 ws))) d0
          /\ Permutation (history (run schedule (init d0 ws))) ws))
  /\ (forall (A : Type) (d0 : db) (ws : list (work A)) (schedule : list nat)
             (rounds : list (list nat)),
        Forall (fair_round (List.length ws)) rounds ->
        (4 * List.length ws <= List.length rounds)%nat ->
        Forall finished
          (threads (run (schedule ++ List.concat rounds) (init d0 ws))))
  /\ (forall (d0 : db) (reqs : list gorev_req) (schedule : list nat),
        Forall valid_req reqs ->
        Forall finished (threads (gorev_threads d0 reqs schedule)) ->
        each_succeeded_once d0 reqs (gorev_threads d0 reqs schedule))
  /\ (forall (d0 : db) (reqs : list gorev_req) (schedule : list nat)
             (rounds : list (list nat)),
        Forall valid_req reqs ->
        Forall (fair_round (List.length reqs)) rounds ->
        (4 * List.length reqs <= List.length rounds)%nat ->
        Forall finished
          (threads (gorev_threads d0 reqs (schedule ++ List.concat rounds)))
        /\ each_succeeded_once d0 reqs
             (gorev_threads d0 reqs (schedule ++ List.concat rounds)))
  /\ (forall (d0 : db) (reqs : list gorev_req),
        Forall finished
          (threads (gorev_threads d0 reqs (sequential (List.length reqs))))).
Proof.
  split; [|split; [|split; [|split]]].
  - intros A d0 ws schedule. apply lock_serializes.
  - intros A d0 ws schedule rounds. apply every_schedule_completes.
  - intros d0 reqs schedule. apply gorev_threads_finished.
  - intros d0 reqs schedule rounds Hreqs Hfair Hn.
    assert (Hfin : Forall finished
                     (threads (gorev_threads d0 reqs (schedule ++ List.concat rounds)))).
    { unfold gorev_threads. apply every_schedule_completes; now rewrite length_map. }
    split; [exact Hfin|]. now apply gorev_threads_finished.
  - intros d0 reqs. unfold gorev_threads.
    rewrite <- (length_map gorev_work reqs). apply sequential_finishes.
Qed.

Lemma store_lock_linearizes_witness :
  exists st,
    istatistik None (committed (gorev_threads empty_db fifty_reqs fifty_schedule))
    = (Ok st, committed (gorev_threads empty_db fifty_reqs fifty_schedule))
    /\ s_gorev st = 50.
Proof.
  destruct store_lock_linearizes as [_ [_ [_ [H _]]]].
  destruct (H empty_db fifty_reqs [] (repeat (rev (seq 0 50)) 200))
    as [_ [ids [_ [_ [_ [_ [_ Hst]]]]]]].
  - unfold fifty_reqs. apply Forall_forall. intros q Hq.
    apply in_map_iff in Hq as [i [<- _]]. split; [repeat constructor | reflexivity].
  - apply Forall_forall. intros round Hr. apply repeat_spec in Hr. subst round.
    intros t Ht. rewrite <- in_rev. apply in_seq.
    unfold fifty_reqs in Ht. rewrite length_map, length_seq in Ht. lia.
  - rewrite repeat_length. unfold fifty_reqs. rewrite length_map, length_seq. lia.
  - destruct Hst as [st [E Hs]]. exists st. split; [exact E | exact Hs].
Defined.

(* ================================================================== *)
(** * Further properties of the store *)

Ltac case_all :=
  repeat match goal with
         | |- context [match ?x with _ => _ end] =>
             lazymatch x with
             | context [match _ with _ => _ end] => fail
             | _ => destruct x
             end
         end.

Lemma call_leaves_store (lower : str -> str) (fault : option exn)
    (c : call) (d : db) :
  (forall e, fst (run_call lower fault c d) = Some e -> snd (run_call lower fault c d) = d)
  /\ (reads c = true -> snd (run_call lower fault c d) = d)
  /\ (fault <> None -> snd (run_call lower fault c d) = d).
Proof.
  split; [|split].
  - intros e. destruct c; simpl;
      unfold kisa_ekle, kisa_getir, kisa_temizle, uzun_ekle, uzun_ara, uzun_getir,
        beyani_ekle, beyani_getir, episodik_ekle, episodik_getir, oturum_olustur,
        oturum_listele, oturum_getir, oturum_mesaj_ekle, oturum_mesajlari,
        gorev_ekle, gorev_listele, gorev_tamamla, gorev_sil, ogrenilen_ara,
        ogrenilen_listele, istatistik, insert_mesaj, get_cursor, raised;
      destruct fault; simpl; case_all; simpl; try congruence; try discriminate.
  - destruct c; simpl; try discriminate; intros _;
      unfold kisa_getir, uzun_ara, uzun_getir, beyani_getir, episodik_getir,
        oturum_listele, oturum_getir, oturum_mesajlari, gorev_listele,
        ogrenilen_ara, ogrenilen_listele, istatistik, get_cursor, raised;
      destruct fault; simpl; case_all; simpl; congruence.
  - intros Hf. destruct fault as [e|]; [|congruence].
    destruct c; simpl;
      unfold kisa_ekle, kisa_getir, kisa_temizle, uzun_ekle, uzun_ara, uzun_getir,
        beyani_ekle, beyani_getir, episodik_ekle, episodik_getir, oturum_olustur,
        oturum_listele, oturum_getir, oturum_mesaj_ekle, oturum_mesajlari,
        gorev_ekle, gorev_listele, gorev_tamamla, gorev_sil, ogren, ogrenilen_ara,
        ogrenilen_listele, istatistik, get_cursor, raised;
      simpl; case_all; reflexivity.
Qed.

(** X1.  Every unit of work is committed whole or not at all: a call that
    raises leaves the store as it was, and so do a call that meets a
    storage failure and a call that only reads. *)
Theorem failed_or_read_call_leaves_store (lower : str -> str) (fault : option exn)
    (c : call) (d : db) :
  (forall e, fst (run_call lower fault c d) = Some e -> snd (run_call lower fault c d) = d)
  /\ (reads c = true -> snd (run_call lower fault c d) = d)
  /\ (fault <> None -> snd (run_call lower fault c d) = d).
Proof. apply call_leaves_store. Qed.

Lemma failed_or_read_call_leaves_store_witness :
  snd (run_call ascii_lower None (GorevEkle 1000 (u "bad priority") [] (u "medium"))
         one_task_db) = one_task_db
  /\ snd (run_call ascii_lower (Some OperationalError) (GorevSil 1) one_task_db)
     = one_task_db.
Proof.
  split.
  - apply (proj1 (failed_or_read_call_leaves_store ascii_lower None
                    (GorevEkle 1000 (u "bad priority") [] (u "medium")) one_task_db)
             IntegrityError).
    reflexivity.
  - apply (failed_or_read_call_leaves_store ascii_lower (Some OperationalError)
             (GorevSil 1) one_task_db).
    discriminate.
Defined.

(** ** The constraints of the schema *)

Lemma existsb_str_not_in {A : Type} (f : A -> str) (id : str) (l : list A) :
  existsb (fun r => str_eqb (f r) id) l = false -> ~ In id (map f l).
Proof.
  intros E Hin. apply in_map_iff in Hin as [r [Hr Hl]].
  assert (X : existsb (fun r => str_eqb (f r) id) l = true).
  { apply existsb_exists. exists r. split; [assumption | now apply str_eqb_eq]. }
  congruence.
Qed.

Lemma NoDup_map_snoc {A B : Type} (f : A -> B) (l : list A) (x : A) :
  NoDup (map f l) -> ~ In (f x) (map f l) -> NoDup (map f (l ++ [x])).
Proof.
  intros H Hx. rewrite map_app. simpl.
  apply (Permutation_NoDup (Permutation_cons_append _ _)). now constructor.
Qed.

Lemma NoDup_map_filter {Row Key : Type} (key : Row -> Key) (keep : Row -> bool)
    (rows : list Row) (Hkeys : NoDup (map key rows)) :
  NoDup (map key (filter keep rows)).
Proof.
  revert Hkeys. induction rows as [|r rows IH]; intros Hkeys; [exact Hkeys|].
  apply NoDup_cons_iff in Hkeys as [Hr Hrows]. cbn [filter].
  destruct (keep r); [|now apply IH].
  cbn [map]. apply NoDup_cons; [|now apply IH].
  intros Hin. apply Hr. apply in_map_iff in Hin as [r' [E Hr']].
  apply in_map_iff. exists r'. split; [exact E|].
  now apply filter_In in Hr'.
Qed.

Lemma Forall_filter_keep {A : Type} (P : A -> Prop) (p : A -> bool) (l : list A) :
  Forall P l -> Forall P (filter p l).
Proof.
  rewrite !Forall_forall. intros H x Hx. apply filter_In in Hx as [Hx _]. auto.
Qed.

Lemma Forall_snoc {A : Type} (P : A -> Prop) (l : list A) (x : A) :
  Forall P l -> P x -> Forall P (l ++ [x]).
Proof. intros H Hx. apply Forall_app. split; [assumption | now constructor]. Qed.

Lemma Forall_map_same {A : Type} (P : A -> Prop) (f : A -> A) (l : list A) :
  (forall x, P x -> P (f x)) -> Forall P l -> Forall P (map f l).
Proof. intros Hf. induction 1; simpl; constructor; auto. Qed.

Lemma next_rowid_gt (seq : Z) (ids : list Z) :
  seq < Sqlite.next_rowid seq ids /\ 0 < Sqlite.next_rowid seq ids.
Proof.
  unfold Sqlite.next_rowid.
  assert (0 <= fold_right Z.max 0 ids) by (induction ids; simpl; lia). lia.
Qed.

Lemma Forall_seq_grow {A : Type} (f : A -> Z) (seq seq' : Z) (l : list A) :
  seq <= seq' -> Forall (fun r => 0 < f r <= seq) l -> Forall (fun r => 0 < f r <= seq') l.
Proof. intros H. apply Forall_impl. intros r Hr. lia. Qed.

Lemma constraints_empty : constraints empty_db.
Proof. constructor; simpl; constructor. Qed.

Lemma map_id_update (now : timestamp) (id : Z) (l : list gorev_row) :
  map g_id (map (fun r => if g_id r =? id then tamamla now r else r) l) = map g_id l.
Proof.
  induction l as [|r l IH]; simpl; [reflexivity|]. rewrite IH.
  now destruct (g_id r =? id).
Qed.

Ltac same_fields H := destruct H; constructor; simpl; try assumption.

Lemma bind_int_inv (z z' : Z) :
  Sqlite.bind_int z = Ok z' -> z' = z /\ - 2 ^ 63 <= z < 2 ^ 63.
Proof.
  unfold Sqlite.bind_int, Sqlite.in_int64.
  destruct (- 2 ^ 63 <=? z) eqn:E1; destruct (z <? 2 ^ 63) eqn:E2; try discriminate.
  intros E. injection E as <-. apply Z.leb_le in E1. apply Z.ltb_lt in E2. now split.
Qed.

(** In a hypothesis [E] that says a statement has run: every binding of
    the statement has succeeded. *)
Ltac bind_inv E :=
  repeat match type of E with
         | context [Sqlite.bind_text ?s] =>
             let B := fresh "B" in
             destruct (Sqlite.bind_text s) as [?|?] eqn:B;
             [apply bind_text_inv in B as [-> B] | simpl in E; discriminate E]
         | context [Sqlite.bind_int ?z] =>
             let B := fresh "B" in
             destruct (Sqlite.bind_int z) as [?|?] eqn:B;
             [apply bind_int_inv in B as [-> B] | simpl in E; discriminate E]
         end.

(** Splits on the outcome of each binding of the statement in the goal;
    [H] closes the cases in which a binding fails. *)
Ltac bind_cases H :=
  repeat match goal with
         | |- context [Sqlite.bind_text ?s] =>
             let B := fresh "B" in
             destruct (Sqlite.bind_text s) as [?|?] eqn:B;
             [apply bind_text_inv in B as [-> B] | simpl; exact H]
         | |- context [Sqlite.bind_int ?z] =>
             let B := fresh "B" in
             destruct (Sqlite.bind_int z) as [?|?] eqn:B;
             [apply bind_int_inv in B as [-> B] | simpl; exact H]
         end.

Lemma constraints_call (lower : str -> str) (fault : option exn) (c : call) (d : db) :
  constraints d -> constraints (snd (run_call lower fault c d)).
Proof.
  intros H.
  destruct (reads c) eqn:Hr.
  { now rewrite (proj1 (proj2 (call_leaves_store lower fault c d)) Hr). }
  destruct fault as [e|].
  { rewrite (proj2 (proj2 (call_leaves_store lower (Some e) c d)));
      [assumption | discriminate]. }
  destruct c; try discriminate Hr; cbn [run_call]; unfold raised.
  - (* kisa_ekle *)
    unfold kisa_ekle, get_cursor. bind_cases H.
    destruct (existsb _ _) eqn:E; simpl; [assumption|].
    same_fields H. apply NoDup_map_snoc; [assumption|].
    now apply existsb_str_not_in.
  - (* kisa_temizle *)
    unfold kisa_temizle, get_cursor. simpl.
    same_fields H. now apply NoDup_map_filter.
  - (* uzun_ekle *)
    unfold uzun_ekle, get_cursor.
    destruct ((1 <=? onem) && (onem <=? 10)) eqn:Eo; cbn [negb]; [|assumption].
    bind_cases H. rewrite Eo. cbn [negb].
    destruct (existsb _ _) eqn:E; simpl; [assumption|].
    apply andb_true_iff in Eo as [E1 E2]. apply Z.leb_le in E1, E2.
    same_fields H.
    + apply NoDup_map_snoc; [assumption | now apply existsb_str_not_in].
    + apply Forall_snoc; [assumption | simpl; lia].
  - (* beyani_ekle *)
    unfold beyani_ekle, get_cursor. bind_cases H.
    destruct (existsb _ _) eqn:E; simpl; [assumption|].
    same_fields H. apply NoDup_map_snoc; [assumption | now apply existsb_str_not_in].
  - (* episodik_ekle *)
    unfold episodik_ekle, get_cursor. bind_cases H.
    destruct (existsb _ _) eqn:E; simpl; [assumption|].
    same_fields H. apply NoDup_map_snoc; [assumption | now apply existsb_str_not_in].
  - (* oturum_olustur *)
    unfold oturum_olustur, get_cursor. bind_cases H.
    destruct (existsb _ _) eqn:E; simpl; [assumption|].
    same_fields H. apply NoDup_map_snoc; [assumption | now apply existsb_str_not_in].
  - (* oturum_mesaj_ekle *)
    unfold oturum_mesaj_ekle, get_cursor, insert_mesaj.
    fold (rol_check rol). destruct (rol_check rol) eqn:E; cbn [negb]; [|assumption].
    bind_cases H. rewrite E. simpl.
    pose proof (next_rowid_gt (seq_mesajlar d) (map m_id (mesajlar d))) as [G1 G2].
    same_fields H.
    + apply NoDup_map_snoc; [assumption | apply next_rowid_fresh].
    + apply Forall_snoc.
      * eapply Forall_seq_grow; [|eassumption]. lia.
      * simpl. lia.
    + now apply Forall_snoc.
  - (* gorev_ekle *)
    unfold gorev_ekle, get_cursor. bind_cases H.
    destruct (oncelik_check oncelik) eqn:E; simpl; [|assumption].
    pose proof (next_rowid_gt (seq_gorevler d) (map g_id (gorevler d))) as [G1 G2].
    same_fields H.
    + apply NoDup_map_snoc; [assumption | apply next_rowid_fresh].
    + apply Forall_snoc.
      * eapply Forall_seq_grow; [|eassumption]. lia.
      * simpl. lia.
    + now apply Forall_snoc.
    + apply Forall_snoc; [assumption|]. left. now split.
  - (* gorev_tamamla *)
    unfold gorev_tamamla, get_cursor.
    destruct (Sqlite.bind_int id) as [id'|e]; simpl; [|assumption].
    same_fields H.
    + now rewrite map_id_update.
    + apply Forall_map_same; [|assumption].
      intros r Hr'. now destruct (g_id r =? id').
    + apply Forall_map_same; [|assumption].
      intros r Hr'. now destruct (g_id r =? id').
    + apply Forall_map_same; [|assumption].
      intros r Hr'. destruct (g_id r =? id'); [|assumption].
      right. split; [reflexivity | discriminate].
  - (* gorev_sil *)
    unfold gorev_sil, get_cursor.
    destruct (Sqlite.bind_int id) as [id'|e]; simpl; [|assumption].
    same_fields H.
    + now apply NoDup_map_filter.
    + now apply Forall_filter_keep.
    + now apply Forall_filter_keep.
    + now apply Forall_filter_keep.
  - (* ogren *)
    pose proof (ogren_stores lower {| c_now := now; c_fault := None; c_soru := soru;
                                      c_yanit := yanit |} d) as Hs.
    pose proof (ogren_not_stores lower {| c_now := now; c_fault := None; c_soru := soru;
                                          c_yanit := yanit |} d) as Hn.
    cbn [c_now c_fault c_soru c_yanit] in Hs, Hn.
    destruct (stores lower _); [rewrite (Hs eq_refl) | now rewrite (Hn eq_refl)].
    clear Hs Hn. simpl snd.
    pose proof (insert_or_replace_unique (normalize lower soru) yanit now d
                  (unique_soru d H)) as Hu.
    pose proof (next_rowid_gt (seq_ogrenilen d) (map l_id (ogrenilen d))) as [G1 G2].
    unfold insert_or_replace_ogrenilen in *. simpl in Hu.
    same_fields H.
    + apply NoDup_map_snoc; [now apply NoDup_map_filter|].
      intros Hin. apply (next_rowid_fresh (seq_ogrenilen d) (map l_id (ogrenilen d))).
      apply in_map_iff in Hin as [r [Er Hin]]. apply filter_In in Hin as [Hin _].
      apply in_map_iff. eauto.
    + apply Forall_snoc.
      * apply Forall_filter_keep. eapply Forall_seq_grow; [|eassumption]. lia.
      * simpl. lia.
Qed.

(** X2.  Every call keeps the constraints of the schema, and from the empty
    store every sequence of calls, failing or not, leads to a store in which
    primary keys are unique, importances lie in [1,10], roles and priorities
    are those the tables accept, every task is either pending without
    completion time or completed with one, the AUTOINCREMENT sequences bound
    the row ids, and no two learned answers share a question. *)
Theorem constraints_kept (lower : str -> str) (calls : list (option exn * call)) (d : db) :
  constraints d -> constraints (run_calls lower calls d).
Proof.
  revert d. induction calls as [|[fault c] calls IH]; intros d H; [assumption|].
  apply IH. now apply constraints_call.
Qed.

Lemma constraints_kept_witness :
  constraints
    (run_calls ascii_lower
       [ (None, GorevEkle 1000 (u "write report") [] (u "orta"));
         (None, GorevEkle 1001 (u "bad priority") [] (u "medium"));
         (Some OperationalError, GorevSil 1);
         (None, GorevTamamla 1002 1);
         (None, Ogren 1003 (u "2+2") (u "4"));
         (None, Ogren 1004 (u " 2+2 ") (u "5"));
         (None, OturumMesajEkle 1005 (u "ab12cd34") (u "user") (u "hello")) ]
       empty_db).
Proof. apply (constraints_kept ascii_lower _ empty_db constraints_empty). Defined.

(** ** Row ids *)

Lemma seq_gorevler_call (lower : str -> str) (fault : option exn) (c : call) (d : db) :
  seq_gorevler d <= seq_gorevler (snd (run_call lower fault c d)).
Proof.
  destruct (reads c) eqn:Hr.
  { rewrite (proj1 (proj2 (call_leaves_store lower fault c d)) Hr). lia. }
  destruct fault as [e|].
  { rewrite (proj2 (proj2 (call_leaves_store lower (Some e) c d)));
      [lia | discriminate]. }
  pose proof (next_rowid_gt (seq_gorevler d) (map g_id (gorevler d))) as [G1 G2].
  destruct c; try discriminate Hr; cbn [run_call]; unfold raised;
    unfold kisa_ekle, kisa_temizle, uzun_ekle, beyani_ekle, episodik_ekle,
      oturum_olustur, oturum_mesaj_ekle, insert_mesaj, gorev_ekle, gorev_tamamla,
      gorev_sil, ogren, insert_or_replace_ogrenilen, get_cursor;
    case_all; simpl; lia.
Qed.

Lemma seq_gorevler_calls (lower : str -> str) (calls : list (option exn * call)) (d : db) :
  seq_gorevler d <= seq_gorevler (run_calls lower calls d).
Proof.
  revert d. induction calls as [|[fault c] calls IH]; intros d; simpl; [lia|].
  pose proof (seq_gorevler_call lower fault c d).
  specialize (IH (snd (run_call lower fault c d))).
  eapply Z.le_trans; eassumption.
Qed.

(** X3.  Task ids are never reused: the id [gorev_ekle] returns is larger
    than every id it returned before, whatever calls were made in between,
    deletions of tasks included. *)
Theorem gorev_ids_never_reused (lower : str -> str) (calls : list (option exn * call))
    (now now' : timestamp) (baslik aciklama oncelik baslik' aciklama' oncelik' : str)
    (id1 id2 : Z) (d d1 d2 : db) :
  gorev_ekle now None baslik aciklama oncelik d = (Ok id1, d1) ->
  gorev_ekle now' None baslik' aciklama' oncelik' (run_calls lower calls d1)
  = (Ok id2, d2) ->
  id1 < id2.
Proof.
  unfold gorev_ekle, get_cursor. intros E1 E2. bind_inv E1. bind_inv E2.
  destruct (oncelik_check oncelik); simpl in E1; [|discriminate].
  destruct (oncelik_check oncelik'); simpl in E2; [|discriminate].
  injection E1 as <- <-. injection E2 as <- _.
  match goal with
  | |- _ < Sqlite.next_rowid (seq_gorevler (run_calls lower calls ?x)) ?ids =>
      pose proof (seq_gorevler_calls lower calls x) as Hm;
      pose proof (next_rowid_gt (seq_gorevler (run_calls lower calls x)) ids) as [G _]
  end.
  simpl in Hm. lia.
Qed.

Lemma gorev_ids_never_reused_witness :
  exists d1 d2,
    gorev_ekle 1000 None (u "first") [] (u "orta") empty_db = (Ok 1, d1)
    /\ gorev_ekle 3000 None (u "second") [] (u "acil")
         (run_calls ascii_lower [(None, GorevSil 1)] d1) = (Ok 2, d2)
    /\ gorevler (run_calls ascii_lower [(None, GorevSil 1)] d1) = []
    /\ 1 < 2.
Proof.
  eexists. eexists. split; [reflexivity|]. split; [reflexivity|]. split; [reflexivity|].
  eapply (gorev_ids_never_reused ascii_lower [(None, GorevSil 1)]
            1000 3000 (u "first") [] (u "orta") (u "second") [] (u "acil")
            1 2 empty_db);
    reflexivity.
Defined.

(** ** Short-term memory: the life of an entry *)

Lemma limit_all {A : Type} (precedes : A -> A -> bool) (n : Z) (l : list A) (x : A) :
  0 <= n -> Z.of_nat (List.length l) <= n -> In x l ->
  In x (Sqlite.limit n (Sqlite.order_by precedes l)).
Proof.
  intros Hn Hlen Hin. rewrite limit_nonneg by assumption.
  rewrite firstn_all2.
  - apply (Permutation_in x (Permutation_sym (order_by_perm precedes l)) Hin).
  - rewrite (Permutation_length (order_by_perm precedes l)). lia.
Qed.

Lemma in_limit {A : Type} (n : Z) (l : list A) (x : A) : In x (Sqlite.limit n l) -> In x l.
Proof.
  unfold Sqlite.limit. destruct (n <? 0); [auto|].
  intros H. rewrite <- (firstn_skipn (Z.to_nat n) l). apply in_or_app. now left.
Qed.

(** X4.  An entry added by [kisa_ekle] is returned by [kisa_getir], asked
    with a limit from 0 to 2^63-1, at every time before its expiry,
    provided the limit admits all live entries; it is not returned at its
    expiry or later, pruned or not; [kisa_temizle] keeps it at every time
    up to its expiry and removes it at every later time. *)
Theorem kisa_entry_lifetime (uuid4 icerik meta_json : str) (now1 now2 now : timestamp)
    (limit : Z) (d d1 : db) :
  kisa_ekle uuid4 now1 now2 None icerik meta_json d = (Ok uuid4, d1) ->
  0 <= limit < 2 ^ 63 ->
  (now < now2 + 24 * 3600 * 1000000 ->
   Z.of_nat (List.length (filter (fun r => now <? k_bitis r) (kisa_sureli d1))) <= limit ->
   exists rows r,
     kisa_getir now None limit d1 = (Ok rows, d1)
     /\ In r rows /\ k_id r = uuid4 /\ k_icerik r = icerik)
  /\ (now2 + 24 * 3600 * 1000000 <= now ->
      exists rows,
        kisa_getir now None limit d1 = (Ok rows, d1)
        /\ forall r, In r rows -> k_id r <> uuid4)
  /\ (now <= now2 + 24 * 3600 * 1000000 ->
      exists r, In r (kisa_sureli (snd (kisa_temizle now None d1))) /\ k_id r = uuid4)
  /\ (now2 + 24 * 3600 * 1000000 < now ->
      forall r, In r (kisa_sureli (snd (kisa_temizle now None d1))) -> k_id r <> uuid4).
Proof.
  unfold kisa_ekle, get_cursor. intros E Hlim. bind_inv E.
  destruct (existsb _ _) eqn:Hfresh; [discriminate|].
  injection E as <-. apply existsb_str_not_in in Hfresh.
  unfold kisa_getir, kisa_temizle, get_cursor. rewrite bind_int_ok by lia.
  cbn [snd kisa_sureli set_kisa_sureli]. unfold hours.
  assert (Hown : forall r, In r (kisa_sureli d ++
                   [{| k_id := uuid4; k_icerik := icerik; k_metadata := meta_json;
                       k_erisim_sayisi := 0; k_son_erisim := now1; k_olusturma := now1;
                       k_bitis := now2 + 24 * 3600 * 1000000 |}]) ->
                   k_id r = uuid4 -> k_bitis r = now2 + 24 * 3600 * 1000000).
  { intros r Hr Hid. apply in_app_or in Hr as [Hr|[<-|[]]]; [|reflexivity].
    exfalso. apply Hfresh. apply in_map_iff. eauto. }
  split; [|split; [|split]].
  - intros Hnow Hcount. cbn [kisa_sureli set_kisa_sureli] in Hcount.
    unfold hours in Hcount. eexists.
    exists {| k_id := uuid4; k_icerik := icerik; k_metadata := meta_json;
              k_erisim_sayisi := 0; k_son_erisim := now1; k_olusturma := now1;
              k_bitis := now2 + 24 * 3600 * 1000000 |}.
    split; [reflexivity|].
    split; [|split; [reflexivity | reflexivity]].
    apply limit_all; [lia | assumption|].
    apply filter_In. split; [apply in_or_app; right; now left|].
    simpl. apply Z.ltb_lt. lia.
  - intros Hnow. eexists. split; [reflexivity|].
    intros r Hr Hid. apply in_limit in Hr.
    apply (Permutation_in r (order_by_perm _ _)) in Hr.
    apply filter_In in Hr as [Hr Hb]. apply Z.ltb_lt in Hb.
    rewrite (Hown r Hr Hid) in Hb. lia.
  - intros Hnow.
    exists {| k_id := uuid4; k_icerik := icerik; k_metadata := meta_json;
              k_erisim_sayisi := 0; k_son_erisim := now1; k_olusturma := now1;
              k_bitis := now2 + 24 * 3600 * 1000000 |}.
    split; [|reflexivity].
    apply filter_In. split; [apply in_or_app; right; now left|].
    simpl. apply negb_true_iff, Z.ltb_ge. lia.
  - intros Hnow r Hr Hid. apply filter_In in Hr as [Hr Hb].
    apply negb_true_iff, Z.ltb_ge in Hb. rewrite (Hown r Hr Hid) in Hb. lia.
Qed.

Lemma kisa_entry_lifetime_witness :
  exists d1 rows r,
    kisa_ekle (u "7b1e") 1000 1001 None (u "note") (u "{}") empty_db = (Ok (u "7b1e"), d1)
    /\ kisa_getir 5000 None 10 d1 = (Ok rows, d1)
    /\ In r rows /\ k_icerik r = u "note".
Proof.
  assert (Hlim : 0 <= 10 < 2 ^ 63) by (split; [lia | reflexivity]).
  destruct (kisa_entry_lifetime (u "7b1e") (u "note") (u "{}") 1000 1001 5000 10
              empty_db _ eq_refl Hlim) as [H _].
  destruct H as [rows [r [E [Hin [_ Hc]]]]].
  - reflexivity.
  - simpl. lia.
  - eexists. exists rows, r. split; [reflexivity|]. split; [exact E|].
    split; [exact Hin | exact Hc].
Defined.

Lemma filter_live_pruned (now : timestamp) (l : list kisa_row) :
  filter (fun r => now <? k_bitis r) (filter (fun r => negb (k_bitis r <? now)) l)
  = filter (fun r => now <? k_bitis r) l.
Proof.
  induction l as [|r l IH]; simpl; [reflexivity|].
  destruct (k_bitis r <? now) eqn:E1; simpl.
  - apply Z.ltb_lt in E1.
    destruct (now <? k_bitis r) eqn:E2; [apply Z.ltb_lt in E2; lia | assumption].
  - now rewrite IH.
Qed.

(** X5.  Pruning does not change what [kisa_getir] returns at the same
    time: the rows [kisa_temizle] deletes are rows [kisa_getir] would not
    return.  And a second pruning at the same or an earlier time deletes
    nothing and returns 0. *)
Theorem kisa_temizle_invisible (now now' : timestamp) (limit : Z) (d : db) :
  fst (kisa_getir now None limit (snd (kisa_temizle now None d)))
  = fst (kisa_getir now None limit d)
  /\ (now' <= now ->
      kisa_temizle now' None (snd (kisa_temizle now None d))
      = (Ok 0, snd (kisa_temizle now None d))).
Proof.
  unfold kisa_getir, kisa_temizle, get_cursor. cbn [snd fst]. split.
  - destruct (Sqlite.bind_int limit); [|reflexivity].
    cbn [fst kisa_sureli set_kisa_sureli]. now rewrite filter_live_pruned.
  - intros Hle. cbn [kisa_sureli set_kisa_sureli].
    assert (Hnone : forall r, In r (filter (fun r => negb (k_bitis r <? now)) (kisa_sureli d))
                              -> negb (k_bitis r <? now') = true).
    { intros r Hr. apply filter_In in Hr as [_ Hb].
      apply negb_true_iff, Z.ltb_ge in Hb. apply negb_true_iff, Z.ltb_ge. lia. }
    rewrite (filter_all _ _ Hnone).
    assert (E : filter (fun r => k_bitis r <? now')
                  (filter (fun r => negb (k_bitis r <? now)) (kisa_sureli d)) = []).
    { induction (filter (fun r => negb (k_bitis r <? now)) (kisa_sureli d)) as [|r l IH];
        [reflexivity|]. simpl.
      pose proof (Hnone r (or_introl eq_refl)) as Hr. apply negb_true_iff in Hr.
      rewrite Hr. apply IH. intros x Hx. apply Hnone. now right. }
    rewrite E. reflexivity.
Qed.

Lemma kisa_temizle_invisible_witness :
  kisa_temizle 9000 None
    (snd (kisa_temizle 9000 None
            (snd (kisa_ekle (u "7b1e") 1000 1001 None (u "note") (u "{}") empty_db))))
  = (Ok 0, snd (kisa_temizle 9000 None
                  (snd (kisa_ekle (u "7b1e") 1000 1001 None (u "note") (u "{}") empty_db)))).
Proof.
  apply (kisa_temizle_invisible 9000 9000 10
           (snd (kisa_ekle (u "7b1e") 1000 1001 None (u "note") (u "{}") empty_db))).
  lia.
Defined.

(** ** Long-term memory: finding an entry again *)

Lemma escape_plain (tag : str) : plain_tag tag -> flat_map Json.escape_char tag = tag.
Proof.
  induction 1 as [|c tag Hc Htag IH]; simpl; [reflexivity|]. rewrite IH.
  unfold Json.escape_char.
  destruct (Z.eqb_spec c 92); [lia|]. destruct (Z.eqb_spec c 34); [lia|].
  destruct (Z.eqb_spec c 8); [lia|]. destruct (Z.eqb_spec c 12); [lia|].
  destruct (Z.eqb_spec c 10); [lia|]. destruct (Z.eqb_spec c 13); [lia|].
  destruct (Z.eqb_spec c 9); [lia|].
  destruct (Z.leb_spec 32 c); [|lia]. destruct (Z.leb_spec c 126); [|lia].
  reflexivity.
Qed.

Lemma occurs_in_join (sep x : str) (l : list str) :
  In x l -> occurs_in x (Json.join sep l).
Proof.
  induction l as [|y l IH]; [intros []|].
  intros [->|Hin].
  - destruct l as [|z l]; simpl.
    + exists [], []. now rewrite app_nil_r.
    + exists [], (sep ++ Json.join sep (z :: l)). reflexivity.
  - destruct (IH Hin) as [a [b E]].
    destruct l as [|z l]; [destruct Hin|].
    change (Json.join sep (y :: z :: l)) with (y ++ sep ++ Json.join sep (z :: l)).
    rewrite E. exists (y ++ sep ++ a), b. now rewrite <- !app_assoc.
Qed.

Lemma occurs_in_dumps_list (tag : str) (etiketler : list str) :
  In tag etiketler -> plain_tag tag ->
  occurs_in ([34] ++ tag ++ [34]) (Json.dumps_list etiketler).
Proof.
  intros Hin Hp.
  assert (Hd : In ([34] ++ tag ++ [34]) (map Json.dumps_str etiketler)).
  { apply in_map_iff. exists tag. split; [|assumption].
    unfold Json.dumps_str. now rewrite escape_plain. }
  destruct (occurs_in_join (u ", ") _ _ Hd) as [a [b E]].
  unfold Json.dumps_list. rewrite E.
  exists ([91] ++ a), (b ++ [93]). now rewrite <- !app_assoc.
Qed.

Lemma like_quoted_tag (tag s : str) :
  ~ In 37 tag -> ~ In 95 tag ->
  Sqlite.like_match None ([37; 34] ++ tag ++ [34; 37]) s
  = nocase_occurs ([34] ++ tag ++ [34]) s.
Proof.
  intros H1 H2. unfold Sqlite.like_match.
  assert (HX : forall c, In c ([34] ++ tag ++ [34]) -> c = 34 \/ In c tag).
  { intros c Hin. apply in_app_or in Hin as [[Hin|[]]|Hin]; [now left|].
    apply in_app_or in Hin as [Hin|[Hin|[]]]; [now right | now left]. }
  replace ([37; 34] ++ tag ++ [34; 37])
    with (37 :: (([34] ++ tag ++ [34]) ++ [37]))
    by (simpl; now rewrite <- app_assoc).
  cbn [Sqlite.like_tokens].
  assert (E37 : (37 =? 37) = true) by reflexivity. rewrite E37.
  rewrite like_tokens_plain.
  - apply tok_match_lits_occurs.
  - intros Hin. apply HX in Hin as [Hin|Hin]; [discriminate | tauto].
  - intros Hin. apply HX in Hin as [Hin|Hin]; [discriminate | tauto].
Qed.

Lemma plain_tag_no_wildcard (tag : str) : plain_tag tag -> ~ In 37 tag /\ ~ In 95 tag.
Proof.
  intros H. unfold plain_tag in H. rewrite Forall_forall in H.
  split; intros Hin; apply H in Hin; lia.
Qed.

Lemma plain_tag_ascii (tag : str) : plain_tag tag -> Forall (fun x => 0 < x < 128) tag.
Proof. apply Forall_impl. intros c H. lia. Qed.

(** [uzun_ekle] that returned: the bindings succeeded and the row was
    appended. *)
Lemma uzun_ekle_inv (uuid4 id icerik meta_json : str) (etiketler : list str)
    (now : timestamp) (fault : option exn) (onem : Z) (d d1 : db) :
  uzun_ekle uuid4 now fault icerik etiketler onem meta_json d = (Ok id, d1) ->
  id = uuid4
  /\ bindable [uuid4; icerik; meta_json]
  /\ 1 <= onem <= 10
  /\ ~ In uuid4 (map u_id (uzun_sureli d))
  /\ d1 = set_uzun_sureli
            (uzun_sureli d ++
               [{| u_id := uuid4; u_icerik := icerik; u_metadata := meta_json;
                   u_etiketler := Json.dumps_list etiketler; u_onem := onem;
                   u_erisim_sayisi := 0; u_son_erisim := now; u_olusturma := now |}]) d.
Proof.
  unfold uzun_ekle, get_cursor. intros E.
  destruct ((1 <=? onem) && (onem <=? 10)) eqn:Eo; cbn [negb] in E; [|discriminate].
  destruct fault; [discriminate|]. bind_inv E. rewrite Eo in E. cbn [negb] in E.
  destruct (existsb _ _) eqn:F; [discriminate|]. injection E as <- <-.
  apply andb_true_iff in Eo as [E1 E2]. apply Z.leb_le in E1, E2.
  split; [reflexivity|]. split; [repeat constructor; assumption|].
  split; [lia|]. split; [now apply existsb_str_not_in | reflexivity].
Qed.

(** X6.  Round trip through a tag: an entry stored by [uzun_ekle] with a
    tag made of plain characters, 49996 at most, is yielded by [uzun_getir]
    for that tag, in a store that holds no more entries than the limit. *)
Theorem uzun_found_by_tag (uuid4 icerik meta_json tag : str) (etiketler : list str)
    (now : timestamp) (onem limit : Z) (d d1 : db) :
  uzun_ekle uuid4 now None icerik etiketler onem meta_json d = (Ok uuid4, d1) ->
  In tag etiketler -> plain_tag tag ->
  Z.of_nat (List.length tag) <= 49996 ->
  0 <= limit < 2 ^ 63 ->
  Z.of_nat (List.length (uzun_sureli d1)) <= limit ->
  exists rows r,
    uzun_getir None [tag] limit d1 = (Ok rows, d1)
    /\ In r rows /\ u_id r = uuid4 /\ u_icerik r = icerik /\ u_onem r = onem.
Proof.
  intros E Hin Hp Hlen Hlim Hcount.
  apply uzun_ekle_inv in E as [_ [_ [_ [_ ->]]]].
  cbn [uzun_sureli set_uzun_sureli] in Hcount.
  pose proof (plain_tag_ascii tag Hp) as Ha.
  unfold uzun_getir, get_cursor. cbn [uzun_getir_tags].
  rewrite uzun_getir_tag_ok;
    [ | assumption | now apply ascii_encodable
      | rewrite !utf8_length_app, (ascii_utf8_length tag Ha);
        change (utf8_length [37; 34]) with 2; change (utf8_length [34; 37]) with 2; lia ].
  eexists.
  exists {| u_id := uuid4; u_icerik := icerik; u_metadata := meta_json;
            u_etiketler := Json.dumps_list etiketler; u_onem := onem;
            u_erisim_sayisi := 0; u_son_erisim := now; u_olusturma := now |}.
  split; [reflexivity|]. split; [|repeat split].
  rewrite app_nil_r, <- limit_nonneg by lia.
  cbn [uzun_sureli set_uzun_sureli].
  apply limit_all; [lia | |].
  - match goal with
    | |- Z.of_nat (List.length (filter ?f ?l)) <= _ =>
        pose proof (filter_length_le f l)
    end. lia.
  - apply filter_In. split; [apply in_or_app; right; now left|].
    cbn [u_etiketler]. destruct (plain_tag_no_wildcard tag Hp) as [H1 H2].
    rewrite (c_string_nul_free _ (quoted_pattern_nul_free tag (ascii_nul_free tag Ha))).
    rewrite (c_string_nul_free _ (ascii_nul_free _ (dumps_list_ascii etiketler))).
    rewrite like_quoted_tag by assumption.
    apply occurs_nocase. now apply occurs_in_dumps_list.
Qed.

Lemma uzun_found_by_tag_witness :
  exists rows r,
    uzun_getir None [u "errand"] 50 milk_db = (Ok rows, milk_db)
    /\ In r rows /\ u_icerik r = u "buy milk".
Proof.
  assert (Hlim : 0 <= 50 < 2 ^ 63) by (split; [lia | reflexivity]).
  assert (Hp : plain_tag (u "errand")).
  { unfold plain_tag. repeat constructor; simpl; try lia; discriminate. }
  assert (Hlen : Z.of_nat (List.length (u "errand")) <= 49996) by (simpl; lia).
  destruct (uzun_found_by_tag (u "3f2a") (u "buy milk") (u "{}") (u "errand")
              [u "errand"] 1000 7 50 empty_db milk_db eq_refl
              (or_introl eq_refl) Hp Hlen Hlim)
    as [rows [r [E [Hin [_ [Hc _]]]]]].
  - simpl. lia.
  - exists rows, r. split; [exact E|]. split; [exact Hin | exact Hc].
Defined.

Lemma occurs_in_encodable (q s : str) :
  occurs_in q s -> Sqlite.encodable s = true -> Sqlite.encodable q = true.
Proof.
  intros [a [b ->]] H. rewrite !encodable_app in H.
  apply andb_true_iff in H as [_ H]. now apply andb_true_iff in H as [H _].
Qed.

Lemma occurs_in_nul_free (q s : str) : occurs_in q s -> nul_free s -> nul_free q.
Proof.
  intros [a [b ->]] H. apply nul_free_app in H as [_ H].
  now apply nul_free_app in H as [H _].
Qed.

(** X7.  Round trip through a search: an entry stored by [uzun_ekle] is
    returned by [uzun_ara] for every non-empty text that occurs in its
    content before the first U+0000 of the content, when the pattern of
    the text takes at most 50000 bytes, in a store of at most 50 entries. *)
Theorem uzun_found_by_search (uuid4 icerik meta_json q : str) (etiketler : list str)
    (now : timestamp) (onem : Z) (d d1 : db) :
  uzun_ekle uuid4 now None icerik etiketler onem meta_json d = (Ok uuid4, d1) ->
  q <> [] -> occurs_in q (Sqlite.c_string icerik) ->
  utf8_length (SecurityManager.sanitize_sql_like q) <= 50000 ->
  (List.length (uzun_sureli d1) <= 50)%nat ->
  exists rows r,
    uzun_ara None q d1 = (Ok rows, d1)
    /\ In r rows /\ u_id r = uuid4 /\ u_icerik r = icerik /\ u_onem r = onem.
Proof.
  intros E Hq Hocc Hlen Hcount.
  apply uzun_ekle_inv in E as [_ [Hb [_ [_ ->]]]]. bindable_hyps.
  cbn [uzun_sureli set_uzun_sureli] in Hcount.
  destruct (c_string_split icerik) as [Hnul [rest Hrest]].
  assert (Hqn : nul_free q) by exact (occurs_in_nul_free _ _ Hocc Hnul).
  assert (Hqe : Sqlite.encodable q = true).
  { apply (occurs_in_encodable q (Sqlite.c_string icerik) Hocc).
    match goal with
    | H : Sqlite.encodable icerik = true |- _ =>
        rewrite Hrest, encodable_app in H; now apply andb_true_iff in H as [H _]
    end. }
  unfold uzun_ara, get_cursor.
  rewrite (bind_text_ok _ (sanitize_sql_like_encodable q Hqe)).
  rewrite (where_ok _ (fun r => nocase_occurs q (Sqlite.c_string (u_icerik r))
                                || nocase_occurs q (Sqlite.c_string (u_etiketler r))))
    by (intros r _; now apply uzun_ara_row).
  eexists.
  exists {| u_id := uuid4; u_icerik := icerik; u_metadata := meta_json;
            u_etiketler := Json.dumps_list etiketler; u_onem := onem;
            u_erisim_sayisi := 0; u_son_erisim := now; u_olusturma := now |}.
  split; [reflexivity|]. split; [|repeat split].
  cbn [uzun_sureli set_uzun_sureli].
  apply limit_all; [lia | |].
  - match goal with
    | |- Z.of_nat (List.length (filter ?f ?l)) <= _ =>
        pose proof (filter_length_le f l)
    end. lia.
  - apply filter_In. split; [apply in_or_app; right; now left|].
    cbn [u_icerik]. now rewrite (occurs_nocase q _ Hocc).
Qed.

Lemma uzun_found_by_search_witness :
  exists rows r,
    uzun_ara None (u "milk") milk_db = (Ok rows, milk_db)
    /\ In r rows /\ u_icerik r = u "buy milk".
Proof.
  assert (Hq : u "milk" <> []) by discriminate.
  assert (Hocc : occurs_in (u "milk") (Sqlite.c_string (u "buy milk"))).
  { exists (u "buy "), []. reflexivity. }
  assert (Hlen : utf8_length (SecurityManager.sanitize_sql_like (u "milk")) <= 50000)
    by (vm_compute; discriminate).
  destruct (uzun_found_by_search (u "3f2a") (u "buy milk") (u "{}") (u "milk")
              [u "errand"] 1000 7 empty_db milk_db eq_refl Hq Hocc Hlen)
    as [rows [r [E [Hin [_ [Hc _]]]]]].
  - simpl. lia.
  - exists rows, r. split; [exact E|]. split; [exact Hin | exact Hc].
Defined.

(** ** Tasks *)

Lemma oncelik_check_spec (oncelik : str) :
  oncelik_check oncelik = true
  <-> In oncelik [u "düşük"; u "orta"; u "yüksek"; u "acil"].
Proof.
  unfold oncelik_check. rewrite existsb_exists. split.
  - intros [x [Hx E]]. apply str_eqb_eq in E. now subst.
  - intros H. exists oncelik. split; [assumption | apply str_eqb_refl].
Qed.

(** [gorev_ekle] that returned: the bindings succeeded, the priority is one
    the table accepts, and the task was appended under a fresh id. *)
Lemma gorev_ekle_inv (now : timestamp) (fault : option exn)
    (baslik aciklama oncelik : str) (id : Z) (d d1 : db) :
  gorev_ekle now fault baslik aciklama oncelik d = (Ok id, d1) ->
  bindable [baslik; aciklama] /\ oncelik_check oncelik = true
  /\ gorev_ekle now None baslik aciklama oncelik d = (Ok id, d1).
Proof.
  unfold gorev_ekle, get_cursor. intros E. destruct fault; [discriminate|].
  assert (E' := E). bind_inv E'.
  destruct (oncelik_check oncelik); [|discriminate].
  split; [repeat constructor; assumption|]. split; [reflexivity | exact E].
Qed.

(** X8.  [gorev_ekle] does not validate the priority itself: with a priority
    other than the four the table accepts the call raises and the store is
    left as it was, and when UTF-8 can encode the three texts it is the
    insert that fails, on the CHECK constraint, with [IntegrityError]; with
    one of the four, a title and a description UTF-8 can encode and a
    healthy storage, the task is stored as pending, without completion
    time, under the id returned. *)
Theorem gorev_ekle_priority (now : timestamp) (baslik aciklama oncelik : str) (d : db) :
  (~ In oncelik [u "düşük"; u "orta"; u "yüksek"; u "acil"] ->
   (exists e, gorev_ekle now None baslik aciklama oncelik d = (Raise e, d))
   /\ (bindable [baslik; aciklama; oncelik] ->
       gorev_ekle now None baslik aciklama oncelik d = (Raise IntegrityError, d)))
  /\ (In oncelik [u "düşük"; u "orta"; u "yüksek"; u "acil"] ->
      bindable [baslik; aciklama] ->
      exists r,
        gorev_ekle now None baslik aciklama oncelik d
        = (Ok (g_id r), set_gorevler (gorevler d ++ [r]) (g_id r) d)
        /\ ~ In (g_id r) (map g_id (gorevler d))
        /\ g_baslik r = baslik /\ g_oncelik r = oncelik
        /\ g_durum r = u "bekliyor" /\ g_tamamlanma r = None).
Proof.
  split; intros H.
  - assert (E : oncelik_check oncelik = false).
    { destruct (oncelik_check oncelik) eqn:E; [|reflexivity].
      apply oncelik_check_spec in E. contradiction. }
    split.
    + unfold gorev_ekle, get_cursor.
      destruct (Sqlite.bind_text baslik); [|eexists; reflexivity].
      destruct (Sqlite.bind_text aciklama); [|eexists; reflexivity].
      destruct (Sqlite.bind_text oncelik) as [x|] eqn:B; [|eexists; reflexivity].
      apply bind_text_inv in B as [-> _]. rewrite E. eexists. reflexivity.
    + intros Hb. bindable_hyps. unfold gorev_ekle, get_cursor.
      rewrite !bind_text_ok by assumption. now rewrite E.
  - intros Hb. apply oncelik_check_spec in H.
    rewrite (gorev_ekle_ok now baslik aciklama oncelik d Hb H).
    exists {| g_id := Sqlite.next_rowid (seq_gorevler d) (map g_id (gorevler d));
              g_baslik := baslik; g_aciklama := aciklama; g_oncelik := oncelik;
              g_durum := u "bekliyor"; g_olusturma := now; g_tamamlanma := None |}.
    split; [reflexivity|]. split; [apply next_rowid_fresh | repeat split].
Qed.

Lemma gorev_ekle_priority_witness :
  gorev_ekle 1000 None (u "write report") [] (u "medium") empty_db
  = (Raise IntegrityError, empty_db).
Proof.
  apply (gorev_ekle_priority 1000 (u "write report") [] (u "medium") empty_db).
  - intros H. simpl in H.
    repeat (destruct H as [H|H]; [discriminate H|]). exact H.
  - repeat constructor.
Defined.

Lemma task_split (id : Z) (r : gorev_row) (l : list gorev_row) :
  NoDup (map g_id l) -> In r l -> g_id r = id ->
  exists l1 l2,
    l = l1 ++ r :: l2
    /\ (forall x, In x l1 -> g_id x <> id) /\ (forall x, In x l2 -> g_id x <> id).
Proof.
  intros Hnd Hin Hid. apply in_split in Hin as [l1 [l2 ->]].
  exists l1, l2. split; [reflexivity|].
  rewrite map_app in Hnd. simpl in Hnd. apply NoDup_remove in Hnd as [_ Hnot].
  split; intros x Hx E; apply Hnot; rewrite Hid, <- E; apply in_or_app;
    [left | right]; now apply in_map.
Qed.

Lemma gorev_stored_effect (now : timestamp) (id : Z) (r : gorev_row) (d : db) :
  constraints d -> In r (gorevler d) -> g_id r = id -> id < 2 ^ 63 ->
  exists l1 l2,
    gorevler d = l1 ++ r :: l2
    /\ gorev_tamamla now None id d
       = (Ok tt, set_gorevler (l1 ++ tamamla now r :: l2) (seq_gorevler d) d)
    /\ g_durum (tamamla now r) = u "tamamlandi"
    /\ g_tamamlanma (tamamla now r) = Some now
    /\ g_baslik (tamamla now r) = g_baslik r
    /\ gorev_sil None id d = (Ok tt, set_gorevler (l1 ++ l2) (seq_gorevler d) d).
Proof.
  intros Hc Hin Hid Hmax.
  destruct (task_split id r (gorevler d) (pk_gorev d Hc) Hin Hid) as [l1 [l2 [E [H1 H2]]]].
  exists l1, l2. split; [assumption|].
  assert (Hpos : 0 < id).
  { pose proof (seq_gorev d Hc) as Hs. rewrite Forall_forall in Hs.
    specialize (Hs r Hin). lia. }
  unfold gorev_tamamla, gorev_sil, get_cursor.
  rewrite bind_int_ok by lia. rewrite E.
  rewrite map_app, filter_app. simpl. rewrite Hid, Z.eqb_refl. simpl.
  rewrite !map_id_when, !filter_all; try (repeat split; reflexivity).
  - intros x Hx. destruct (Z.eqb_spec (g_id x) id) as [Ex|Ex]; [|reflexivity].
    now destruct (H2 x Hx).
  - intros x Hx. destruct (Z.eqb_spec (g_id x) id) as [Ex|Ex]; [|reflexivity].
    now destruct (H1 x Hx).
  - intros x Hx. destruct (Z.eqb_spec (g_id x) id) as [Ex|Ex]; [|reflexivity].
    now destruct (H2 x Hx).
  - intros x Hx. destruct (Z.eqb_spec (g_id x) id) as [Ex|Ex]; [|reflexivity].
    now destruct (H1 x Hx).
Qed.

(** X9.  On a store that satisfies the constraints of the schema,
    completing a stored task changes that task and no other: its status
    becomes [tamamlandi] and its completion time the current time, whatever
    its status was (a completed task gets a new completion time); deleting
    it removes that task and no other. *)
Theorem gorev_tamamla_sil_stored (now : timestamp) (id : Z) (r : gorev_row) (d : db) :
  constraints d -> In r (gorevler d) -> g_id r = id -> id < 2 ^ 63 ->
  exists l1 l2,
    gorevler d = l1 ++ r :: l2
    /\ gorev_tamamla now None id d
       = (Ok tt, set_gorevler (l1 ++ tamamla now r :: l2) (seq_gorevler d) d)
    /\ g_durum (tamamla now r) = u "tamamlandi"
    /\ g_tamamlanma (tamamla now r) = Some now
    /\ g_baslik (tamamla now r) = g_baslik r
    /\ gorev_sil None id d = (Ok tt, set_gorevler (l1 ++ l2) (seq_gorevler d) d).
Proof. apply gorev_stored_effect. Qed.

Lemma gorev_tamamla_sil_stored_witness :
  exists r,
    gorevler one_task_db = [r]
    /\ gorev_tamamla 2000 None 1 one_task_db
       = (Ok tt, set_gorevler [tamamla 2000 r] (seq_gorevler one_task_db) one_task_db)
    /\ gorev_sil None 1 one_task_db
       = (Ok tt, set_gorevler [] (seq_gorevler one_task_db) one_task_db).
Proof.
  assert (Hc : constraints one_task_db).
  { apply (constraints_call ascii_lower None
             (GorevEkle 1000 (u "write report") [] (u "orta")) empty_db constraints_empty). }
  assert (Hin : exists r, gorevler one_task_db = [r] /\ g_id r = 1)
    by (eexists; split; reflexivity).
  destruct Hin as [r [Er Hid]]. exists r. split; [exact Er|].
  assert (Hr : In r (gorevler one_task_db)) by (rewrite Er; now left).
  destruct (gorev_tamamla_sil_stored 2000 1 r one_task_db Hc Hr Hid ltac:(reflexivity))
    as [l1 [l2 [E [Ht [_ [_ [_ Hs]]]]]]].
  rewrite Er in E. destruct l1 as [|x l1].
  - simpl in E. assert (El : l2 = []) by congruence. rewrite El in Ht, Hs.
    split; [exact Ht | exact Hs].
  - exfalso. simpl in E. assert (El : [] = l1 ++ r :: l2) by congruence.
    destruct l1; discriminate El.
Defined.

(** X10.  The statistics agree with the listings, on every store:
    [istatistik] counts as tasks what [gorev_listele] lists without a
    filter and as pending tasks what it lists for the status [bekliyor].
    A call of [gorev_ekle] that returns raises both counts by one, whatever
    its priority, and a call that raises leaves them as they are;
    completing a stored pending task lowers the pending count by one and
    leaves the task count as it is. *)
Theorem istatistik_counts_tasks (now : timestamp) (baslik aciklama oncelik : str)
    (d : db) :
  exists st all pending,
    istatistik None d = (Ok st, d)
    /\ gorev_listele None None d = (Ok all, d)
    /\ gorev_listele None (Some (u "bekliyor")) d = (Ok pending, d)
    /\ s_gorev st = Z.of_nat (List.length all)
    /\ s_gorev_bekliyor st = Z.of_nat (List.length pending)
    /\ 0 <= s_gorev_bekliyor st <= s_gorev st
    /\ (forall id d1,
          gorev_ekle now None baslik aciklama oncelik d = (Ok id, d1) ->
          exists st1,
            istatistik None d1 = (Ok st1, d1)
            /\ s_gorev st1 = s_gorev st + 1
            /\ s_gorev_bekliyor st1 = s_gorev_bekliyor st + 1)
    /\ (forall e d1,
          gorev_ekle now None baslik aciklama oncelik d = (Raise e, d1) ->
          istatistik None d1 = (Ok st, d1))
    /\ (forall r,
          constraints d -> In r (gorevler d) -> g_durum r = u "bekliyor" ->
          g_id r < 2 ^ 63 ->
          exists st2,
            fst (istatistik None (snd (gorev_tamamla now None (g_id r) d))) = Ok st2
            /\ s_gorev st2 = s_gorev st
            /\ s_gorev_bekliyor st2 = s_gorev_bekliyor st - 1).
Proof.
  do 3 eexists.
  split; [reflexivity|]. split; [reflexivity|]. split; [reflexivity|].
  split; [|split; [|split; [|split; [|split]]]].
  - cbn [s_gorev]. unfold count.
    now rewrite (Permutation_length (order_by_perm _ _)).
  - cbn [s_gorev_bekliyor]. unfold count.
    now rewrite (Permutation_length (order_by_perm _ _)).
  - cbn [s_gorev s_gorev_bekliyor]. unfold count.
    pose proof (filter_length_le (fun r => str_eqb (g_durum r) (u "bekliyor")) (gorevler d)).
    lia.
  - intros id d1 E. apply gorev_ekle_inv in E as [Hb [Ho E]].
    rewrite (gorev_ekle_ok now baslik aciklama oncelik d Hb Ho) in E.
    injection E as _ <-. eexists. split; [reflexivity|].
    cbn [s_gorev s_gorev_bekliyor gorevler set_gorevler]. unfold count.
    rewrite filter_app, !length_app. simpl. lia.
  - intros e d1 E.
    pose proof (proj1 (call_leaves_store (fun s => s) None
                         (GorevEkle now baslik aciklama oncelik) d) e) as H.
    cbn [run_call] in H. rewrite E in H. cbn [raised fst snd] in H.
    now rewrite (H eq_refl).
  - intros r Hc Hin Hd Hmax.
    destruct (gorev_stored_effect now (g_id r) r d Hc Hin eq_refl Hmax)
      as [l1 [l2 [E [Ht _]]]].
    rewrite Ht. eexists. split; [reflexivity|].
    cbn [s_gorev s_gorev_bekliyor snd gorevler set_gorevler]. unfold count.
    rewrite E, !filter_app, !length_app. cbn [filter tamamla g_durum].
    rewrite Hd. simpl. lia.
Qed.

Lemma istatistik_counts_tasks_witness :
  exists st st_done,
    istatistik None one_task_db = (Ok st, one_task_db)
    /\ s_gorev st = 1 /\ s_gorev_bekliyor st = 1
    /\ fst (istatistik None (snd (gorev_tamamla 2000 None 1 one_task_db))) = Ok st_done
    /\ s_gorev st_done = 1 /\ s_gorev_bekliyor st_done = 0.
Proof.
  assert (Hc : constraints one_task_db).
  { apply (constraints_call ascii_lower None
             (GorevEkle 1000 (u "write report") [] (u "orta")) empty_db constraints_empty). }
  assert (Hin : exists r, gorevler one_task_db = [r] /\ g_id r = 1
                          /\ g_durum r = u "bekliyor")
    by (eexists; repeat split; reflexivity).
  destruct Hin as [r [Er [Hid Hd]]].
  assert (Hr : In r (gorevler one_task_db)) by (rewrite Er; now left).
  assert (Hmax : g_id r < 2 ^ 63) by (rewrite Hid; reflexivity).
  destruct (istatistik_counts_tasks 2000 [] [] (u "orta") one_task_db)
    as [st [_ [_ [E1 [_ [_ [_ [_ [_ [_ [_ H]]]]]]]]]]].
  destruct (H r Hc Hr Hd Hmax) as [st_done [E2 [G1 G2]]].
  rewrite Hid in E2. exists st, st_done.
  assert (Est : st = {| s_kisa := 0; s_uzun := 0; s_beyani := 0; s_episodik := 0;
                        s_oturum := 0; s_gorev := 1; s_gorev_bekliyor := 1;
                        s_ogrenilen := 0 |}).
  { assert (X : Ok {| s_kisa := 0; s_uzun := 0; s_beyani := 0; s_episodik := 0;
                      s_oturum := 0; s_gorev := 1; s_gorev_bekliyor := 1;
                      s_ogrenilen := 0 |} = Ok st)
      by exact (f_equal fst E1).
    now injection X. }
  split; [exact E1|]. split; [now rewrite Est|]. split; [now rewrite Est|].
  split; [exact E2|]. rewrite G1, G2, Est. split; reflexivity.
Defined.

(** ** Statements and episodes *)

(** X11.  Round trip of a statement: after [beyani_ekle], [beyani_getir]
    for the category of the statement returns it; the rows come newest
    first, and for a category that is not the empty string they all carry
    that category.  Asked for the empty string, [beyani_getir] applies no
    filter and returns the statements of every category. *)
Theorem beyani_round_trip (uuid4 icerik kategori meta_json : str) (now : timestamp)
    (d d1 : db) :
  beyani_ekle uuid4 now None icerik kategori meta_json d = (Ok uuid4, d1) ->
  exists rows r,
    beyani_getir None (Some kategori) d1 = (Ok rows, d1)
    /\ In r rows /\ b_id r = uuid4 /\ b_icerik r = icerik /\ b_kategori r = kategori
    /\ sorted_desc b_olusturma rows
    /\ (kategori <> [] -> forall x, In x rows -> b_kategori x = kategori)
    /\ (kategori = [] -> Permutation rows (beyani d1)).
Proof.
  unfold beyani_ekle, get_cursor. intros E. bind_inv E.
  destruct (existsb _ _); [discriminate|]. injection E as <-.
  unfold beyani_getir, get_cursor. destruct kategori as [|c s];
    [|rewrite (bind_text_ok (c :: s)) by assumption].
  - eexists.
    exists {| b_id := uuid4; b_icerik := icerik; b_metadata := meta_json;
              b_kategori := []; b_olusturma := now |}.
    split; [reflexivity|]. split; [|repeat split].
    + apply (Permutation_in _ (Permutation_sym (order_by_perm _ _))).
      simpl. apply in_or_app. right. now left.
    + apply order_by_desc_sorted.
    + intros H. now destruct H.
    + intros _. apply order_by_perm.
  - eexists.
    exists {| b_id := uuid4; b_icerik := icerik; b_metadata := meta_json;
              b_kategori := c :: s; b_olusturma := now |}.
    split; [reflexivity|]. split; [|repeat split].
    + apply (Permutation_in _ (Permutation_sym (order_by_perm _ _))).
      apply filter_In. split; [simpl; apply in_or_app; right; now left|].
      apply str_eqb_refl.
    + apply order_by_desc_sorted.
    + intros _ x Hx. apply (Permutation_in _ (order_by_perm _ _)) in Hx.
      apply filter_In in Hx as [_ Hx]. now apply str_eqb_eq in Hx.
    + discriminate.
Qed.

Lemma beyani_round_trip_witness :
  exists d1 rows r,
    beyani_ekle (u "5a5a") 1000 None (u "water boils at 100 C") (u "genel") (u "{}")
      empty_db = (Ok (u "5a5a"), d1)
    /\ beyani_getir None (Some (u "genel")) d1 = (Ok rows, d1)
    /\ In r rows /\ b_icerik r = u "water boils at 100 C".
Proof.
  destruct (beyani_round_trip (u "5a5a") (u "water boils at 100 C") (u "genel") (u "{}")
              1000 empty_db _ eq_refl) as [rows [r [E [Hin [_ [Hc _]]]]]].
  eexists. exists rows, r. split; [reflexivity|]. split; [exact E|].
  split; [exact Hin | exact Hc].
Defined.

(** X12.  Round trip of an episode: after [episodik_ekle], [episodik_getir],
    asked with a limit from 0 to 2^63-1, returns it among the newest first,
    in a store of no more episodes than the limit; what it returns is never
    longer than the limit. *)
Theorem episodik_round_trip (uuid4 olay duygu baglam_json meta_json : str)
    (now : timestamp) (limit : Z) (d d1 : db) :
  episodik_ekle uuid4 now None olay duygu baglam_json meta_json d = (Ok uuid4, d1) ->
  0 <= limit < 2 ^ 63 ->
  exists rows,
    episodik_getir None limit d1 = (Ok rows, d1)
    /\ sorted_desc e_zaman rows
    /\ Z.of_nat (List.length rows) <= limit
    /\ (Z.of_nat (List.length (episodik d1)) <= limit ->
        exists r, In r rows /\ e_id r = uuid4 /\ e_olay r = olay /\ e_duygu r = duygu).
Proof.
  unfold episodik_ekle, get_cursor. intros E Hlim. bind_inv E.
  destruct (existsb _ _); [discriminate|]. injection E as <-.
  unfold episodik_getir, get_cursor. rewrite bind_int_ok by lia.
  eexists. split; [reflexivity|]. split; [|split].
  - rewrite limit_nonneg by lia. apply StronglySorted_firstn.
    apply order_by_desc_sorted.
  - apply limit_length. lia.
  - intros Hcount.
    exists {| e_id := uuid4; e_olay := olay; e_metadata := meta_json; e_duygu := duygu;
              e_baglam := baglam_json; e_zaman := now |}.
    split; [|repeat split].
    apply limit_all; [lia | assumption|].
    simpl. apply in_or_app. right. now left.
Qed.

Lemma episodik_round_trip_witness :
  exists d1 rows,
    episodik_ekle (u "e1e1") 1000 None (u "met a friend") (u "mutlu") (u "{}") (u "{}")
      empty_db = (Ok (u "e1e1"), d1)
    /\ episodik_getir None 20 d1 = (Ok rows, d1)
    /\ Z.of_nat (List.length rows) <= 20.
Proof.
  assert (Hlim : 0 <= 20 < 2 ^ 63) by (split; [lia | reflexivity]).
  destruct (episodik_round_trip (u "e1e1") (u "met a friend") (u "mutlu") (u "{}") (u "{}")
              1000 20 empty_db _ eq_refl Hlim) as [rows [E [_ [Hl _]]]].
  eexists. exists rows. split; [reflexivity|]. split; [exact E | exact Hl].
Defined.

(** ** Sessions and messages *)

Lemma find_snoc_fresh (id : str) (l : list oturum_row) (r : oturum_row) :
  ~ In id (map o_id l) -> o_id r = id ->
  find (fun x => str_eqb (o_id x) id) (l ++ [r]) = Some r.
Proof.
  intros Hfresh Hid. induction l as [|x l IH]; simpl.
  - now rewrite Hid, str_eqb_refl.
  - destruct (str_eqb (o_id x) id) eqn:E.
    + apply str_eqb_eq in E. exfalso. apply Hfresh. simpl. now left.
    + apply IH. intros Hin. apply Hfresh. simpl. now right.
Qed.

(** X13.  A session created by [oturum_olustur], with an id that is new
    and a working directory UTF-8 can encode, gets the first 8 characters
    of the uuid as its id and, without a name, the name [oturum-] followed
    by the id; [oturum_getir] then returns it.  A second creation whose
    uuid starts with the same 8 characters raises and leaves the store as
    it was: [IntegrityError], from the primary key, when UTF-8 can encode
    its name and its path. *)
Theorem oturum_round_trip (uuid4 uuid4' cwd : str) (now now' : timestamp)
    (isim' proje' : option str) (d : db) :
  ~ In (firstn 8 uuid4) (map o_id (oturumlar d)) ->
  bindable [firstn 8 uuid4; cwd] ->
  firstn 8 uuid4' = firstn 8 uuid4 ->
  exists r d1,
    oturum_olustur uuid4 now cwd None None None d
    = (Ok (firstn 8 uuid4, u "oturum-" ++ firstn 8 uuid4), d1)
    /\ oturumlar d1 = oturumlar d ++ [r]
    /\ oturum_getir None (firstn 8 uuid4) d1 = (Ok (Some r), d1)
    /\ o_id r = firstn 8 uuid4
    /\ o_isim r = u "oturum-" ++ firstn 8 uuid4
    /\ o_proje_yolu r = cwd
    /\ (exists e,
          oturum_olustur uuid4' now' cwd None isim' proje' d1 = (Raise e, d1))
    /\ (bindable [or_default isim' (u "oturum-" ++ firstn 8 uuid4');
                  or_default proje' cwd] ->
        oturum_olustur uuid4' now' cwd None isim' proje' d1
        = (Raise IntegrityError, d1)).
Proof.
  intros Hfresh Hb Hsame. bindable_hyps.
  assert (F : existsb (fun r => str_eqb (o_id r) (firstn 8 uuid4)) (oturumlar d) = false).
  { destruct (existsb _ _) eqn:X; [|reflexivity].
    apply existsb_exists in X as [r [Hr Heq]]. apply str_eqb_eq in Heq.
    exfalso. apply Hfresh. apply in_map_iff. eauto. }
  assert (Hisim : Sqlite.encodable (u "oturum-" ++ firstn 8 uuid4) = true).
  { rewrite encodable_app. apply andb_true_iff. split; [reflexivity | assumption]. }
  exists {| o_id := firstn 8 uuid4; o_isim := u "oturum-" ++ firstn 8 uuid4;
            o_proje_yolu := cwd; o_olusturma := now; o_mod := u "build" |}.
  eexists. unfold oturum_olustur, oturum_getir, get_cursor.
  rewrite Hsame. cbn [or_default].
  rewrite !bind_text_ok by assumption. rewrite F.
  split; [reflexivity|]. cbn [oturumlar set_oturumlar].
  split; [reflexivity|].
  assert (X : existsb (fun r => str_eqb (o_id r) (firstn 8 uuid4))
                (oturumlar d ++
                   [{| o_id := firstn 8 uuid4; o_isim := u "oturum-" ++ firstn 8 uuid4;
                       o_proje_yolu := cwd; o_olusturma := now; o_mod := u "build" |}])
              = true).
  { rewrite existsb_app. simpl. now rewrite str_eqb_refl, orb_true_r. }
  split; [|split; [reflexivity|split; [reflexivity|split; [reflexivity|split]]]].
  - rewrite find_snoc_fresh; [reflexivity | assumption | reflexivity].
  - destruct (Sqlite.bind_text (or_default isim' _)) as [x|]; [|eexists; reflexivity].
    destruct (Sqlite.bind_text (or_default proje' cwd)) as [y|]; [|eexists; reflexivity].
    rewrite X. eexists. reflexivity.
  - intros Hb'. bindable_hyps. rewrite !bind_text_ok by assumption.
    now rewrite X.
Qed.

Lemma oturum_round_trip_witness :
  exists r d1,
    oturum_olustur (u "ab12cd34-5e6f") 1000 (u "/home/user") None None None empty_db
    = (Ok (u "ab12cd34", u "oturum-ab12cd34"), d1)
    /\ oturum_getir None (u "ab12cd34") d1 = (Ok (Some r), d1)
    /\ oturum_olustur (u "ab12cd34-9999") 2000 (u "/home/user") None None None d1
       = (Raise IntegrityError, d1).
Proof.
  destruct (oturum_round_trip (u "ab12cd34-5e6f") (u "ab12cd34-9999") (u "/home/user")
              1000 2000 None None empty_db)
    as [r [d1 [E1 [_ [E2 [_ [_ [_ [_ E3]]]]]]]]].
  - intros [].
  - repeat constructor.
  - reflexivity.
  - exists r, d1. split; [exact E1|]. split; [exact E2|].
    apply E3. repeat constructor.
Defined.

Lemma rol_check_spec (rol : str) :
  rol_check rol = true <-> In rol [u "user"; u "assistant"; u "system"].
Proof.
  unfold rol_check. rewrite existsb_exists. split.
  - intros [x [Hx E]]. apply str_eqb_eq in E. now subst.
  - intros H. exists rol. split; [assumption | apply str_eqb_refl].
Qed.

(** X14.  [oturum_mesaj_ekle] refuses a role other than [user],
    [assistant], [system] with [ValueError] before it opens its unit of
    work: the store is unchanged whatever the state of the storage.  With
    one of the three roles, a session id and a content UTF-8 can encode and
    a healthy storage, it stores the message under a fresh id, and does so
    for every such session id: whether a session with that id exists is
    not checked. *)
Theorem oturum_mesaj_ekle_role (now : timestamp) (fault : option exn)
    (oid rol icerik : str) (d : db) :
  (~ In rol [u "user"; u "assistant"; u "system"] ->
   oturum_mesaj_ekle now fault oid rol icerik d
   = (Raise (ValueError (u "Rol user/assistant/system olmalı")), d))
  /\ (In rol [u "user"; u "assistant"; u "system"] ->
      bindable [oid; icerik] ->
      exists m,
        oturum_mesaj_ekle now None oid rol icerik d
        = (Ok tt, set_mesajlar (mesajlar d ++ [m]) (m_id m) d)
        /\ ~ In (m_id m) (map m_id (mesajlar d))
        /\ m_oturum_id m = oid /\ m_rol m = rol /\ m_icerik m = icerik
        /\ m_zaman m = now).
Proof.
  unfold oturum_mesaj_ekle, get_cursor, insert_mesaj. fold (rol_check rol).
  split; intros H.
  - destruct (rol_check rol) eqn:E; [|reflexivity].
    apply rol_check_spec in E. contradiction.
  - intros Hb. bindable_hyps. apply rol_check_spec in H. rewrite H. cbn [negb].
    rewrite !bind_text_ok by (assumption || now apply rol_check_encodable).
    rewrite H. simpl.
    exists {| m_id := Sqlite.next_rowid (seq_mesajlar d) (map m_id (mesajlar d));
              m_oturum_id := oid; m_rol := rol; m_icerik := icerik; m_zaman := now |}.
    split; [reflexivity|]. split; [apply next_rowid_fresh | repeat split].
Qed.

Lemma oturum_mesaj_ekle_role_witness :
  oturum_mesaj_ekle 1000 (Some OperationalError) (u "ab12cd34") (u "admin") (u "hello")
    empty_db
  = (Raise (ValueError (u "Rol user/assistant/system olmalı")), empty_db)
  /\ exists m,
       oturum_mesaj_ekle 1000 None (u "no-such-session") (u "user") (u "hello") empty_db
       = (Ok tt, set_mesajlar [m] (m_id m) empty_db).
Proof.
  split.
  - apply (oturum_mesaj_ekle_role 1000 (Some OperationalError) (u "ab12cd34")
             (u "admin") (u "hello") empty_db).
    intros H. simpl in H. repeat (destruct H as [H|H]; [discriminate H|]). exact H.
  - destruct (oturum_mesaj_ekle_role 1000 None (u "no-such-session") (u "user")
                (u "hello") empty_db) as [_ H].
    destruct H as [m [E _]]; [now left | repeat constructor|]. exists m. exact E.
Defined.

(** X15.  The messages of one session do not show in another: after a
    message is appended to a session, [oturum_mesajlari], asked with a
    limit from 0 to 2^63-1, returns for every other session what it
    returned before; for the session itself it
    returns only messages of that session, newest first, no more than the
    limit, the new message among them when the session has no more messages
    than the limit. *)
Theorem oturum_mesajlari_isolation (now : timestamp) (oid rol icerik : str)
    (limit : Z) (d d1 : db) :
  oturum_mesaj_ekle now None oid rol icerik d = (Ok tt, d1) ->
  0 <= limit < 2 ^ 63 ->
  (forall oid', oid' <> oid ->
     oturum_mesajlari None oid' limit d1 = (fst (oturum_mesajlari None oid' limit d), d1))
  /\ exists rows,
       oturum_mesajlari None oid limit d1 = (Ok rows, d1)
       /\ (forall x, In x rows -> m_oturum_id x = oid)
       /\ sorted_desc m_zaman rows
       /\ Z.of_nat (List.length rows) <= limit
       /\ (Z.of_nat (List.length
                       (filter (fun r => str_eqb (m_oturum_id r) oid) (mesajlar d1)))
           <= limit ->
           exists m, In m rows /\ m_rol m = rol /\ m_icerik m = icerik /\ m_zaman m = now).
Proof.
  unfold oturum_mesaj_ekle, get_cursor, insert_mesaj. intros E Hlim.
  destruct (negb (existsb (str_eqb rol) [u "user"; u "assistant"; u "system"]));
    [discriminate|].
  bind_inv E.
  destruct (negb (rol_check rol)); [discriminate|]. simpl in E.
  injection E as <-. unfold oturum_mesajlari, get_cursor.
  rewrite bind_int_ok by lia. cbn [mesajlar set_mesajlar fst]. split.
  - intros oid' Hne.
    destruct (Sqlite.bind_text oid') as [x|e] eqn:Bo; [|reflexivity].
    apply bind_text_inv in Bo as [-> _]. cbn [fst].
    rewrite filter_app. simpl.
    assert (X : str_eqb oid oid' = false).
    { apply str_eqb_neq. congruence. }
    rewrite X, app_nil_r. reflexivity.
  - rewrite (bind_text_ok oid) by assumption.
    eexists. split; [reflexivity|]. split; [|split; [|split]].
    + intros x Hx. apply in_limit in Hx.
      apply (Permutation_in _ (order_by_perm _ _)) in Hx.
      apply filter_In in Hx as [_ Hx]. now apply str_eqb_eq in Hx.
    + rewrite limit_nonneg by lia. apply StronglySorted_firstn.
      apply order_by_desc_sorted.
    + apply limit_length. lia.
    + intros Hcount.
      exists {| m_id := Sqlite.next_rowid (seq_mesajlar d) (map m_id (mesajlar d));
                m_oturum_id := oid; m_rol := rol; m_icerik := icerik; m_zaman := now |}.
      split; [|repeat split].
      apply limit_all; [lia | assumption|].
      apply filter_In. split; [apply in_or_app; right; now left|].
      apply str_eqb_refl.
Qed.

Lemma oturum_mesajlari_isolation_witness :
  exists d1,
    oturum_mesaj_ekle 5000 None (u "ab12cd34") (u "user") (u "again") session_db
    = (Ok tt, d1)
    /\ oturum_mesajlari None (u "ffff0000") 100 d1
       = (fst (oturum_mesajlari None (u "ffff0000") 100 session_db), d1).
Proof.
  assert (Hlim : 0 <= 100 < 2 ^ 63) by (split; [lia | reflexivity]).
  destruct (oturum_mesajlari_isolation 5000 (u "ab12cd34") (u "user") (u "again") 100
              session_db _ eq_refl Hlim) as [H _].
  eexists. split; [reflexivity|]. apply H. discriminate.
Defined.

(** ** Looking up learned answers *)

Lemma like_contains_plain (q s : str) :
  ~ In 37 q -> ~ In 95 q ->
  Sqlite.like_match None ([37] ++ q ++ [37]) s = nocase_occurs q s.
Proof.
  intros H1 H2. unfold Sqlite.like_match.
  change ([37] ++ q ++ [37]) with (37 :: (q ++ [37])).
  cbn [Sqlite.like_tokens].
  assert (E37 : (37 =? 37) = true) by reflexivity. rewrite E37.
  rewrite like_tokens_plain by assumption.
  apply tok_match_lits_occurs.
Qed.

Lemma nocase_occurs_length (q s : str) :
  nocase_occurs q s = true -> (List.length q <= List.length s)%nat.
Proof.
  intros H. apply nocase_occurs_spec in H as [a [m [b [E H]]]].
  apply Forall2_length in H. subst s. rewrite !length_app. lia.
Qed.

Lemma c_string_length (s : str) :
  (List.length (Sqlite.c_string s) <= List.length s)%nat.
Proof.
  destruct (c_string_split s) as [_ [rest E]].
  rewrite E at 2. rewrite length_app. lia.
Qed.

Lemma contains_pattern_encodable (q : str) :
  Sqlite.encodable q = true -> Sqlite.encodable ([37] ++ q ++ [37]) = true.
Proof. intros H. now rewrite !encodable_app, H. Qed.

Lemma contains_pattern_nul_free (q : str) : nul_free q -> nul_free ([37] ++ q ++ [37]).
Proof.
  intros H. apply nul_free_app. split; [intros [E|[]]; discriminate|].
  apply nul_free_app. split; [assumption|]. intros [E|[]]; discriminate.
Qed.

(** The rows [ogrenilen_ara] selects for a query without wildcard, when
    its pattern can be bound, has no U+0000 and is within the limit of the
    engine: the keys are read up to their first U+0000. *)
Lemma ogrenilen_ara_plain (lower : str -> str) (q : str) (d : db) :
  Sqlite.encodable (lower q) = true -> nul_free (lower q) ->
  utf8_length (lower q) <= 49998 ->
  ~ In 37 (lower q) -> ~ In 95 (lower q) ->
  ogrenilen_ara lower None q d
  = (Ok (Sqlite.limit 5
           (Sqlite.order_by (Sqlite.desc l_olusturma)
              (filter (fun r => nocase_occurs (lower q) (Sqlite.c_string (l_soru r)))
                 (ogrenilen d)))), d).
Proof.
  intros He Hn Hlen H1 H2. unfold ogrenilen_ara, get_cursor.
  rewrite bind_text_ok by now apply contains_pattern_encodable.
  rewrite (where_ok _ (fun r => nocase_occurs (lower q) (Sqlite.c_string (l_soru r))));
    [reflexivity|].
  intros r _. rewrite like_within.
  - rewrite c_string_nul_free by now apply contains_pattern_nul_free.
    now rewrite like_contains_plain.
  - rewrite !utf8_length_app. change (utf8_length [37]) with 1. lia.
Qed.

(** X16.  Looking up what was taught.  Take a key and an answer UTF-8 can
    encode, and a query whose lower-cased text UTF-8 can encode, has no
    [%], [_] and U+0000 and is at most 49998 bytes long.  Then [ogren]
    stores the answer and [ogrenilen_ara] succeeds; it finds the answer
    when the lower-cased query occurs in the stored key read up to its
    first U+0000, in a table of at most 5 rows; it never finds it when the
    lower-cased query is longer than the stored key.  The key is trimmed
    and the query is not: a question taught with white space around it is
    not found by the same text. *)
Theorem ogrenilen_ara_after_ogren (lower : str -> str) (now : timestamp)
    (soru yanit q : str) (d : db) :
  bindable [strip (lower soru); yanit; lower q] ->
  nul_free (lower q) ->
  utf8_length (lower q) <= 49998 ->
  ~ In 37 (lower q) -> ~ In 95 (lower q) ->
  exists d1 rows,
    ogren lower now None soru yanit d = (true, d1)
    /\ ogrenilen_ara lower None q d1 = (Ok rows, d1)
    /\ (occurs_in (lower q) (Sqlite.c_string (strip (lower soru))) ->
        (List.length (ogrenilen d1) <= 5)%nat ->
        exists r, In r rows /\ l_soru r = strip (lower soru) /\ l_yanit r = yanit)
    /\ ((List.length (strip (lower soru)) < List.length (lower q))%nat ->
        forall r, In r rows -> l_soru r <> strip (lower soru)).
Proof.
  intros Hb Hn Hlen H1 H2. bindable_hyps.
  eexists. eexists. split; [now apply ogren_ok|].
  split; [now apply ogrenilen_ara_plain|]. split.
  - intros Hocc Hcount.
    exists {| l_id := Sqlite.next_rowid (seq_ogrenilen d) (map l_id (ogrenilen d));
              l_soru := strip (lower soru); l_yanit := yanit; l_olusturma := now |}.
    split; [|split; reflexivity].
    apply limit_all; [lia | |].
    + match goal with
      | |- Z.of_nat (List.length (filter ?f ?l)) <= _ =>
          pose proof (filter_length_le f l)
      end. lia.
    + apply filter_In. split.
      * unfold insert_or_replace_ogrenilen. simpl. apply in_or_app. right. now left.
      * cbn [l_soru]. now apply occurs_nocase.
  - intros Hlong r Hr E. apply in_limit in Hr.
    apply (Permutation_in _ (order_by_perm _ _)) in Hr.
    apply filter_In in Hr as [_ Hr].
    apply nocase_occurs_length in Hr. rewrite E in Hr.
    pose proof (c_string_length (strip (lower soru))). lia.
Qed.

Lemma ogrenilen_ara_after_ogren_witness :
  exists d1 rows r,
    ogren ascii_lower 1000 None (u " Capital of France ") (u "Paris") empty_db = (true, d1)
    /\ ogrenilen_ara ascii_lower None (u "Capital") d1 = (Ok rows, d1)
    /\ In r rows /\ l_yanit r = u "Paris".
Proof.
  destruct (ogrenilen_ara_after_ogren ascii_lower 1000 (u " Capital of France ")
              (u "Paris") (u "Capital") empty_db) as [d1 [rows [E0 [E [H _]]]]].
  - repeat constructor.
  - intros H. vm_compute in H. repeat (destruct H as [H|H]; [discriminate H|]). exact H.
  - vm_compute. discriminate.
  - intros H. vm_compute in H. repeat (destruct H as [H|H]; [discriminate H|]). exact H.
  - intros H. vm_compute in H. repeat (destruct H as [H|H]; [discriminate H|]). exact H.
  - destruct H as [r [Hin [_ Hy]]].
    + apply occursb_spec. reflexivity.
    + injection E0 as <-. simpl. lia.
    + exists d1, rows, r. split; [exact E0|]. split; [exact E|].
      split; [exact Hin | exact Hy].
Defined.

(* ================================================================== *)
(** * Further properties of the command runner *)

Lemma first_dangerous_earliest (chars : list Z) (cmd : str) (c : Z) :
  SecurityManager.first_dangerous chars cmd = Some c ->
  exists pre post,
    chars = pre ++ c :: post /\ In c cmd /\ (forall x, In x pre -> ~ In x cmd).
Proof.
  induction chars as [|x chars IH]; simpl; [discriminate|].
  destruct (char_in x cmd) eqn:Hx.
  - intros E. injection E as <-. exists [], chars.
    split; [reflexivity|]. split; [now apply char_in_In | intros y []].
  - intros E. destruct (IH E) as [pre [post [-> [Hin Hpre]]]].
    exists (x :: pre), post. split; [reflexivity|]. split; [assumption|].
    intros y [<-|Hy]; [|now apply Hpre].
    intros Hc. apply char_in_In in Hc. congruence.
Qed.

Lemma first_dangerous_exists (chars : list Z) (cmd : str) (c : Z) :
  In c chars -> In c cmd ->
  exists c0, SecurityManager.first_dangerous chars cmd = Some c0.
Proof.
  intros Hc Hin.
  destruct (SecurityManager.first_dangerous chars cmd) as [c0|] eqn:E; [eauto|].
  exfalso. now apply (first_dangerous_None _ _ E c Hc).
Qed.

(** X17.  A command that holds a character of the deny-list never reaches a
    process: whatever the subprocess, the file system and the timeouts
    would do, [powershell] and [opencode] return the text
    [Güvenlik hatası: Komut içinde izin verilmeyen karakter: c], where [c]
    is, among the characters of the deny-list that occur in the command,
    the one listed first. *)
Theorem refused_command_runs_nothing (cmd : str) (c : Z) :
  In c SecurityManager.dangerous_chars -> In c cmd ->
  exists c0 pre post,
    SecurityManager.dangerous_chars = pre ++ c0 :: post
    /\ In c0 cmd /\ (forall x, In x pre -> ~ In x cmd)
    /\ (forall exception_text ps_timeout run,
          powershell exception_text ps_timeout run cmd
          = u "Güvenlik hatası: Komut içinde izin verilmeyen karakter: " ++ [c0])
    /\ (forall exception_text cli opencode_timeout mkdir path_valid run,
          opencode exception_text cli opencode_timeout mkdir path_valid run cmd
          = u "Güvenlik hatası: Komut içinde izin verilmeyen karakter: " ++ [c0]).
Proof.
  intros Hc Hin.
  destruct (first_dangerous_exists _ _ _ Hc Hin) as [c0 E].
  destruct (first_dangerous_earliest _ _ _ E) as [pre [post [Ed [Hin0 Hpre]]]].
  exists c0, pre, post. split; [assumption|]. split; [assumption|].
  split; [assumption|]. split.
  - intros. unfold powershell, SecurityManager.sanitize_command. rewrite E. vm_compute. reflexivity.
  - intros. unfold opencode, SecurityManager.sanitize_command. rewrite E. vm_compute. reflexivity.
Qed.

Lemma refused_command_runs_nothing_witness :
  powershell (fun _ => []) 60 (fun _ => Ok boom_process) (u "dir | more; del x")
  = u "Güvenlik hatası: Komut içinde izin verilmeyen karakter: ;".
Proof.
  destruct (refused_command_runs_nothing (u "dir | more; del x") 124)
    as [c0 [pre [post [Ed [Hin [Hpre [Hp _]]]]]]].
  - vm_compute. tauto.
  - vm_compute. tauto.
  - rewrite Hp. f_equal.
    destruct pre as [|x pre].
    + simpl in Ed. injection Ed as <- _. reflexivity.
    + exfalso. injection Ed as Ex _. apply (Hpre x); [now left|].
      rewrite <- Ex. vm_compute. tauto.
Defined.

Lemma in_strip (c : Z) (s : str) : In c (strip s) -> In c s.
Proof.
  intros H. destruct (strip_trimmed s) as [[pre [post [E _]]] _].
  rewrite E. apply in_or_app. right. apply in_or_app. now left.
Qed.

Lemma strip_idempotent (s : str) : strip (strip s) = strip s.
Proof.
  destruct (strip_trimmed s) as [_ [Hh Hl]]. now apply strip_id.
Qed.

(** X18.  A process only ever receives a sanitized command: what
    [powershell] and [opencode] return depends on the subprocess only
    through its behaviour on commands that hold no character of the
    deny-list and have no white space at their ends; [opencode] passes the
    command as one line of input. *)
Theorem process_receives_sanitized_command (exception_text : exn -> str)
    (ps_timeout opencode_timeout : Z) (cli : str) (mkdir : result unit)
    (path_valid : bool)
    (run run' : list str -> result CompletedProcess)
    (run_input run_input' : list str -> str -> result CompletedProcess) (cmd : str) :
  (forall c : str,
      (forall x, In x SecurityManager.dangerous_chars -> ~ In x c) ->
      strip c = c ->
      run [u "powershell"; u "-Command"; c] = run' [u "powershell"; u "-Command"; c]
      /\ run_input [cli; u "--yes"] (c ++ [10]) = run_input' [cli; u "--yes"] (c ++ [10])) ->
  powershell exception_text ps_timeout run cmd
  = powershell exception_text ps_timeout run' cmd
  /\ opencode exception_text cli opencode_timeout mkdir path_valid run_input cmd
     = opencode exception_text cli opencode_timeout mkdir path_valid run_input' cmd.
Proof.
  intros Hsame. unfold powershell, opencode, SecurityManager.sanitize_command.
  destruct (SecurityManager.first_dangerous SecurityManager.dangerous_chars cmd) eqn:E;
    [split; reflexivity|].
  cbv beta iota.
  assert (Hsafe : forall x, In x SecurityManager.dangerous_chars -> ~ In x (strip cmd)).
  { intros x Hx Hin. apply in_strip in Hin.
    now apply (first_dangerous_None _ _ E x Hx). }
  destruct (Hsame (strip cmd) Hsafe (strip_idempotent cmd)) as [E1 E2].
  rewrite E1, E2. split; reflexivity.
Qed.

Lemma process_receives_sanitized_command_witness :
  powershell (fun _ => []) 60
    (fun argv => if existsb (char_in 59) argv then Ok accented_process else Ok boom_process)
    (u "  git status ")
  = powershell (fun _ => []) 60 (fun _ => Ok boom_process) (u "  git status ").
Proof.
  apply (process_receives_sanitized_command (fun _ => []) 60 300 (u "opencode") (Ok tt) true
           (fun argv => if existsb (char_in 59) argv then Ok accented_process
                        else Ok boom_process)
           (fun _ => Ok boom_process)
           (fun _ _ => Ok boom_process) (fun _ _ => Ok boom_process) (u "  git status ")).
  intros c Hsafe _. split; [|reflexivity].
  assert (Hc : char_in 59 c = false).
  { destruct (char_in 59 c) eqn:X; [|reflexivity].
    apply char_in_In in X. exfalso. apply (Hsafe 59); [vm_compute; tauto | assumption]. }
  cbn [existsb]. rewrite Hc. reflexivity.
Defined.

(* ================================================================== *)
(** * Properties of the provider calls *)

Import AIManager.

(** X19.  The message list of a request: the system prompt first when
    there is one, then the most recent turns of the context, at most 10 and
    in the order of the context, each with the role [user] and an empty
    content where the turn has none, then the new prompt with the role
    [user]; never more than 12 messages. *)
Theorem build_messages_shape (prompt : str) (system_prompt : option str)
    (context : list turn) :
  exists sys older recent,
    context = older ++ recent
    /\ List.length recent = Nat.min 10 (List.length context)
    /\ build_messages prompt system_prompt context
       = sys
           ++ map (fun msg => {| role := get_or (rol msg) (u "user");
                                 content := get_or (icerik msg) [] |}) recent
           ++ [{| role := u "user"; content := prompt |}]
    /\ ((sys = [] /\ (system_prompt = None \/ system_prompt = Some []))
        \/ (exists text, system_prompt = Some text /\ text <> []
                         /\ sys = [{| role := u "system"; content := text |}]))
    /\ (List.length (build_messages prompt system_prompt context) <= 12)%nat
    /\ last (build_messages prompt system_prompt context)
            {| role := []; content := [] |}
       = {| role := u "user"; content := prompt |}.
Proof.
  set (sys := match system_prompt with
              | Some (c :: s) => [{| role := u "system"; content := c :: s |}]
              | _ => []
              end).
  exists sys, (firstn (List.length context - 10) context), (last_n 10 context).
  assert (Hlen : List.length (last_n 10 context) = Nat.min 10 (List.length context)).
  { unfold last_n. rewrite length_skipn. lia. }
  assert (Hsys : (List.length sys <= 1)%nat).
  { unfold sys. destruct system_prompt as [[|c s]|]; simpl; lia. }
  split; [unfold last_n; now rewrite firstn_skipn|]. split; [assumption|].
  split; [reflexivity|]. split; [|split].
  - unfold sys. destruct system_prompt as [[|c s]|].
    + left. split; [reflexivity | now right].
    + right. exists (c :: s). repeat split. discriminate.
    + left. split; [reflexivity | now left].
  - unfold build_messages. fold sys.
    rewrite !length_app, length_map, Hlen. cbn [List.length]. lia.
  - unfold build_messages. fold sys.
    rewrite app_assoc. apply last_last.
Qed.

(** X20.  [sorgula] turns every failure of the request into a text: when
    the request does not produce a decoded response, whatever else it does,
    [sorgula] returns a text and raises nothing.  With the provider
    [openai] and no API key, and with a provider that is neither [ollama]
    nor [openai], it returns its text without making a request. *)
Theorem sorgula_failures_are_text (exception_text : exn -> str)
    (lookup_error_text : json -> str) (post : http_request -> http_outcome)
    (config : Config) (prompt : str) (system_prompt : option str)
    (context : list turn) :
  ((forall req sonuc, post req <> Response sonuc) ->
   exists text,
     sorgula exception_text lookup_error_text post config prompt system_prompt context
     = JString text)
  /\ (ai_provider config = u "openai" -> openai_api_key config = [] ->
      forall post',
        sorgula exception_text lookup_error_text post' config prompt system_prompt context
        = JString (u "OpenAI API key yok! OPENAI_API_KEY ortam değişkenini ayarlayın."))
  /\ (ai_provider config <> u "ollama" -> ai_provider config <> u "openai" ->
      forall post',
        sorgula exception_text lookup_error_text post' config prompt system_prompt context
        = JString (u "Bilinmeyen AI sağlayıcı: " ++ ai_provider config)).
Proof.
  split; [|split].
  - intros Hno. unfold sorgula, _ollama_sorgula, _openai_sorgula.
    destruct (str_eqb (ai_provider config) (u "ollama")).
    + match goal with
      | |- context [post ?req] => pose proof (Hno req) as Hr; destruct (post req)
      end; try (eexists; reflexivity).
      now destruct (Hr sonuc).
    + destruct (str_eqb (ai_provider config) (u "openai")); [|eexists; reflexivity].
      destruct (openai_api_key config); [eexists; reflexivity|].
      match goal with
      | |- context [post ?req] => pose proof (Hno req) as Hr; destruct (post req)
      end; try (eexists; reflexivity).
      now destruct (Hr sonuc).
  - intros Hp Hk post'. unfold sorgula, _openai_sorgula. rewrite Hp, Hk. reflexivity.
  - intros H1 H2 post'. unfold sorgula.
    apply str_eqb_neq in H1, H2. now rewrite H1, H2.
Qed.

Lemma sorgula_failures_are_text_witness :
  sorgula (fun _ => []) (fun _ => []) (fun _ => UrlError (u "connection refused"))
    {| ai_provider := u "ollama"; ai_model := u "llama3.2";
       ai_api_url := u "http://localhost:11434/api/chat"; ai_timeout := 120;
       openai_api_key := [] |}
    (u "hello") None []
  = JString (u "Ollama çalışmıyor. 'ollama serve' komutuyla başlatabilirsiniz.").
Proof.
  destruct (sorgula_failures_are_text (fun _ => []) (fun _ => [])
              (fun _ => UrlError (u "connection refused"))
              {| ai_provider := u "ollama"; ai_model := u "llama3.2";
                 ai_api_url := u "http://localhost:11434/api/chat"; ai_timeout := 120;
                 openai_api_key := [] |}
              (u "hello") None []) as [H _].
  destruct H as [text E].
  - intros req sonuc. discriminate.
  - rewrite E. assert (X := E). vm_compute in X. injection X as <-. reflexivity.
Defined.

(* ================================================================== *)
(** * Properties of the assistant's answer *)

Import YerelAIAsistan.

Lemma order_by_head_newest {A : Type} (k : A -> Z) (l : list A) (x : A) :
  In x l -> (forall y, In y l -> y = x \/ k y < k x) ->
  exists rest, Sqlite.order_by (Sqlite.desc k) l = x :: rest.
Proof.
  intros Hin Hmax.
  pose proof (order_by_perm (Sqlite.desc k) l) as Hp.
  pose proof (order_by_desc_sorted k l) as Hs. unfold sorted_desc in Hs.
  destruct (Sqlite.order_by (Sqlite.desc k) l) as [|h t].
  - apply Permutation_nil in Hp. subst l. destruct Hin.
  - assert (Hh : In h l) by (apply (Permutation_in h Hp); now left).
    destruct (Hmax h Hh) as [->|Hlt]; [now exists t|].
    exfalso. apply (Permutation_in x (Permutation_sym Hp)) in Hin.
    destruct Hin as [->|Hin]; [lia|].
    inversion Hs as [|? ? _ Hall]; subst. rewrite Forall_forall in Hall.
    specialize (Hall x Hin). lia.
Qed.

(** X22.  Teaching, then asking.  Take a key and an answer UTF-8 can
    encode, taught at a time later than every stored answer, and a question
    whose lower-cased text UTF-8 can encode, has no [%], [_] and U+0000, is
    at most 49998 bytes long and occurs in the stored key read up to its
    first U+0000.  Then [ai_cevapla] answers the question with
    [[Öğrenilen]] followed by the answer taught.  It does so without
    consulting the provider and without writing to the store, with or
    without a session. *)
Theorem taught_answer_returned (lower : str -> str) (exception_text : exn -> str)
    (answer_error_text : option exn -> json -> str)
    (sorgula : str -> option str -> list turn -> json)
    (env : cevap_env) (oturum : option str) (now : timestamp)
    (soru yanit q : str) (d : db) :
  fault_ara env = None ->
  bindable [strip (lower soru); yanit; lower q] ->
  nul_free (lower q) ->
  utf8_length (lower q) <= 49998 ->
  ~ In 37 (lower q) -> ~ In 95 (lower q) ->
  occurs_in (lower q) (Sqlite.c_string (strip (lower soru))) ->
  (forall r, In r (ogrenilen d) -> l_olusturma r < now) ->
  exists d1,
    ogren lower now None soru yanit d = (true, d1)
    /\ ai_cevapla lower exception_text answer_error_text sorgula env oturum q d1
       = (JString (u "[Öğrenilen] " ++ yanit), d1).
Proof.
  intros Hf Hb Hn Hlen H1 H2 Hocc Hnew. bindable_hyps.
  eexists. split; [now apply ogren_ok|].
  unfold ai_cevapla. rewrite Hf. rewrite ogrenilen_ara_plain by assumption.
  set (row := {| l_id := Sqlite.next_rowid (seq_ogrenilen d) (map l_id (ogrenilen d));
                 l_soru := strip (lower soru); l_yanit := yanit; l_olusturma := now |}).
  destruct (order_by_head_newest l_olusturma
              (filter (fun r => nocase_occurs (lower q) (Sqlite.c_string (l_soru r)))
                 (ogrenilen (insert_or_replace_ogrenilen (normalize lower soru) yanit now d)))
              row) as [rest E].
  - apply filter_In. split.
    + unfold insert_or_replace_ogrenilen. simpl. apply in_or_app. right. now left.
    + cbn [l_soru row]. now apply occurs_nocase.
  - intros y Hy. apply filter_In in Hy as [Hy _].
    unfold insert_or_replace_ogrenilen in Hy. simpl in Hy.
    apply in_app_or in Hy as [Hy|[<-|[]]]; [|now left].
    right. apply filter_In in Hy as [Hy _]. simpl. now apply Hnew.
  - rewrite E. reflexivity.
Qed.

Lemma taught_answer_returned_witness :
  exists d1,
    ogren ascii_lower 1000 None (u "2+2") (u "4") session_db = (true, d1)
    /\ ai_cevapla ascii_lower (fun _ => []) (fun _ _ => []) (fun _ _ _ => JNull)
         {| fault_ara := None; fault_hafiza := None; fault_gecmis := None;
            fault_user := None; fault_assistant := None;
            now_user := 2000; now_assistant := 2001 |}
         (Some (u "ab12cd34")) (u "2+2") d1
       = (JString (u "[Öğrenilen] 4"), d1).
Proof.
  apply (taught_answer_returned ascii_lower (fun _ => []) (fun _ _ => [])
           (fun _ _ _ => JNull) _ (Some (u "ab12cd34")) 1000 (u "2+2") (u "4") (u "2+2")
           session_db).
  - reflexivity.
  - repeat constructor.
  - intros H. vm_compute in H. repeat (destruct H as [H|H]; [discriminate H|]). exact H.
  - vm_compute. discriminate.
  - intros H. vm_compute in H. repeat (destruct H as [H|H]; [discriminate H|]). exact H.
  - intros H. vm_compute in H. repeat (destruct H as [H|H]; [discriminate H|]). exact H.
  - apply occursb_spec. reflexivity.
  - intros r [].
Defined.

Lemma oturum_mesaj_ekle_ok (now : timestamp) (oid rol icerik : str) (d : db) :
  rol_check rol = true -> Sqlite.encodable oid = true ->
  Sqlite.encodable icerik = true ->
  oturum_mesaj_ekle now None oid rol icerik d
  = (Ok tt,
     set_mesajlar
       (mesajlar d ++
          [{| m_id := Sqlite.next_rowid (seq_mesajlar d) (map m_id (mesajlar d));
              m_oturum_id := oid; m_rol := rol; m_icerik := icerik; m_zaman := now |}])
       (Sqlite.next_rowid (seq_mesajlar d) (map m_id (mesajlar d))) d).
Proof.
  intros Hr Ho Hi. unfold oturum_mesaj_ekle, get_cursor, insert_mesaj.
  fold (rol_check rol). rewrite Hr. cbn [negb].
  rewrite !bind_text_ok by (assumption || now apply rol_check_encodable).
  rewrite Hr. reflexivity.
Qed.

Lemma oturum_mesaj_ekle_unencodable (now : timestamp) (oid rol icerik : str) (d : db) :
  rol_check rol = true -> Sqlite.encodable oid = true ->
  Sqlite.encodable icerik = false ->
  oturum_mesaj_ekle now None oid rol icerik d = (Raise UnicodeEncodeError, d).
Proof.
  intros Hr Ho Hi. unfold oturum_mesaj_ekle, get_cursor.
  fold (rol_check rol). rewrite Hr. cbn [negb].
  rewrite !bind_text_ok by (assumption || now apply rol_check_encodable).
  unfold Sqlite.bind_text. rewrite Hi. reflexivity.
Qed.

(** X23.  With no learned answer for the question and a healthy storage,
    [ai_cevapla] asks the provider with the 5 most important memories in
    the system prompt and the session's 5 newest messages as context, read
    before the new turns are written.  In a session, with a question whose
    first 500 characters UTF-8 can encode and a text for answer, it appends
    the question with the role [user], cut to 500 characters; when UTF-8
    can encode the first 500 characters of the answer it then appends them
    with the role [assistant] and returns the answer whole.  When storing
    the answer fails, by a failure of the storage or because UTF-8 cannot
    encode it, the question stays stored and the caller gets the error text
    instead of the answer.  Without a session it returns the answer and
    writes nothing. *)
Theorem ai_cevapla_records_turns (lower : str -> str) (exception_text : exn -> str)
    (answer_error_text : option exn -> json -> str)
    (sorgula : str -> option str -> list turn -> json)
    (now_user now_assistant : timestamp) (oid soru text text0 : str)
    (hafiza : list uzun_row) (gecmis : list mesaj_row) (e : exn) (d : db) :
  oid <> [] ->
  Sqlite.encodable (firstn 500 soru) = true ->
  ogrenilen_ara lower None soru d = (Ok [], d) ->
  uzun_getir None [] 5 d = (Ok hafiza, d) ->
  oturum_mesajlari None oid 5 d = (Ok gecmis, d) ->
  sorgula soru (Some (system_prompt_of hafiza)) (map turn_of gecmis) = JString text ->
  sorgula soru (Some (system_prompt_of hafiza)) [] = JString text0 ->
  exists m1 m2,
    m_oturum_id m1 = oid /\ m_rol m1 = u "user" /\ m_icerik m1 = firstn 500 soru
    /\ m_zaman m1 = now_user
    /\ m_oturum_id m2 = oid /\ m_rol m2 = u "assistant" /\ m_icerik m2 = firstn 500 text
    /\ m_zaman m2 = now_assistant /\ m_id m1 < m_id m2
    /\ (Sqlite.encodable (firstn 500 text) = true ->
        ai_cevapla lower exception_text answer_error_text sorgula
          {| fault_ara := None; fault_hafiza := None; fault_gecmis := None;
             fault_user := None; fault_assistant := None;
             now_user := now_user; now_assistant := now_assistant |}
          (Some oid) soru d
        = (JString text, set_mesajlar (mesajlar d ++ [m1; m2]) (m_id m2) d))
    /\ (Sqlite.encodable (firstn 500 text) = false ->
        ai_cevapla lower exception_text answer_error_text sorgula
          {| fault_ara := None; fault_hafiza := None; fault_gecmis := None;
             fault_user := None; fault_assistant := None;
             now_user := now_user; now_assistant := now_assistant |}
          (Some oid) soru d
        = (JString (u "Yanıt oluşturulamadı: " ++ exception_text UnicodeEncodeError),
           set_mesajlar (mesajlar d ++ [m1]) (m_id m1) d))
    /\ ai_cevapla lower exception_text answer_error_text sorgula
         {| fault_ara := None; fault_hafiza := None; fault_gecmis := None;
            fault_user := None; fault_assistant := Some e;
            now_user := now_user; now_assistant := now_assistant |}
         (Some oid) soru d
       = (JString (u "Yanıt oluşturulamadı: " ++ exception_text e),
          set_mesajlar (mesajlar d ++ [m1]) (m_id m1) d)
    /\ ai_cevapla lower exception_text answer_error_text sorgula
         {| fault_ara := None; fault_hafiza := None; fault_gecmis := None;
            fault_user := None; fault_assistant := None;
            now_user := now_user; now_assistant := now_assistant |}
         None soru d
       = (JString text0, d).
Proof.
  intros Hoid Hsoru Hara Hhaf Hgec Hans Hans0.
  destruct oid as [|c s]; [contradiction|].
  assert (Ho : Sqlite.encodable (c :: s) = true).
  { revert Hgec. unfold oturum_mesajlari, get_cursor. intros E.
    destruct (Sqlite.bind_text (c :: s)) as [x|x] eqn:B; [|discriminate E].
    now apply bind_text_inv in B. }
  set (id1 := Sqlite.next_rowid (seq_mesajlar d) (map m_id (mesajlar d))).
  set (m1 := {| m_id := id1; m_oturum_id := c :: s; m_rol := u "user";
                m_icerik := firstn 500 soru; m_zaman := now_user |}).
  set (d1 := set_mesajlar (mesajlar d ++ [m1]) id1 d).
  set (id2 := Sqlite.next_rowid (seq_mesajlar d1) (map m_id (mesajlar d1))).
  set (m2 := {| m_id := id2; m_oturum_id := c :: s; m_rol := u "assistant";
                m_icerik := firstn 500 text; m_zaman := now_assistant |}).
  assert (E1 : oturum_mesaj_ekle now_user None (c :: s) (u "user") (firstn 500 soru) d
               = (Ok tt, d1)).
  { now rewrite oturum_mesaj_ekle_ok. }
  assert (E3 : oturum_mesaj_ekle now_assistant (Some e) (c :: s) (u "assistant")
                 (firstn 500 text) d1 = (Raise e, d1)) by reflexivity.
  exists m1, m2. repeat (split; [reflexivity|]).
  split; [|split; [|split; [|split]]].
  - pose proof (next_rowid_gt (seq_mesajlar d1) (map m_id (mesajlar d1))) as [G _].
    change (m_id m2) with id2. change (m_id m1) with (seq_mesajlar d1). exact G.
  - intros Ht. unfold ai_cevapla.
    cbn [fault_ara fault_hafiza fault_gecmis fault_user fault_assistant
         YerelAIAsistan.now_user YerelAIAsistan.now_assistant].
    rewrite Hara, Hhaf, Hgec, Hans, E1.
    rewrite oturum_mesaj_ekle_ok by (assumption || reflexivity).
    fold id2. fold m2. unfold d1. cbn [mesajlar set_mesajlar]. rewrite <- app_assoc.
    reflexivity.
  - intros Ht. unfold ai_cevapla.
    cbn [fault_ara fault_hafiza fault_gecmis fault_user fault_assistant
         YerelAIAsistan.now_user YerelAIAsistan.now_assistant].
    rewrite Hara, Hhaf, Hgec, Hans, E1.
    rewrite oturum_mesaj_ekle_unencodable by (assumption || reflexivity).
    reflexivity.
  - unfold ai_cevapla. cbn [fault_ara fault_hafiza fault_gecmis fault_user
                             fault_assistant YerelAIAsistan.now_user
                             YerelAIAsistan.now_assistant].
    rewrite Hara, Hhaf, Hgec, Hans, E1.
    rewrite E3. reflexivity.
  - unfold ai_cevapla. cbn [fault_ara fault_hafiza fault_gecmis fault_user
                             fault_assistant].
    rewrite Hara, Hhaf, Hans0. reflexivity.
Qed.

Lemma ai_cevapla_records_turns_witness :
  exists m1 m2,
    ai_cevapla ascii_lower (fun _ => []) (fun _ _ => [])
      (fun _ _ context => JString (str_of_int (Z.of_nat (List.length context))))
      {| fault_ara := None; fault_hafiza := None; fault_gecmis := None;
         fault_user := None; fault_assistant := None;
         now_user := 5000; now_assistant := 5001 |}
      (Some (u "ab12cd34")) (u "how many turns?") session_db
    = (JString (u "3"), set_mesajlar (mesajlar session_db ++ [m1; m2]) (m_id m2) session_db)
    /\ m_icerik m1 = u "how many turns?" /\ m_icerik m2 = u "3".
Proof.
  set (sorgula := fun (_ : str) (_ : option str) (context : list turn) =>
                    JString (str_of_int (Z.of_nat (List.length context)))).
  set (hafiza := fst (match uzun_getir None [] 5 session_db with
                      | (Ok rows, d) => (rows, d) | (Raise _, d) => ([], d) end)).
  set (gecmis := fst (match oturum_mesajlari None (u "ab12cd34") 5 session_db with
                      | (Ok rows, d) => (rows, d) | (Raise _, d) => ([], d) end)).
  assert (Hoid : u "ab12cd34" <> []) by discriminate.
  assert (Hara : ogrenilen_ara ascii_lower None (u "how many turns?") session_db
                 = (Ok [], session_db)) by (vm_compute; reflexivity).
  assert (Hhaf : uzun_getir None [] 5 session_db = (Ok hafiza, session_db))
    by (vm_compute; reflexivity).
  assert (Hgec : oturum_mesajlari None (u "ab12cd34") 5 session_db
                 = (Ok gecmis, session_db)) by (vm_compute; reflexivity).
  assert (Hans : sorgula (u "how many turns?") (Some (system_prompt_of hafiza))
                   (map turn_of gecmis) = JString (u "3")) by (vm_compute; reflexivity).
  assert (Hans0 : sorgula (u "how many turns?") (Some (system_prompt_of hafiza)) []
                  = JString (u "0")) by (vm_compute; reflexivity).
  pose proof (ai_cevapla_records_turns ascii_lower (fun _ => []) (fun _ _ => [])
                sorgula 5000 5001 (u "ab12cd34") (u "how many turns?") (u "3") (u "0")
                hafiza gecmis OperationalError session_db Hoid eq_refl Hara Hhaf Hgec
                Hans Hans0)
    as [m1 [m2 [_ [_ [H1 [_ [_ [_ [H2 [_ [_ [E _]]]]]]]]]]]].
  exists m1, m2. split; [exact (E eq_refl)|]. split; [exact H1 | exact H2].
Defined.

(** X21.  The answer of a provider: with the provider [ollama], [sorgula]
    posts the configured model and the message list to the configured
    endpoint and returns the [content] of the [message] of the response;
    with the provider [openai] and an API key, it posts to the fixed
    endpoint with the fixed model [gpt-3.5-turbo], whatever model and
    endpoint are configured, with the key as bearer token, and returns the
    [content] of the [message] of the first of the [choices]. *)
Theorem sorgula_returns_content (exception_text : exn -> str)
    (lookup_error_text : json -> str) (post : http_request -> http_outcome)
    (config : Config) (prompt : str) (system_prompt : option str)
    (context : list turn) (entries inner first msg : list (str * json))
    (rest : list json) (v : json) :
  (ai_provider config = u "ollama" ->
   post {| url := ai_api_url config; authorization := None; model := ai_model config;
           messages := build_messages prompt system_prompt context;
           timeout := ai_timeout config |} = Response (JObject entries) ->
   dict_get (u "message") entries = Some (JObject inner) ->
   dict_get (u "content") inner = Some v ->
   sorgula exception_text lookup_error_text post config prompt system_prompt context = v)
  /\ (ai_provider config = u "openai" -> openai_api_key config <> [] ->
      post {| url := u "https://api.openai.com/v1/chat/completions";
              authorization := Some (u "Bearer " ++ openai_api_key config);
              model := u "gpt-3.5-turbo";
              messages := build_messages prompt system_prompt context;
              timeout := ai_timeout config |} = Response (JObject entries) ->
      dict_get (u "choices") entries = Some (JArray (JObject first :: rest)) ->
      dict_get (u "message") first = Some (JObject msg) ->
      dict_get (u "content") msg = Some v ->
      sorgula exception_text lookup_error_text post config prompt system_prompt context
      = v).
Proof.
  split.
  - intros Hp Hpost Hm Hc. unfold sorgula, _ollama_sorgula. rewrite Hp.
    cbn [str_eqb]. change (str_eqb (u "ollama") (u "ollama")) with true. cbv iota.
    rewrite Hpost. unfold ollama_content. now rewrite Hm, Hc.
  - intros Hp Hk Hpost Hch Hm Hc. unfold sorgula, _openai_sorgula. rewrite Hp.
    change (str_eqb (u "openai") (u "ollama")) with false.
    change (str_eqb (u "openai") (u "openai")) with true. cbv iota.
    destruct (openai_api_key config) as [|k ks] eqn:Ek; [contradiction|].
    rewrite Hpost. unfold openai_content, index_key, index_0.
    now rewrite Hch, Hm, Hc.
Qed.

Lemma sorgula_returns_content_witness :
  sorgula (fun _ => []) (fun _ => [])
    (fun req =>
       if str_eqb (model req) (u "llama3.2")
       then Response (JObject [(u "model", JString (u "llama3.2"));
                               (u "message", JObject [(u "role", JString (u "assistant"));
                                                      (u "content", JString (u "Merhaba"))])])
       else JsonDecodeError)
    {| ai_provider := u "ollama"; ai_model := u "llama3.2";
       ai_api_url := u "http://localhost:11434/api/chat"; ai_timeout := 120;
       openai_api_key := [] |}
    (u "selam") None []
  = JString (u "Merhaba").
Proof.
  eapply (proj1 (sorgula_returns_content (fun _ => []) (fun _ => []) _
                   {| ai_provider := u "ollama"; ai_model := u "llama3.2";
                      ai_api_url := u "http://localhost:11434/api/chat"; ai_timeout := 120;
                      openai_api_key := [] |}
                   (u "selam") None [] _ _ [] [] [] (JString (u "Merhaba"))));
    reflexivity.
Defined.

(* ================================================================== *)
(** * Further properties of the guard and of the long-term memory *)

(** X24.  [validate_input_length] accepts a text exactly when its length
    does not exceed the maximum in force: the argument when it is given and
    not 0, the configured maximum otherwise, so that an argument of 0 does
    not forbid every text.  Every shorter text of an accepted text is
    accepted. *)
Theorem validate_input_length_bound (max_input_length : Z) (text : str)
    (max_length : option Z) (n : nat) :
  (SecurityManager.validate_input_length max_input_length text max_length = true
   <-> Z.of_nat (List.length text)
       <= match max_length with
          | Some 0 | None => max_input_length
          | Some m => m
          end)
  /\ SecurityManager.validate_input_length max_input_length text (Some 0)
     = SecurityManager.validate_input_length max_input_length text None
  /\ (SecurityManager.validate_input_length max_input_length text max_length = true ->
      SecurityManager.validate_input_length max_input_length (firstn n text) max_length
      = true).
Proof.
  assert (H : forall t,
             SecurityManager.validate_input_length max_input_length t max_length = true
             <-> Z.of_nat (List.length t)
                 <= match max_length with
                    | Some 0 | None => max_input_length
                    | Some m => m
                    end).
  { intros t. unfold SecurityManager.validate_input_length.
    destruct max_length as [m|].
    - destruct (Z.eqb_spec m 0) as [->|Hm].
      + destruct (Z.gtb_spec (Z.of_nat (List.length t)) max_input_length);
          split; intros; try discriminate; try reflexivity; lia.
      + destruct m; try contradiction;
          match goal with
          | |- context [?a >? ?b] => destruct (Z.gtb_spec a b)
          end; split; intros; try discriminate; try reflexivity; lia.
    - destruct (Z.gtb_spec (Z.of_nat (List.length t)) max_input_length);
        split; intros; try discriminate; try reflexivity; lia. }
  split; [apply H|]. split; [reflexivity|].
  intros Hok. apply H. apply H in Hok.
  eapply Z.le_trans; [|exact Hok].
  apply Nat2Z.inj_le. rewrite length_firstn. apply Nat.le_min_r.
Qed.

Lemma validate_input_length_bound_witness :
  SecurityManager.validate_input_length 10000 (firstn 3 (u "hafiza-ekle buy milk")) None
  = true.
Proof.
  apply (validate_input_length_bound 10000 (u "hafiza-ekle buy milk") None 3).
  reflexivity.
Defined.

(** X25.  Without tags and with a limit from 0 to 2^63-1, [uzun_getir]
    yields the long-term entries by importance descending, then creation
    time descending, the first [limit] of them: all of them when the store
    holds no more than the limit. *)
Theorem uzun_getir_without_tags (limit : Z) (d : db) :
  0 <= limit < 2 ^ 63 ->
  exists sorted,
    Permutation sorted (uzun_sureli d)
    /\ sorted_desc2 u_onem u_olusturma sorted
    /\ uzun_getir None [] limit d = (Ok (firstn (Z.to_nat limit) sorted), d)
    /\ Z.of_nat (List.length (firstn (Z.to_nat limit) sorted)) <= limit
    /\ (Z.of_nat (List.length (uzun_sureli d)) <= limit ->
        firstn (Z.to_nat limit) sorted = sorted).
Proof.
  intros Hlim. eexists. split; [apply order_by_perm|].
  split; [apply order_by_desc2_sorted|]. split; [|split].
  - unfold uzun_getir, get_cursor. rewrite bind_int_ok by lia.
    now rewrite limit_nonneg by lia.
  - rewrite length_firstn. lia.
  - intros Hc. apply firstn_all2.
    rewrite (Permutation_length (order_by_perm _ _)). lia.
Qed.

Lemma uzun_getir_without_tags_witness :
  exists r, uzun_getir None [] 5 milk_db = (Ok [r], milk_db) /\ u_onem r = 7.
Proof.
  assert (Hlim : 0 <= 5 < 2 ^ 63) by (split; [lia | reflexivity]).
  destruct (uzun_getir_without_tags 5 milk_db Hlim) as [sorted [Hp [_ [E _]]]].
  vm_compute in Hp. apply Permutation_sym, Permutation_length_1_inv in Hp. subst sorted.
  eexists. split; [exact E | reflexivity].
Defined.
